(** * Secrets pipeline of monobase-infra: scanner, generator, provider,
      validator and the CLI commands that compose them.

    The TypeScript sources are embedded shallowly.  Dynamic values that
    come out of the YAML and JSON parsers are kept as a small universe of
    JavaScript values, exceptions are an explicit result type, the remote
    backend and the cluster are explicit state, and randomness, the
    clock and the operator's answers are inputs. *)

From Stdlib Require Import ZArith Ascii String List.
From stdpp Require Import base option list strings gmap pretty.

Local Open Scope string_scope.
Local Open Scope list_scope.

(** ** Results of code that may throw *)

(** What a [catch] can observe of an exception, and [process.exit],
    which no [catch] sees. *)
Inductive Err : Type :=
| TypeError
| RangeError
| GrpcError (code : Z)
| Error (msg : string)
| Exit (code : Z).

Inductive res (A : Type) : Type :=
| Ok (a : A)
| Throw (e : Err).
Arguments Ok {A} a.
Arguments Throw {A} e.

Definition rbind {A B} (x : res A) (f : A -> res B) : res B :=
  match x with
  | Ok a => f a
  | Throw e => Throw e
  end.

Notation "'let*' x ':=' c 'in' k" := (rbind c (fun x => k))
  (at level 10, x pattern, c at level 100, k at level 200).

(** ** JavaScript values as produced by the YAML and JSON parsers *)

Module Js.

(** [undefined] is not a value of a parsed document; it is [None] in
    [option JsVal].  Numbers are the integers. *)
#[warnings="-register-all"]
Inductive JsVal : Type :=
| JNull
| JBool (b : bool)
| JNum (z : Z)
| JStr (s : string)
| JArr (items : list JsVal)
| JObj (fields : list (string * JsVal)).

Definition undef : option JsVal := None.

(** ToBoolean *)
Definition truthyV (v : JsVal) : bool :=
  match v with
  | JNull => false
  | JBool b => b
  | JNum z => negb (Z.eqb z 0)
  | JStr s => negb (String.eqb s "")
  | JArr _ | JObj _ => true
  end.

Definition truthy (o : option JsVal) : bool :=
  match o with
  | None => false
  | Some v => truthyV v
  end.

Fixpoint assoc (k : string) (fields : list (string * JsVal)) : option JsVal :=
  match fields with
  | [] => None
  | (k', v) :: rest => if String.eqb k k' then Some v else assoc k rest
  end.

(** [v.p] for a value that is neither [null] nor [undefined]: own
    properties of objects, [length] of arrays and strings, nothing
    else (none of the names the program reads is inherited). *)
Definition propV (v : JsVal) (p : string) : option JsVal :=
  match v with
  | JObj fields => assoc p fields
  | JArr items => if String.eqb p "length" then Some (JNum (Z.of_nat (length items))) else None
  | JStr s => if String.eqb p "length" then Some (JNum (Z.of_nat (String.length s))) else None
  | _ => None
  end.

(** [o.p]: a TypeError on [null] and [undefined]. *)
Definition prop (o : option JsVal) (p : string) : res (option JsVal) :=
  match o with
  | None => Throw TypeError
  | Some JNull => Throw TypeError
  | Some v => Ok (propV v p)
  end.

(** [o?.p] *)
Definition optProp (o : option JsVal) (p : string) : option JsVal :=
  match o with
  | None => None
  | Some JNull => None
  | Some v => propV v p
  end.

Definition typeofObject (o : option JsVal) : bool :=
  match o with
  | Some JNull | Some (JArr _) | Some (JObj _) => true
  | _ => false
  end.

Definition typeofBoolean (o : option JsVal) : bool :=
  match o with
  | Some (JBool _) => true
  | _ => false
  end.

Definition typeofString (o : option JsVal) : bool :=
  match o with
  | Some (JStr _) => true
  | _ => false
  end.

Definition isArray (o : option JsVal) : bool :=
  match o with
  | Some (JArr _) => true
  | _ => false
  end.

(** [a || b] on values *)
Definition orElse (o : option JsVal) (d : JsVal) : JsVal :=
  match o with
  | Some v => if truthyV v then v else d
  | None => d
  end.

Fixpoint joinWith (sep : string) (l : list string) : string :=
  match l with
  | [] => ""
  | [s] => s
  | s :: rest => s +:+ sep +:+ joinWith sep rest
  end.

(** ToString, as a template literal applies it. *)
Fixpoint toStr (v : JsVal) : string :=
  match v with
  | JNull => "null"
  | JBool true => "true"
  | JBool false => "false"
  | JNum z => pretty z
  | JStr s => s
  | JArr items =>
      joinWith "," (map (fun x => match x with JNull => "" | _ => toStr x end) items)
  | JObj _ => "[object Object]"
  end.

Definition template (o : option JsVal) : string :=
  match o with
  | None => "undefined"
  | Some v => toStr v
  end.

(** [Object.entries]: the fields of an object in their enumeration
    order, the indexed elements of an array. *)
Definition entries (v : JsVal) : list (string * JsVal) :=
  match v with
  | JObj fields => fields
  | JArr items => imap (fun i x => (pretty i, x)) items
  | _ => []
  end.

(** Structural equality, used for [===] on parsed scalars and for the
    keys of a [Map].  A [Map] compares keys that are objects or
    arrays by identity, which parsed values do not have here: on
    scalar keys the two agree. *)
Fixpoint eqb (a b : JsVal) {struct a} : bool :=
  match a, b with
  | JNull, JNull => true
  | JBool x, JBool y => Bool.eqb x y
  | JNum x, JNum y => Z.eqb x y
  | JStr x, JStr y => String.eqb x y
  | JArr xs, JArr ys =>
      (fix go (xs ys : list JsVal) {struct xs} : bool :=
         match xs, ys with
         | [], [] => true
         | x :: xs', y :: ys' => eqb x y && go xs' ys'
         | _, _ => false
         end) xs ys
  | JObj xs, JObj ys =>
      (fix go (xs ys : list (string * JsVal)) {struct xs} : bool :=
         match xs, ys with
         | [], [] => true
         | (k, x) :: xs', (k', y) :: ys' => String.eqb k k' && eqb x y && go xs' ys'
         | _, _ => false
         end) xs ys
  | _, _ => false
  end.

Definition keyEqb (a b : option JsVal) : bool :=
  match a, b with
  | None, None => true
  | Some x, Some y => eqb x y
  | _, _ => false
  end.

End Js.

(** ** String helpers of the JavaScript and Node runtime *)

Module Str.

(** [hay.includes(needle)] *)
Fixpoint includes (needle hay : string) : bool :=
  String.prefix needle hay ||
  match hay with
  | EmptyString => false
  | String _ rest => includes needle rest
  end.

(** [s.split(c)] for a one-character separator: never empty. *)
Fixpoint split (c : ascii) (s : string) : list string :=
  match s with
  | EmptyString => [""]
  | String a rest =>
      if Ascii.eqb a c then "" :: split c rest
      else match split c rest with
           | [] => [String a ""]
           | w :: ws => String a w :: ws
           end
  end.

Definition endsWith (suffix s : string) : bool :=
  String.prefix (String.rev suffix) (String.rev s).

(** [path.basename(p, ext)] for a path without a trailing slash: the
    last segment, without [ext] when the segment ends in it and is
    longer than it. *)
Definition basename (p ext : string) : string :=
  let seg := List.last (split "/" p) "" in
  if endsWith ext seg && negb (String.eqb seg ext)
  then String.substring 0 (String.length seg - String.length ext) seg
  else seg.

End Str.

(** ** scanner.ts: discovery of the secrets declared in values files *)

Module Scanner.
Import Js.

Record DiscoveredSecret : Type := {
  sourceFile : string;
  deployment : string;
  chart : string;
  environment : option string;
  remoteKey : option JsVal;
  generator : option JsVal;
  secretStore : JsVal;
  refreshInterval : JsVal;
  namespace : option JsVal;
}.

(** Pattern 1: [{ enabled: boolean, remoteKey: string }] *)
Definition isSingleSecretConfig (value : option JsVal) : bool :=
  truthy value &&
  typeofObject value &&
  typeofBoolean (optProp value "enabled") &&
  typeofString (optProp value "remoteKey").

(** Pattern 2: [{ enabled: boolean, secrets: non-empty array }] *)
Definition isArraySecretsConfig (value : option JsVal) : bool :=
  truthy value &&
  typeofObject value &&
  typeofBoolean (optProp value "enabled") &&
  match optProp value "secrets" with
  | Some (JArr items) => Nat.ltb 0 (length items)
  | _ => false
  end.

Definition arrayItems (o : option JsVal) : list JsVal :=
  match o with
  | Some (JArr items) => items
  | _ => []
  end.

(** The body of the [for ... of externalSecrets.secrets] loop: reading
    a property of a [null] entry throws. *)
Fixpoint pushItems (mk : option JsVal -> option JsVal -> DiscoveredSecret)
    (items : list JsVal) (acc : list DiscoveredSecret) : res (list DiscoveredSecret) :=
  match items with
  | [] => Ok acc
  | item :: rest =>
      let* rk := prop (Some item) "remoteKey" in
      let* gen := prop (Some item) "generator" in
      pushItems mk rest (acc ++ [mk rk gen])
  end.

Definition extractSecretsFromChart (chartName : string) (chartConfig : option JsVal)
    (sourceFile : string) (deployment : string) (environment : option string)
    : res (list DiscoveredSecret) :=
  let externalSecrets := optProp chartConfig "externalSecrets" in
  if negb (truthy externalSecrets) || negb (truthy (optProp externalSecrets "enabled"))
  then Ok []
  else
    let secretStore := orElse (optProp externalSecrets "secretStore") (JStr "gcp-secretstore") in
    let refreshInterval := orElse (optProp externalSecrets "refreshInterval") (JStr "1h") in
    let namespace := optProp chartConfig "namespace" in
    let mk rk gen :=
      {| sourceFile := sourceFile; deployment := deployment; chart := chartName;
         environment := environment; remoteKey := rk; generator := gen;
         secretStore := secretStore; refreshInterval := refreshInterval;
         namespace := namespace |} in
    if isSingleSecretConfig externalSecrets then
      Ok [mk (optProp externalSecrets "remoteKey") (optProp externalSecrets "generator")]
    else if isArraySecretsConfig externalSecrets then
      pushItems mk (arrayItems (optProp externalSecrets "secrets")) []
    else Ok [].

Definition envTokens : list string :=
  ["staging"; "production"; "development"; "dev"; "stg"; "prod"].

Definition environmentOf (fileName : string) : option string :=
  let parts := Str.split "-" fileName in
  if Nat.ltb 1 (length parts) then
    let lastPart := List.last parts "" in
    if existsb (String.eqb lastPart) envTokens then Some lastPart else None
  else None.

(** The loop over [Object.entries(values)] inside the [try]: an
    exception leaves the loop and the descriptors pushed so far are
    what the function returns. *)
Fixpoint chartLoop (es : list (string * JsVal)) (filePath deployment : string)
    (environment : option string) (acc : list DiscoveredSecret) : list DiscoveredSecret :=
  match es with
  | [] => acc
  | (chartName, chartConfig) :: rest =>
      if String.eqb chartName "global" || String.eqb chartName "argocd"
      then chartLoop rest filePath deployment environment acc
      else match extractSecretsFromChart chartName (Some chartConfig) filePath deployment environment with
           | Ok chartSecrets => chartLoop rest filePath deployment environment (acc ++ chartSecrets)
           | Throw _ => acc
           end
  end.

(** [load filePath] is [readFileSync] followed by [parseYaml]; [None]
    when either throws. *)
Definition parseValuesFile (load : string -> option JsVal) (filePath : string)
    : list DiscoveredSecret :=
  match load filePath with
  | None => []
  | Some values =>
      if negb (truthyV values) || negb (typeofObject (Some values)) then []
      else
        let fileName := Str.basename filePath ".yaml" in
        let environment := environmentOf fileName in
        let isInfrastructure := Str.includes "/infrastructure/" filePath in
        let deployment := if isInfrastructure then "infrastructure" else fileName in
        let rootStep :=
          if isInfrastructure && truthy (propV values "externalSecrets") then
            extractSecretsFromChart fileName (Some values) filePath deployment environment
          else Ok [] in
        match rootStep with
        | Throw _ => []
        | Ok rootSecrets =>
            chartLoop (entries values) filePath deployment environment rootSecrets
        end
  end.

Record ScanResults : Type := {
  secrets : list DiscoveredSecret;
  deploymentFiles : list string;
  infrastructureFiles : list string;
  totalSecrets : nat;
  secretsWithGenerator : nat;
}.

(** What the scan reads: the resolved matches of a glob pattern, in
    the order the glob returns them, and the loader of a file. *)
Record FileTree : Type := {
  glob : string -> list string;
  load : string -> option JsVal;
}.

Definition patterns : list string :=
  ["values/deployments/*.yaml"; "values/infrastructure/*.yaml"].

(** [s.generator?.generate] *)
Definition wantsGenerate (s : DiscoveredSecret) : bool :=
  truthy (optProp (generator s) "generate").

Definition scanValuesFiles (ft : FileTree) (optDeployment : option string) : ScanResults :=
  let allFiles := concat (map (glob ft) patterns) in
  let files :=
    match optDeployment with
    | Some d =>
        if String.eqb d "" then allFiles
        else filter (fun f => Str.basename f ".yaml" = d) allFiles
    | None => allFiles
    end in
  let allSecrets := concat (map (parseValuesFile (load ft)) files) in
  {| secrets := allSecrets;
     deploymentFiles := filter (fun f => Str.includes "/deployments/" f = true) files;
     infrastructureFiles := filter (fun f => Str.includes "/infrastructure/" f = true) files;
     totalSecrets := length allSecrets;
     secretsWithGenerator := length (filter (fun s => wantsGenerate s = true) allSecrets) |}.

End Scanner.

(** ** generator.ts: synthesis of secret values *)

Module Generator.
Import Js.

Definition CHARSET_LOWERCASE : string := "abcdefghijklmnopqrstuvwxyz".
Definition CHARSET_UPPERCASE : string := "ABCDEFGHIJKLMNOPQRSTUVWXYZ".
Definition CHARSET_NUMBERS : string := "0123456789".
Definition CHARSET_SPECIAL : string := "!@#$%^&*()-_=+[]{}|;:,.<>?".

(** The bytes [crypto.randomBytes] hands out during one call: byte
    [i] of the buffer is [src i]. *)
Definition RandSrc : Type := nat -> Byte.byte.

Definition maxRandomBytes : Z := 2 ^ 31 - 1.

(** [randomBytes(size)]: [size] has to be a number between 0 and
    2^31 - 1. *)
Definition randomBytes (src : RandSrc) (size : JsVal) : res (list Byte.byte) :=
  match size with
  | JNum z =>
      if (0 <=? z)%Z && (z <=? maxRandomBytes)%Z
      then Ok (map src (seq 0 (Z.to_nat z)))
      else Throw RangeError
  | _ => Throw TypeError
  end.

Record CharsetOptions : Type := {
  lowercase : bool;
  uppercase : bool;
  numbers : bool;
  special : bool;
}.

Definition allSets : CharsetOptions :=
  {| lowercase := true; uppercase := true; numbers := true; special := true |}.

Definition charsetOf (o : CharsetOptions) : string :=
  (if lowercase o then CHARSET_LOWERCASE else "") +:+
  (if uppercase o then CHARSET_UPPERCASE else "") +:+
  (if numbers o then CHARSET_NUMBERS else "") +:+
  (if special o then CHARSET_SPECIAL else "").

(** [s[i]] appended to a string: the character, or the text
    [undefined] past the end. *)
Definition charAt (s : string) (i : nat) : string :=
  match String.get i s with
  | Some c => String c ""
  | None => "undefined"
  end.

Definition pick (charset : string) (b : Byte.byte) : string :=
  charAt charset (N.to_nat (Byte.to_N b) mod String.length charset).

Fixpoint pickAll (charset : string) (buf : list Byte.byte) : string :=
  match buf with
  | [] => ""
  | b :: rest => pick charset b +:+ pickAll charset rest
  end.

Definition generatePassword (src : RandSrc) (len : JsVal) (options : CharsetOptions)
    : res string :=
  let charset := charsetOf options in
  if Nat.eqb (String.length charset) 0
  then Throw (Error "At least one character set must be enabled")
  else
    let* randomBytesBuffer := randomBytes src len in
    Ok (pickAll charset randomBytesBuffer).

Definition generateKey (src : RandSrc) (len : JsVal) : res string :=
  generatePassword src len
    {| lowercase := true; uppercase := true; numbers := true; special := false |}.

Definition hexDigits : string := "0123456789abcdef".

Definition hexByte (b : Byte.byte) : string :=
  let n := N.to_nat (Byte.to_N b) in
  charAt hexDigits (n / 16) +:+ charAt hexDigits (n mod 16).

(** [buf.toString("hex")] *)
Fixpoint toHex (buf : list Byte.byte) : string :=
  match buf with
  | [] => ""
  | b :: rest => hexByte b +:+ toHex rest
  end.

Definition base64Alphabet : string :=
  "ABCDEFGHIJKLMNOPQRSTUVWXYZabcdefghijklmnopqrstuvwxyz0123456789+/".

Definition b64 (n : nat) : string := charAt base64Alphabet (n mod 64).

(** [buf.toString("base64")]: three bytes to four characters, the
    last group padded with [=]. *)
Fixpoint toBase64 (buf : list Byte.byte) : string :=
  let v b := N.to_nat (Byte.to_N b) in
  match buf with
  | [] => ""
  | [a] => b64 (v a / 4) +:+ b64 (v a mod 4 * 16) +:+ "=="
  | [a; b] =>
      b64 (v a / 4) +:+ b64 (v a mod 4 * 16 + v b / 16) +:+ b64 (v b mod 16 * 4) +:+ "="
  | a :: b :: c :: rest =>
      b64 (v a / 4) +:+ b64 (v a mod 4 * 16 + v b / 16) +:+
      b64 (v b mod 16 * 4 + v c / 64) +:+ b64 (v c mod 64) +:+ toBase64 rest
  end.

Definition generateToken (src : RandSrc) (len : JsVal) : res string :=
  let* buf := randomBytes src len in Ok (toHex buf).

Definition generateBase64String (src : RandSrc) (len : JsVal) : res string :=
  let* buf := randomBytes src len in Ok (toBase64 buf).

Definition isStr (o : option JsVal) (s : string) : bool :=
  match o with
  | Some (JStr x) => String.eqb x s
  | _ => false
  end.

Definition generateSecretValue (src : RandSrc) (generator : option JsVal) : res string :=
  let* len0 := prop generator "length" in
  let len := orElse len0 (JNum 32) in
  let* type := prop generator "type" in
  if isStr type "password" then generatePassword src len allSets
  else if isStr type "key" then generateKey src len
  else if isStr type "token" then generateToken src len
  else if isStr type "string" then generateBase64String src len
  else Throw (Error ("Unknown generator type: " +:+ template type)).

End Generator.

(** ** The world outside the process *)

Module World.
Import Js.

Record SecretVersion : Type := {
  payload : string;
  createSeconds : Z;
}.

(** Requests that leave the process. *)
Inductive Call : Type :=
| ApiListSecrets (parent : string)
| ApiGetSecret (name : string)
| ApiListSecretVersions (parent : string) (pageSize : nat)
| ApiCreateSecret (parent secretId : string)
| ApiAddSecretVersion (parent data : string)
| ApiDeleteSecret (name : string)
| KubectlGetExternalSecret (name namespace : string).

Definition mutating (c : Call) : bool :=
  match c with
  | ApiCreateSecret _ _ | ApiAddSecretVersion _ _ | ApiDeleteSecret _ => true
  | _ => false
  end.


(** The backend is a store of secrets by resource name, each with its
    versions, newest first; [denied] is a caller the backend rejects.
    [cluster t] is what [kubectl get externalsecret -o json] prints
    at time [t], parsed ([None]: the command or the parse fails). *)
Record World : Type := {
  backend : gmap string (list SecretVersion);
  denied : bool;
  now : Z;
  cluster : Z -> string -> string -> option JsVal;
  calls : list Call;
}.

Definition M (A : Type) : Type := World -> res A * World.

Definition ret {A} (a : A) : M A := fun w => (Ok a, w).

Definition raise {A} (e : Err) : M A := fun w => (Throw e, w).

Definition bind {A B} (m : M A) (f : A -> M B) : M B :=
  fun w =>
    match m w with
    | (Ok a, w') => f a w'
    | (Throw e, w') => (Throw e, w')
    end.

Definition lift {A} (r : res A) : M A := fun w => (r, w).

(** What [m] came to, as a value: for code that is handed a pending
    promise and looks at its outcome later. *)
Definition attempt {A} (m : M A) : M (res A) :=
  fun w => let (r, w') := m w in (Ok r, w').

(** [try { m } catch (error) { h error }]; [process.exit] is not an
    exception. *)
Definition tryCatch {A} (m : M A) (h : Err -> M A) : M A :=
  fun w =>
    match m w with
    | (Throw (Exit c), w') => (Throw (Exit c), w')
    | (Throw e, w') => h e w'
    | r => r
    end.

Definition record (c : Call) : M unit :=
  fun w =>
    (Ok tt, {| backend := backend w; denied := denied w; now := now w;
               cluster := cluster w; calls := calls w ++ [c] |}).

Definition getWorld : M World := fun w => (Ok w, w).

Definition setBackend (b : gmap string (list SecretVersion)) : M unit :=
  fun w =>
    (Ok tt, {| backend := b; denied := denied w; now := now w;
               cluster := cluster w; calls := calls w |}).

(** [await new Promise(resolve => setTimeout(resolve, ms))] *)
Definition sleep (ms : Z) : M unit :=
  fun w =>
    (Ok tt, {| backend := backend w; denied := denied w; now := (now w + ms)%Z;
               cluster := cluster w; calls := calls w |}).

End World.

#[export] Instance M_ret : MRet World.M := @World.ret.
#[export] Instance M_bind : MBind World.M := fun A B f m => World.bind m f.

(** ** Maps that iterate in insertion order *)

Module OMap.
Section WithKey.
Context {K V : Type} (keq : K -> K -> bool).

Fixpoint get (k : K) (m : list (K * V)) : option V :=
  match m with
  | [] => None
  | (k', v) :: rest => if keq k k' then Some v else get k rest
  end.

(** [m.set(k, v)]: a present key keeps its place. *)
Fixpoint set (k : K) (v : V) (m : list (K * V)) : list (K * V) :=
  match m with
  | [] => [(k, v)]
  | (k', v') :: rest => if keq k k' then (k', v) :: rest else (k', v') :: set k v rest
  end.
End WithKey.
End OMap.

(** ** provider.ts: the client of the remote secret manager *)

Module Provider.
Import Js World.

(** The calls of [SecretManagerServiceClient] that the provider uses. *)
Module Api.

Definition guard : M unit :=
  w ← getWorld;
  if denied w then raise (GrpcError 7) else ret tt.

Definition listSecrets (parent : string) : M unit :=
  record (ApiListSecrets parent);;
  guard.

Definition getSecret (name : string) : M unit :=
  record (ApiGetSecret name);;
  guard;;
  w ← getWorld;
  match backend w !! name with
  | Some _ => ret tt
  | None => raise (GrpcError 5)
  end.

(** One page of at most [pageSize] versions (no automatic paging). *)
Definition listSecretVersions (parent : string) (pageSize : nat) : M (list SecretVersion) :=
  record (ApiListSecretVersions parent pageSize);;
  guard;;
  w ← getWorld;
  match backend w !! parent with
  | Some versions => ret (take pageSize versions)
  | None => raise (GrpcError 5)
  end.

(** Returns the name of the secret created. *)
Definition createSecret (parent secretId : string) : M string :=
  record (ApiCreateSecret parent secretId);;
  guard;;
  w ← getWorld;
  let name := parent +:+ "/secrets/" +:+ secretId in
  match backend w !! name with
  | Some _ => raise (GrpcError 6)
  | None => setBackend (<[name := []]> (backend w));; ret name
  end.

Definition addSecretVersion (parent data : string) : M unit :=
  record (ApiAddSecretVersion parent data);;
  guard;;
  w ← getWorld;
  match backend w !! parent with
  | Some versions =>
      setBackend
        (<[parent := {| payload := data; createSeconds := (now w / 1000)%Z |} :: versions]>
           (backend w))
  | None => raise (GrpcError 5)
  end.

Definition deleteSecret (name : string) : M unit :=
  record (ApiDeleteSecret name);;
  guard;;
  w ← getWorld;
  match backend w !! name with
  | Some _ => setBackend (delete name (backend w))
  | None => raise (GrpcError 5)
  end.

End Api.

Record SecretStatus : Type := {
  remoteKey : option JsVal;
  exists_ : bool;
  lastUpdated : option Z;
  versionCount : option nat;
}.

Definition isCode (e : Err) (c : Z) : bool :=
  match e with
  | GrpcError c' => Z.eqb c c'
  | _ => false
  end.

Section WithProject.
Variable projectId : string.

Definition parentName : string := "projects/" +:+ projectId.

Definition secretName (remoteKey : option JsVal) : string :=
  "projects/" +:+ projectId +:+ "/secrets/" +:+ template remoteKey.

Definition initialize : M unit :=
  tryCatch
    (Api.listSecrets parentName)
    (fun error =>
       if isCode error 7
       then raise (Error ("Permission denied accessing project " +:+ projectId))
       else raise error).

Definition secretExists (remoteKey : option JsVal) : M bool :=
  tryCatch
    (Api.getSecret (secretName remoteKey);; ret true)
    (fun error => if isCode error 5 then ret false else raise error).

Definition getSecretStatus (remoteKey : option JsVal) : M SecretStatus :=
  tryCatch
    (let name := secretName remoteKey in
     Api.getSecret name;;
     versions ← Api.listSecretVersions name 1;
     let lastUpdated :=
       match head versions with
       | Some lastVersion => Some (createSeconds lastVersion * 1000)%Z
       | None => None
       end in
     ret {| remoteKey := remoteKey; exists_ := true; lastUpdated := lastUpdated;
            versionCount := Some (length versions) |})
    (fun error =>
       if isCode error 5
       then ret {| remoteKey := remoteKey; exists_ := false;
                   lastUpdated := None; versionCount := None |}
       else raise error).

Definition CONCURRENCY : nat := 10.

(** [getSecretStatus] from the point where its [getSecret] request
    has been answered. *)
Definition statusAfterGet (remoteKey : option JsVal) (answer : res unit) : M SecretStatus :=
  tryCatch
    (let name := secretName remoteKey in
     lift answer;;
     versions ← Api.listSecretVersions name 1;
     let lastUpdated :=
       match head versions with
       | Some lastVersion => Some (createSeconds lastVersion * 1000)%Z
       | None => None
       end in
     ret {| remoteKey := remoteKey; exists_ := true; lastUpdated := lastUpdated;
            versionCount := Some (length versions) |})
    (fun error =>
       if isCode error 5
       then ret {| remoteKey := remoteKey; exists_ := false;
                   lastUpdated := None; versionCount := None |}
       else raise error).

(** [batch.map((key) => this.getSecretStatus(key))]: every call runs
    up to its first [await], so the [getSecret] requests of the
    batch go out first, in the order of the keys. *)
Fixpoint startAll (batch : list (option JsVal)) : M (list (option JsVal * res unit)) :=
  match batch with
  | [] => ret []
  | key :: rest =>
      answer ← attempt (Api.getSecret (secretName key));
      answers ← startAll rest;
      ret ((key, answer) :: answers)
  end.

(** The calls go on as their requests are answered; the answers are
    taken to come in the order of the requests. *)
Fixpoint settleAll (started : list (option JsVal * res unit))
    : M (list (res SecretStatus)) :=
  match started with
  | [] => ret []
  | (key, answer) :: rest =>
      outcome ← attempt (statusAfterGet key answer);
      outcomes ← settleAll rest;
      ret (outcome :: outcomes)
  end.

(** [Promise.all]: the values when every promise is fulfilled, a
    rejection otherwise (the other promises still run). *)
Fixpoint allOf {A} (outcomes : list (res A)) : res (list A) :=
  match outcomes with
  | [] => Ok []
  | Ok a :: rest => let* l := allOf rest in Ok (a :: l)
  | Throw e :: _ => Throw e
  end.

(** One batch: [await Promise.all(batch.map(...))]. *)
Definition statusesOf (batch : list (option JsVal)) : M (list SecretStatus) :=
  started ← startAll batch;
  outcomes ← settleAll started;
  lift (allOf outcomes).

Definition setAll (statuses : list SecretStatus)
    (results : list (option JsVal * SecretStatus)) : list (option JsVal * SecretStatus) :=
  fold_left (fun acc status => OMap.set keyEqb (remoteKey status) status acc) statuses results.

Fixpoint checkLoop (fuel : nat) (remoteKeys : list (option JsVal))
    (results : list (option JsVal * SecretStatus))
    : M (list (option JsVal * SecretStatus)) :=
  match fuel, remoteKeys with
  | _, [] => ret results
  | O, _ => ret results
  | S fuel', _ =>
      statuses ← statusesOf (take CONCURRENCY remoteKeys);
      checkLoop fuel' (drop CONCURRENCY remoteKeys) (setAll statuses results)
  end.

Definition checkSecrets (remoteKeys : list (option JsVal))
    : M (list (option JsVal * SecretStatus)) :=
  checkLoop (length remoteKeys) remoteKeys [].

(** The [secretId] of the request is the key itself: the client
    writes a value as a string, and leaves the field empty for
    [undefined] and [null]. *)
Definition secretIdField (remoteKey : option JsVal) : string :=
  match remoteKey with
  | None | Some JNull => ""
  | Some v => toStr v
  end.

Definition createSecret (remoteKey : option JsVal) (value : string) : M unit :=
  name ← Api.createSecret parentName (secretIdField remoteKey);
  Api.addSecretVersion name value.

Definition updateSecret (remoteKey : option JsVal) (value : string) : M unit :=
  Api.addSecretVersion (secretName remoteKey) value.

(** Returns [created]. *)
Definition upsertSecret (remoteKey : option JsVal) (value : string) : M bool :=
  exists_ ← secretExists remoteKey;
  if exists_ : bool
  then updateSecret remoteKey value;; ret false
  else createSecret remoteKey value;; ret true.

Definition deleteSecret (remoteKey : option JsVal) : M unit :=
  Api.deleteSecret (secretName remoteKey).

End WithProject.

End Provider.

(** ** validator.ts: status of the ExternalSecret objects in the cluster *)

Module Validator.
Import Js World.

Record Condition : Type := {
  type : option JsVal;
  status : option JsVal;
  reason : option JsVal;
  message : option JsVal;
}.

Record ExternalSecretStatus : Type := {
  name : string;
  namespace : string;
  exists_ : bool;
  synced : bool;
  ready : bool;
  secretCreated : bool;
  lastSyncTime : option JsVal;
  errorMessage : option JsVal;
  conditions : option (list Condition);
}.

Definition isStr (o : option JsVal) (s : string) : bool :=
  match o with
  | Some (JStr x) => String.eqb x s
  | _ => false
  end.

(** [conditions.find((c) => c.type === t)] *)
Fixpoint findType (t : string) (cs : list JsVal) : res (option JsVal) :=
  match cs with
  | [] => Ok None
  | c :: rest =>
      let* ty := prop (Some c) "type" in
      if isStr ty t then Ok (Some c) else findType t rest
  end.

Fixpoint mapConditions (cs : list JsVal) : res (list Condition) :=
  match cs with
  | [] => Ok []
  | c :: rest =>
      let* ty := prop (Some c) "type" in
      let* st := prop (Some c) "status" in
      let* re := prop (Some c) "reason" in
      let* me := prop (Some c) "message" in
      let* tl := mapConditions rest in
      Ok ({| type := ty; status := st; reason := re; message := me |} :: tl)
  end.

Definition notFound (name namespace : string) : ExternalSecretStatus :=
  {| name := name; namespace := namespace; exists_ := false; synced := false;
     ready := false; secretCreated := false; lastSyncTime := None;
     errorMessage := Some (JStr "ExternalSecret not found"); conditions := None |}.

(** The body of the inner [try], after [JSON.parse]. *)
Definition statusOfObject (name namespace : string) (externalSecret : JsVal)
    : res ExternalSecretStatus :=
  let* status0 := prop (Some externalSecret) "status" in
  let status := orElse status0 (JObj []) in
  let conditions := orElse (propV status "conditions") (JArr []) in
  match conditions with
  | JArr items =>
      let* readyCondition := findType "Ready" items in
      let ready := isStr (optProp readyCondition "status") "True" in
      let* syncedCondition := findType "SecretSynced" items in
      let synced := isStr (optProp syncedCondition "status") "True" in
      let lastSyncTime :=
        if truthy (propV status "syncedTime") then propV status "syncedTime" else None in
      let secretCreated := truthy (optProp (propV status "binding") "name") in
      let errorMessage :=
        if negb ready && truthy (optProp readyCondition "message")
        then optProp readyCondition "message"
        else if negb synced && truthy (optProp syncedCondition "message")
        then optProp syncedCondition "message"
        else None in
      let* conds := mapConditions items in
      Ok {| name := name; namespace := namespace; exists_ := true; synced := synced;
            ready := ready; secretCreated := secretCreated; lastSyncTime := lastSyncTime;
            errorMessage := errorMessage; conditions := Some conds |}
  | _ => Throw TypeError
  end.

(** What [getExternalSecretStatus] makes of the output of kubectl. *)
Definition statusOfOutput (name namespace : string) (output : option JsVal)
    : ExternalSecretStatus :=
  match output with
  | None => notFound name namespace
  | Some externalSecret =>
      match statusOfObject name namespace externalSecret with
      | Ok st => st
      | Throw _ => notFound name namespace
      end
  end.

Definition getExternalSecretStatus (name namespace : string) : M ExternalSecretStatus :=
  record (KubectlGetExternalSecret name namespace);;
  w ← getWorld;
  ret (statusOfOutput name namespace (cluster w (now w) name namespace)).

Module Dep.
Record DeploymentValidationResult : Type := {
  deployment : string;
  namespace : string;
  externalSecrets : list ExternalSecretStatus;
  allSynced : bool;
  allReady : bool;
  errorCount : nat;
}.
End Dep.

Record ValidationResult : Type := {
  success : bool;
  deployments : list Dep.DeploymentValidationResult;
  totalExternalSecrets : nat;
  syncedCount : nat;
  readyCount : nat;
  errorCount : nat;
}.

(** [`${secret.deployment}:${secret.namespace || "default"}`] *)
Definition groupKey (secret : Scanner.DiscoveredSecret) : string :=
  Scanner.deployment secret +:+ ":" +:+
  toStr (orElse (Scanner.namespace secret) (JStr "default")).

Definition addToGroup (grouped : list (string * list Scanner.DiscoveredSecret))
    (secret : Scanner.DiscoveredSecret) : list (string * list Scanner.DiscoveredSecret) :=
  let key := groupKey secret in
  let existing := default [] (OMap.get String.eqb key grouped) in
  OMap.set String.eqb key (existing ++ [secret]) grouped.

Definition groupSecrets (secrets : list Scanner.DiscoveredSecret)
    : list (string * list Scanner.DiscoveredSecret) :=
  fold_left addToGroup secrets [].

Fixpoint groupStatuses (namespace : string) (secretGroup : list Scanner.DiscoveredSecret)
    : M (list ExternalSecretStatus) :=
  match secretGroup with
  | [] => ret []
  | secret :: rest =>
      let externalSecretName := Scanner.chart secret +:+ "-credentials" in
      status ← getExternalSecretStatus externalSecretName namespace;
      statuses ← groupStatuses namespace rest;
      ret (status :: statuses)
  end.

Definition countIf {A} (p : A -> bool) (l : list A) : nat :=
  length (List.filter p l).

(** [const [deployment, namespace] = key.split(":")]; the key holds a
    colon, so both exist. *)
Definition keyDeployment (key : string) : string := nth 0 (Str.split ":" key) "undefined".
Definition keyNamespace (key : string) : string := nth 1 (Str.split ":" key) "undefined".

Definition deploymentResult (key : string) (statuses : list ExternalSecretStatus)
    : Dep.DeploymentValidationResult :=
  {| Dep.deployment := keyDeployment key;
     Dep.namespace := keyNamespace key;
     Dep.externalSecrets := statuses;
     Dep.allSynced := forallb synced statuses;
     Dep.allReady := forallb ready statuses;
     Dep.errorCount := countIf (fun s => negb (ready s)) statuses |}.

Fixpoint validateGroups (groups : list (string * list Scanner.DiscoveredSecret))
    (deploymentResults : list (string * Dep.DeploymentValidationResult))
    : M (list (string * Dep.DeploymentValidationResult)) :=
  match groups with
  | [] => ret deploymentResults
  | (key, secretGroup) :: rest =>
      externalSecretStatuses ← groupStatuses (keyNamespace key) secretGroup;
      validateGroups rest
        (OMap.set String.eqb (keyDeployment key)
           (deploymentResult key externalSecretStatuses) deploymentResults)
  end.

Definition sumOver {A} (f : A -> nat) (l : list A) : nat :=
  fold_left (fun sum d => sum + f d) l 0.

Definition summarize (deployments : list Dep.DeploymentValidationResult) : ValidationResult :=
  let totalExternalSecrets := sumOver (fun d => length (Dep.externalSecrets d)) deployments in
  let syncedCount := sumOver (fun d => countIf synced (Dep.externalSecrets d)) deployments in
  let readyCount := sumOver (fun d => countIf ready (Dep.externalSecrets d)) deployments in
  let errorCount := sumOver Dep.errorCount deployments in
  {| success := Nat.eqb errorCount 0 && Nat.eqb syncedCount totalExternalSecrets;
     deployments := deployments;
     totalExternalSecrets := totalExternalSecrets;
     syncedCount := syncedCount;
     readyCount := readyCount;
     errorCount := errorCount |}.

Definition validateExternalSecrets (secrets : list Scanner.DiscoveredSecret)
    : M ValidationResult :=
  deploymentResults ← validateGroups (groupSecrets secrets) [];
  ret (summarize (map snd deploymentResults)).

Record WaitResult : Type := {
  w_synced : bool;
  w_ready : bool;
  w_error : option JsVal;
}.

Definition pollInterval : Z := 2000.

Definition timedOut : WaitResult :=
  {| w_synced := false; w_ready := false;
     w_error := Some (JStr "Timeout waiting for ExternalSecret to sync") |}.

(** The [while] loop; [fuel] bounds the number of times its guard is
    evaluated, [None] when that bound is hit. *)
Fixpoint waitLoop (fuel : nat) (name namespace : string) (startTime timeoutMs : Z)
    : M (option WaitResult) :=
  match fuel with
  | O => ret None
  | S fuel' =>
      w ← getWorld;
      if (now w - startTime <? timeoutMs)%Z then
        status ← getExternalSecretStatus name namespace;
        if ready status && synced status then
          ret (Some {| w_synced := true; w_ready := true; w_error := None |})
        else if truthy (errorMessage status) then
          ret (Some {| w_synced := false; w_ready := false;
                       w_error := errorMessage status |})
        else
          sleep pollInterval;;
          waitLoop fuel' name namespace startTime timeoutMs
      else ret (Some timedOut)
  end.

Definition waitFuel (timeoutMs : Z) : nat := Z.to_nat (timeoutMs / pollInterval) + 2.

Definition waitForExternalSecretSync (name namespace : string) (timeoutMs : option Z)
    : M (option WaitResult) :=
  let timeoutMs := default 60000%Z timeoutMs in
  w ← getWorld;
  let startTime := now w in
  waitLoop (waitFuel timeoutMs) name namespace startTime timeoutMs.

End Validator.

(** ** secrets.ts: the commands *)

Module Cli.
Import Js World.

(** The command line, the files, and what the operator and the
    machine answer when asked. *)
Record Env : Type := {
  optDeployment : option string;
  optProject : option string;
  dryRun : bool;
  yes : bool;
  files : Scanner.FileTree;
(** [readClusterSecretStoreFromValues()] yields a project id *)
storeConfigured : bool;
(** [detectGCPProjectId(kubeconfigPath)] *)
detectedProject : option string;
(** answer to the project prompt *)
promptedProject : string;
(** answer to the confirmation prompt *)
confirmed : bool;
(** answer to the password prompt for a secret *)
promptPassword : Scanner.DiscoveredSecret -> string;
(** the random bytes of the i-th call of the generator *)
random : nat -> Generator.RandSrc;
}.

Definition nonEmpty (o : option string) : option string :=
  match o with
  | Some s => if String.eqb s "" then None else Some s
  | None => None
  end.

(** [values.project || await detectGCPProjectId(...)], then the prompt *)
Definition resolveProject (env : Env) : string :=
  match nonEmpty (optProject env) with
  | Some p => p
  | None =>
      match nonEmpty (detectedProject env) with
      | Some p => p
      | None => promptedProject env
      end
  end.

Definition discoverCommand (env : Env) : M unit :=
  let results := Scanner.scanValuesFiles (files env) (optDeployment env) in
  if Nat.eqb (Scanner.totalSecrets results) 0 then ret tt
  else ret tt.

(** [try { await provider.initialize() } catch { process.exit(1) }] *)
Definition initializeOrExit (projectId : string) : M unit :=
  tryCatch (Provider.initialize projectId) (fun _ => raise (Exit 1)).

Definition statusExists (statuses : list (option JsVal * Provider.SecretStatus))
    (key : option JsVal) : bool :=
  match OMap.get keyEqb key statuses with
  | Some status => Provider.exists_ status
  | None => false
  end.

Definition checkCommand (env : Env) : M unit :=
  if negb (storeConfigured env) then raise (Exit 1)
  else
    let projectId := resolveProject env in
    let results := Scanner.scanValuesFiles (files env) (optDeployment env) in
    if Nat.eqb (Scanner.totalSecrets results) 0 then ret tt
    else
      (if negb (dryRun env) then initializeOrExit projectId else ret tt);;
      let remoteKeys := map Scanner.remoteKey (Scanner.secrets results) in
      statuses ← (if dryRun env then ret [] else Provider.checkSecrets projectId remoteKeys);
      ret tt.

(** The loop over [autoGenerate]; [i] counts the calls of the generator. *)
Fixpoint generateAll (env : Env) (i : nat) (autoGenerate : list Scanner.DiscoveredSecret)
    (secretValues : list (option JsVal * string)) : res (list (option JsVal * string)) :=
  match autoGenerate with
  | [] => Ok secretValues
  | secret :: rest =>
      if truthy (Scanner.generator secret) then
        let* value := Generator.generateSecretValue (random env i) (Scanner.generator secret) in
        generateAll env (S i) rest (OMap.set keyEqb (Scanner.remoteKey secret) value secretValues)
      else generateAll env i rest secretValues
  end.

Definition promptAll (env : Env) (manualInput : list Scanner.DiscoveredSecret)
    (secretValues : list (option JsVal * string)) : list (option JsVal * string) :=
  fold_left
    (fun acc secret => OMap.set keyEqb (Scanner.remoteKey secret) (promptPassword env secret) acc)
    manualInput secretValues.

(** The loop that creates the secrets; returns [created]. *)
Fixpoint createAll (projectId : string) (entries : list (option JsVal * string))
    (created : nat) : M nat :=
  match entries with
  | [] => ret created
  | (remoteKey, value) :: rest =>
      created' ← tryCatch
                   (Provider.createSecret projectId remoteKey value;; ret (S created))
                   (fun _ => ret created);
      createAll projectId rest created'
  end.

Definition missingOf (statuses : list (option JsVal * Provider.SecretStatus))
    (secrets : list Scanner.DiscoveredSecret) : list Scanner.DiscoveredSecret :=
  List.filter (fun s => negb (statusExists statuses (Scanner.remoteKey s))) secrets.

Definition generateCommand (env : Env) : M unit :=
  if negb (storeConfigured env) then raise (Exit 1)
  else
    let projectId := resolveProject env in
    let results := Scanner.scanValuesFiles (files env) (optDeployment env) in
    if Nat.eqb (Scanner.totalSecrets results) 0 then ret tt
    else
      (if negb (dryRun env) then initializeOrExit projectId else ret tt);;
      let remoteKeys := map Scanner.remoteKey (Scanner.secrets results) in
      statuses ← (if dryRun env then ret [] else Provider.checkSecrets projectId remoteKeys);
      let missing := missingOf statuses (Scanner.secrets results) in
      if Nat.eqb (length missing) 0 then ret tt
      else
        let autoGenerate := List.filter Scanner.wantsGenerate missing in
        let manualInput := List.filter (fun s => negb (Scanner.wantsGenerate s)) missing in
        if negb (yes env) && negb (dryRun env) && negb (confirmed env) then ret tt
        else if dryRun env then ret tt
        else
          secretValues ← lift (generateAll env 0 autoGenerate []);
          let secretValues := promptAll env manualInput secretValues in
          created ← createAll projectId secretValues 0;
          ret tt.

Definition validateCommand (env : Env) : M unit :=
  let results := Scanner.scanValuesFiles (files env) (optDeployment env) in
  if Nat.eqb (Scanner.totalSecrets results) 0 then ret tt
  else
    validation ← Validator.validateExternalSecrets (Scanner.secrets results);
    if Validator.success validation then ret tt else raise (Exit 1).

Definition syncCommand (env : Env) : M unit :=
  discoverCommand env;;
  checkCommand env;;
  generateCommand env;;
  if negb (dryRun env) then validateCommand env else ret tt.

End Cli.

(** ** scanner.ts: grouping and filtering of the discovered secrets *)

Module ScannerUtil.
Import Js Scanner.

(** The loop of [groupByDeployment] and [groupByChart], which differ
    in the key only: [grouped.get(key) || []], push, [grouped.set]. *)
Definition addTo (key : DiscoveredSecret -> string)
    (grouped : list (string * list DiscoveredSecret)) (secret : DiscoveredSecret)
    : list (string * list DiscoveredSecret) :=
  let existing := default [] (OMap.get String.eqb (key secret) grouped) in
  OMap.set String.eqb (key secret) (existing ++ [secret]) grouped.

Definition groupByDeployment (secrets : list DiscoveredSecret)
    : list (string * list DiscoveredSecret) :=
  fold_left (addTo deployment) secrets [].

Definition groupByChart (secrets : list DiscoveredSecret)
    : list (string * list DiscoveredSecret) :=
  fold_left (addTo chart) secrets [].

(** [v === true] *)
Definition isTrue (o : option JsVal) : bool :=
  match o with
  | Some (JBool true) => true
  | _ => false
  end.

Definition filterGeneratable (secrets : list DiscoveredSecret) : list DiscoveredSecret :=
  List.filter (fun s => isTrue (optProp (generator s) "generate")) secrets.


End ScannerUtil.

(** ** generator.ts: the other generators, strength and description *)

Module GeneratorUtil.
Import Js Generator.

(** [s.replace(/x/g, y)] for a one-character pattern; [y] may be empty. *)
Fixpoint replaceAll (x : ascii) (y : string) (s : string) : string :=
  match s with
  | EmptyString => EmptyString
  | String c rest =>
      if Ascii.eqb c x then y +:+ replaceAll x y rest
      else String c (replaceAll x y rest)
  end.

Definition generateUrlSafeString (src : RandSrc) (len : JsVal) : res string :=
  let* buf := randomBytes src len in
  Ok (replaceAll "=" "" (replaceAll "/" "_" (replaceAll "+" "-" (toBase64 buf)))).

Definition inRange (lo hi c : ascii) : bool :=
  Nat.leb (nat_of_ascii lo) (nat_of_ascii c) && Nat.leb (nat_of_ascii c) (nat_of_ascii hi).

Fixpoint anyChar (p : ascii -> bool) (s : string) : bool :=
  match s with
  | EmptyString => false
  | String c rest => p c || anyChar p rest
  end.

(** The characters of the class of the last test of
    [validatePasswordStrength] (34 is the double quote). *)
Definition specialClass : string :=
  "!@#$%^&*()_+-=[]{};':" +:+ String (ascii_of_nat 34) "\|,.<>/?".

Definition isSpecial (c : ascii) : bool :=
  anyChar (Ascii.eqb c) specialClass.

Definition hasLower (password : string) : bool := anyChar (inRange "a" "z") password.
Definition hasUpper (password : string) : bool := anyChar (inRange "A" "Z") password.
Definition hasDigit (password : string) : bool := anyChar (inRange "0" "9") password.
Definition hasSpecial (password : string) : bool := anyChar isSpecial password.

Record Strength : Type := {
  valid : bool;
  score : nat;
  feedback : list string;
}.

Definition bump (b : bool) (score : nat) : nat := if b then S score else score.

Definition note (b : bool) (text : string) : list string := if b then [text] else [].

(** The score before it is normalized. *)
Definition rawScore (password : string) : nat :=
  let n := String.length password in
  bump (hasSpecial password)
    (bump (hasDigit password)
       (bump (hasUpper password)
          (bump (hasLower password)
             (bump (Nat.leb 32 n) (bump (Nat.leb 24 n) (bump (Nat.leb 16 n) 0)))))).

Definition validatePasswordStrength (password : string) : Strength :=
  let normalizedScore := Nat.min (rawScore password / 2) 4 in
  {| valid := Nat.leb 3 normalizedScore;
     score := normalizedScore;
     feedback :=
       note (Nat.ltb (String.length password) 16) "Password should be at least 16 characters" ++
       note (negb (hasLower password)) "Add lowercase letters" ++
       note (negb (hasUpper password)) "Add uppercase letters" ++
       note (negb (hasDigit password)) "Add numbers" ++
       note (negb (hasSpecial password)) "Add special characters" |}.

Definition getRecommendedLength (type : option JsVal) : Z :=
  if isStr type "password" then 32
  else if isStr type "key" then 32
  else if isStr type "token" then 32
  else if isStr type "string" then 24
  else 32.

Definition formatOf (type : option JsVal) : string :=
  if isStr type "password" then "alphanumeric + special chars"
  else if isStr type "key" then "alphanumeric only"
  else if isStr type "token" then "hex encoded"
  else if isStr type "string" then "base64 encoded"
  else "".

Definition formatSecretDescription (generator : option JsVal) : res string :=
  let* type := prop generator "type" in
  let* len0 := prop generator "length" in
  let len := orElse len0 (JNum (getRecommendedLength type)) in
  let* description0 := prop generator "description" in
  let description := orElse description0 (JStr (template type +:+ " secret")) in
  Ok (toStr description +:+ " (" +:+ template type +:+ ", " +:+ toStr len +:+ " chars, " +:+
      formatOf type +:+ ")").

End GeneratorUtil.


(** ** Sample inputs *)

Module Samples.
Import Js.

Definition shapeA_disabled : JsVal :=
  JObj [("enabled", JBool false); ("remoteKey", JStr "env-db-password")].

Definition shapeB_null_entry : JsVal :=
  JObj [("enabled", JBool true); ("secrets", JArr [JNull])].

Definition shapeA_block : JsVal :=
  JObj [("enabled", JBool true); ("remoteKey", JStr "env-db-password");
        ("secrets", JArr [JObj [("remoteKey", JStr "ignored")]])].

Definition chartWith (block : JsVal) : option JsVal :=
  Some (JObj [("externalSecrets", block)]).

(** Two deployments and one infrastructure chart; the second
    deployment file does not parse. *)
Definition acmeValues : JsVal :=
  JObj [("global", JObj [("domain", JStr "acme.test")]);
        ("postgresql",
          JObj [("externalSecrets",
                  JObj [("enabled", JBool true);
                        ("remoteKey", JStr "acme-db-password");
                        ("generator", JObj [("generate", JBool true);
                                            ("type", JStr "password");
                                            ("length", JNum 8)])])]);
        ("api", JObj [("namespace", JStr "acme");
                      ("externalSecrets",
                        JObj [("enabled", JBool true);
                              ("secretStore", JStr "aws-store");
                              ("secrets", JArr [JObj [("remoteKey", JStr "acme-api-jwt")];
                                                JObj [("remoteKey", JStr "acme-api-key")]])])])].

Definition dnsValues : JsVal :=
  JObj [("externalSecrets",
          JObj [("enabled", JBool true); ("remoteKey", JStr "dns-token")])].

Definition tree : Scanner.FileTree :=
  {| Scanner.glob := fun pattern =>
       if String.eqb pattern "values/deployments/*.yaml"
       then ["/repo/values/deployments/acme-staging.yaml";
             "/repo/values/deployments/broken.yaml"]
       else if String.eqb pattern "values/infrastructure/*.yaml"
       then ["/repo/values/infrastructure/external-dns.yaml"]
       else [];
     Scanner.load := fun path =>
       if String.eqb path "/repo/values/deployments/acme-staging.yaml" then Some acmeValues
       else if String.eqb path "/repo/values/infrastructure/external-dns.yaml" then Some dnsValues
       else None |}.

Definition generatorOf (kind : string) (len : Z) : option JsVal :=
  Some (JObj [("generate", JBool true); ("type", JStr kind); ("length", JNum len)]).

Definition zeros : Generator.RandSrc := fun _ => Byte.x00.

(** An empty backend that accepts the caller, and an empty cluster. *)
Definition emptyWorld : World.World :=
  {| World.backend := ∅; World.denied := false; World.now := 0;
     World.cluster := fun _ _ _ => None; World.calls := [] |}.

(** A backend that rejects the caller. *)
Definition deniedWorld : World.World :=
  {| World.backend := ∅; World.denied := true; World.now := 0;
     World.cluster := fun _ _ _ => None; World.calls := [] |}.

Definition dbKey : option JsVal := Some (JStr "env-db-password").

(** A backend that already holds one version of [dbKey]. *)
Definition worldWithDb : World.World :=
  {| World.backend :=
       {[ "projects/monobase-prod/secrets/env-db-password" :=
            [{| World.payload := "old"; World.createSeconds := 0 |}] ]};
     World.denied := false; World.now := 0;
     World.cluster := fun _ _ _ => None; World.calls := [] |}.

Definition env (dry : bool) : Cli.Env :=
  {| Cli.optDeployment := Some "acme-staging";
     Cli.optProject := Some "monobase-prod";
     Cli.dryRun := dry;
     Cli.yes := true;
     Cli.files := tree;
     Cli.storeConfigured := true;
     Cli.detectedProject := None;
     Cli.promptedProject := "";
     Cli.confirmed := true;
     Cli.promptPassword := fun _ => "typed-by-hand";
     Cli.random := fun _ => zeros |}.

(** An ExternalSecret whose Ready condition is False with a message. *)
Definition failingObject : JsVal :=
  JObj [("status",
          JObj [("conditions",
                  JArr [JObj [("type", JStr "Ready"); ("status", JStr "False");
                              ("reason", JStr "SecretSyncedError");
                              ("message", JStr "could not get secret data from provider")]])])].

(** An ExternalSecret that is ready and synced. *)
Definition convergedObject : JsVal :=
  JObj [("status",
          JObj [("conditions",
                  JArr [JObj [("type", JStr "SecretSynced"); ("status", JStr "True")];
                        JObj [("type", JStr "Ready"); ("status", JStr "True");
                              ("message", JStr "Secret was synced")]])])].

(** An ExternalSecret that reports no condition yet. *)
Definition pendingObject : JsVal :=
  JObj [("status", JObj [("conditions", JArr [])])].

(** A cluster whose object is pending before the time [t0] and ready
    and synced from then on. *)
Definition worldConvergingAt (t0 : Z) : World.World :=
  {| World.backend := ∅; World.denied := false; World.now := 0;
     World.cluster := fun t name namespace =>
       if String.eqb name "db-credentials" && String.eqb namespace "default"
       then Some (if (t <? t0)%Z then pendingObject else convergedObject)
       else None;
     World.calls := [] |}.

Definition worldShowing (object : JsVal) : World.World :=
  {| World.backend := ∅; World.denied := false; World.now := 0;
     World.cluster := fun _ name namespace =>
       if String.eqb name "db-credentials" && String.eqb namespace "default"
       then Some object else None;
     World.calls := [] |}.

Definition acmeSecret (chart key : string) (ns : option JsVal) : Scanner.DiscoveredSecret :=
  {| Scanner.sourceFile := "/repo/values/deployments/acme-staging.yaml";
     Scanner.deployment := "acme-staging"; Scanner.chart := chart;
     Scanner.environment := Some "staging"; Scanner.remoteKey := Some (JStr key);
     Scanner.generator := None; Scanner.secretStore := JStr "gcp-secretstore";
     Scanner.refreshInterval := JStr "1h"; Scanner.namespace := ns |}.


(** The values that the generate stage stores for the sample tree:
    the password of the generator over [zeros], and what the operator
    types for the two keys without a generator. *)
Definition storedValues : list (option JsVal * string) :=
  [(Some (JStr "acme-db-password"), "aaaaaaaa");
   (Some (JStr "acme-api-jwt"), "typed-by-hand");
   (Some (JStr "acme-api-key"), "typed-by-hand")].

End Samples.

(** ** Vocabulary of the statements *)

Module Vocab.
Import Js World.

(** The file tree without one of its files. *)
Definition without (bad : string) (ft : Scanner.FileTree) : Scanner.FileTree :=
  {| Scanner.glob := fun pattern => filter (fun f => f <> bad) (Scanner.glob ft pattern);
     Scanner.load := Scanner.load ft |}.

(** The files a scan parses: the matches, narrowed to a deployment. *)
Definition selected (optDeployment : option string) (allFiles : list string) : list string :=
  match optDeployment with
  | Some d =>
      if String.eqb d "" then allFiles
      else filter (fun f => Str.basename f ".yaml" = d) allFiles
  | None => allFiles
  end.

(** Every character of [s] occurs in [charset]. *)
Definition charsIn (charset s : string) : Prop :=
  Forall (fun c => In c (list_ascii_of_string charset)) (list_ascii_of_string s).

Definition base64Chars : string := Generator.base64Alphabet +:+ "=".

(** The length [generateSecretValue] works with. *)
Definition lengthUsed (generator : JsVal) : JsVal :=
  orElse (propV generator "length") (JNum 32).

(** The world after some calls, with a new content of the backend. *)
Definition after (w : World) (b : gmap string (list SecretVersion)) (cs : list Call) : World :=
  {| backend := b; denied := denied w; now := now w; cluster := cluster w;
     calls := calls w ++ cs |}.

Definition versionOf (w : World) (value : string) : SecretVersion :=
  {| payload := value; createSeconds := (now w / 1000)%Z |}.

(** [m] appends to the log of requests a list that satisfies [P]. *)
Definition emits {A} (m : M A) (P : list Call -> Prop) : Prop :=
  forall w, exists cs, calls (snd (m w)) = calls w ++ cs /\ P cs.

Definition reads (cs : list Call) : Prop := Forall (fun c => mutating c = false) cs.

(** A key that is neither [undefined] nor [null]. *)
Definition definedKey (k : option JsVal) : Prop := k <> None /\ k <> Some JNull.

(** The name of the secret that [createSecret] creates for a key. *)
Definition createdName (projectId : string) (k : option JsVal) : string :=
  Provider.parentName projectId +:+ "/secrets/" +:+ Provider.secretIdField k.

(** The requests of one [createSecret]: the creation, and the first
    version when the creation went through. *)
Definition blockOf (projectId : string) (entry : option JsVal * string) (created : bool)
    : list Call :=
  ApiCreateSecret (Provider.parentName projectId) (Provider.secretIdField entry.1) ::
  (if created
   then [ApiAddSecretVersion (createdName projectId entry.1) entry.2]
   else []).

(** Requests of the loop that creates the secrets: one block per
    entry of [secretValues], in order. *)
Definition writes (projectId : string) (cs : list Call) : Prop :=
  exists (entries : list (option JsVal * string)) (oks : list bool),
    length oks = length entries /\
    cs = concat (zip_with (blockOf projectId) entries oks).

(** Requests of the generate stage: reads, then the blocks. *)
Definition stage (projectId : string) (cs : list Call) : Prop :=
  exists rs ws, cs = rs ++ ws /\ reads rs /\ writes projectId ws.

(** What one poll of the wait loop makes of a status: converged, an
    error to report, or nothing yet. *)
Definition settle (st : Validator.ExternalSecretStatus) : option Validator.WaitResult :=
  if Validator.ready st && Validator.synced st then
    Some {| Validator.w_synced := true; Validator.w_ready := true; Validator.w_error := None |}
  else if truthy (Validator.errorMessage st) then
    Some {| Validator.w_synced := false; Validator.w_ready := false;
            Validator.w_error := Validator.errorMessage st |}
  else None.

(** The status of an object as the cluster shows it at time [t]. *)
Definition observedAt (w : World) (t : Z) (name namespace : string)
    : Validator.ExternalSecretStatus :=
  Validator.statusOfOutput name namespace (cluster w t name namespace).

(** The world after one poll of the cluster. *)
Definition polled (w : World) (name namespace : string) : World :=
  after w (backend w) [KubectlGetExternalSecret name namespace].

(** The world after a sleep. *)
Definition slept (w : World) (ms : Z) : World :=
  {| backend := backend w; denied := denied w; now := (now w + ms)%Z;
     cluster := cluster w; calls := calls w |}.

(** Enough fuel for the guards of the wait loop that remain. *)
Definition enough (fuel : nat) (startTime timeoutMs : Z) (w : World) : Prop :=
  (timeoutMs - (now w - startTime) <= Validator.pollInterval * (Z.of_nat fuel - 1))%Z /\
  1 <= fuel.




(** Storing a list of entries in an insertion-ordered map. *)
Definition setAll {V} (items acc : list (string * V)) : list (string * V) :=
  fold_left (fun acc kv => OMap.set String.eqb kv.1 kv.2 acc) items acc.

(** The sum of a weight over the values of a map. *)
Definition weigh {V} (wt : V -> nat) (m : list (string * V)) : nat :=
  list_sum (map (fun kv => wt kv.2) m).




End Vocab.
Import Vocab.

Module VocabMore.
Import Js World.

(** The members of the group of [d], read off the input. *)
Definition membersOf (key : Scanner.DiscoveredSecret -> string) (d : string)
    (secrets : list Scanner.DiscoveredSecret) : list Scanner.DiscoveredSecret :=
  List.filter (fun s => String.eqb (key s) d) secrets.

Definition groupOf (key : Scanner.DiscoveredSecret -> string) (d : string)
    (secrets : list Scanner.DiscoveredSecret) : option (list Scanner.DiscoveredSecret) :=
  match membersOf key d secrets with
  | [] => None
  | members => Some members
  end.

(** The deployment name that [parseValuesFile] gives to a file. *)
Definition deploymentOf (filePath : string) : string :=
  if Str.includes "/infrastructure/" filePath then "infrastructure"
  else Str.basename filePath ".yaml".

Definition reserved (chartName : string) : bool :=
  String.eqb chartName "global" || String.eqb chartName "argocd".

End VocabMore.
Import VocabMore.

Module VocabGenerator.
Import Js Generator GeneratorUtil.

Definition urlSafeAlphabet : string :=
  "ABCDEFGHIJKLMNOPQRSTUVWXYZabcdefghijklmnopqrstuvwxyz0123456789-_".

(** The three replacements of [generateUrlSafeString]. *)
Definition urlSafe (s : string) : string :=
  replaceAll "=" "" (replaceAll "/" "_" (replaceAll "+" "-" s)).

(** A character of the base64 alphabet becomes one URL-safe character. *)
Definition urlSafeChar (c : ascii) : bool :=
  Nat.eqb (String.length (urlSafe (String c ""))) 1 &&
  forallb (fun c' => existsb (Ascii.eqb c') (list_ascii_of_string urlSafeAlphabet))
    (list_ascii_of_string (urlSafe (String c ""))).

(** All four character classes occur in the password. *)
Definition allClasses (password : string) : bool :=
  hasLower password && hasUpper password && hasDigit password && hasSpecial password.

End VocabGenerator.
Import VocabGenerator.

Module VocabProvider.
Import Js World Provider.

(** The status that [getSecretStatus] reports for a key, read off the
    backend. *)
Definition statusFor (projectId : string) (w : World) (k : option JsVal) : SecretStatus :=
  match backend w !! secretName projectId k with
  | Some versions =>
      {| remoteKey := k; exists_ := true;
         lastUpdated := (fun v => createSeconds v * 1000)%Z <$> head (take 1 versions);
         versionCount := Some (length (take 1 versions)) |}
  | None =>
      {| remoteKey := k; exists_ := false; lastUpdated := None; versionCount := None |}
  end.

(** The requests that one status check makes. *)
Definition statusCalls (projectId : string) (w : World) (k : option JsVal) : list Call :=
  match backend w !! secretName projectId k with
  | Some _ =>
      [ApiGetSecret (secretName projectId k); ApiListSecretVersions (secretName projectId k) 1]
  | None => [ApiGetSecret (secretName projectId k)]
  end.

(** The backend holds the key. *)
Definition present (projectId : string) (w : World) (k : option JsVal) : bool :=
  bool_decide (is_Some (backend w !! secretName projectId k)).

End VocabProvider.
Import VocabProvider.

Module VocabGroups.
Import Js World.






End VocabGroups.
Import VocabGroups.

Module VocabScan.
Import Js Scanner.

(** The blocks that a document offers, in its own order: its root
    when it is an infrastructure document with a block of secrets at
    the root, then its top-level keys that are not reserved. *)
Definition blocksOf (filePath : string) (values : JsVal) : list (string * JsVal) :=
  (if Str.includes "/infrastructure/" filePath && truthy (propV values "externalSecrets")
   then [(Str.basename filePath ".yaml", values)]
   else []) ++
  List.filter (fun block => negb (reserved block.1)) (entries values).

(** What a block of secrets declares, in its own order: the key of
    Shape A, or the entries of the array of Shape B one after the
    other; nothing when it is disabled or of neither shape; [None]
    when an entry of the array is [null]. *)
Definition declaredIn (externalSecrets : option JsVal)
    : option (list (option JsVal * option JsVal)) :=
  if truthy externalSecrets && truthy (optProp externalSecrets "enabled") then
    if isSingleSecretConfig externalSecrets then
      Some [(optProp externalSecrets "remoteKey", optProp externalSecrets "generator")]
    else if isArraySecretsConfig externalSecrets then
      let items := arrayItems (optProp externalSecrets "secrets") in
      if forallb (fun item => negb (eqb item JNull)) items
      then Some (map (fun item => (propV item "remoteKey", propV item "generator")) items)
      else None
    else Some []
  else Some [].

(** The descriptors of a block of a document. *)
Definition descriptorsOf (filePath : string) (block : string * JsVal)
    : option (list DiscoveredSecret) :=
  let externalSecrets := optProp (Some block.2) "externalSecrets" in
  map (fun declared =>
         {| sourceFile := filePath;
            deployment := deploymentOf filePath;
            chart := block.1;
            environment := environmentOf (Str.basename filePath ".yaml");
            remoteKey := declared.1;
            generator := declared.2;
            secretStore := orElse (optProp externalSecrets "secretStore") (JStr "gcp-secretstore");
            refreshInterval := orElse (optProp externalSecrets "refreshInterval") (JStr "1h");
            namespace := optProp (Some block.2) "namespace" |})
    <$> declaredIn externalSecrets.

(** The descriptors of the blocks that come before the first
    malformed one. *)
Fixpoint upToMalformed {A} (blocks : list (option (list A))) : list A :=
  match blocks with
  | Some ds :: rest => ds ++ upToMalformed rest
  | _ => []
  end.

(** The descriptors of a document, in document order. *)
Definition documentOrder (load : string -> option JsVal) (filePath : string)
    : list DiscoveredSecret :=
  match load filePath with
  | Some values =>
      if truthyV values && typeofObject (Some values)
      then upToMalformed (map (descriptorsOf filePath) (blocksOf filePath values))
      else []
  | None => []
  end.

(** The descriptors of a scan: document after document in the order
    of the matches, the deployments before the infrastructure. *)
Definition scanOrder (ft : FileTree) (optDeployment : option string) : list DiscoveredSecret :=
  flat_map (documentOrder (load ft))
    (selected optDeployment
       (glob ft "values/deployments/*.yaml" ++ glob ft "values/infrastructure/*.yaml")).
End VocabScan.
Import VocabScan.

Module VocabGenerate.
Import Js World Provider.

(** The answer of the backend to the lookup of a key. *)
Definition answerFor (projectId : string) (w : World) (k : option JsVal) : res unit :=
  if present projectId w k then Ok tt else Throw (GrpcError 5).

(** The requests of one batch of status checks: the lookups of its
    keys, sent together, then the versions of each key that the
    backend holds. *)
Definition batchCalls (projectId : string) (w : World) (batch : list (option JsVal))
    : list Call :=
  map (fun k => ApiGetSecret (secretName projectId k)) batch ++
  flat_map (fun k => if present projectId w k
                     then [ApiListSecretVersions (secretName projectId k) 1]
                     else []) batch.

(** The requests of [checkSecrets]: batch after batch of ten keys. *)
Fixpoint batchesCalls (fuel : nat) (projectId : string) (w : World)
    (remoteKeys : list (option JsVal)) : list Call :=
  match fuel, remoteKeys with
  | S fuel', _ :: _ =>
      batchCalls projectId w (take CONCURRENCY remoteKeys) ++
      batchesCalls fuel' projectId w (drop CONCURRENCY remoteKeys)
  | _, _ => []
  end.

Definition checkCalls (projectId : string) (w : World) (remoteKeys : list (option JsVal))
    : list Call :=
  batchesCalls (length remoteKeys) projectId w remoteKeys.

(** The descriptors whose key the backend lacks. *)
Definition missingAt (projectId : string) (w : World)
    (secrets : list Scanner.DiscoveredSecret) : list Scanner.DiscoveredSecret :=
  List.filter (fun s => negb (present projectId w (Scanner.remoteKey s))) secrets.

(** The values that the generate stage stores for the missing
    descriptors: those of the generator for the descriptors that ask
    for one, then those that the operator types for the others. *)
Definition valuesFor (env : Cli.Env) (missing : list Scanner.DiscoveredSecret)
    : res (list (option JsVal * string)) :=
  let* generated := Cli.generateAll env 0 (List.filter Scanner.wantsGenerate missing) [] in
  Ok (Cli.promptAll env
        (List.filter (fun s => negb (Scanner.wantsGenerate s)) missing) generated).

(** The backend after every entry was created with its first version. *)
Definition storedIn (projectId : string) (w : World) (entries : list (option JsVal * string))
    : gmap string (list SecretVersion) :=
  fold_left (fun b entry => <[createdName projectId entry.1 := [versionOf w entry.2]]> b)
    entries (backend w).

(** The key is not an object or an array: a [Map] compares it by
    value. *)
Definition scalarKey (secret : Scanner.DiscoveredSecret) : Prop :=
  match Scanner.remoteKey secret with
  | Some (JArr _) | Some (JObj _) => False
  | _ => True
  end.

(** The key is a string. *)
Definition stringKey (secret : Scanner.DiscoveredSecret) : Prop :=
  typeofString (Scanner.remoteKey secret) = true.

(** What the loop of creations makes of a backend that accepts the
    caller: a name that the backend lacks is created with its first
    version, a name that it holds is left as it is; with, entry by
    entry, whether the creation went through. *)
Fixpoint creations (projectId : string) (w : World) (entries : list (option JsVal * string))
    (b : gmap string (list SecretVersion)) : list bool * gmap string (list SecretVersion) :=
  match entries with
  | [] => ([], b)
  | entry :: rest =>
      match b !! createdName projectId entry.1 with
      | None =>
          let (oks, b') :=
            creations projectId w rest
              (<[createdName projectId entry.1 := [versionOf w entry.2]]> b) in
          (true :: oks, b')
      | Some _ =>
          let (oks, b') := creations projectId w rest b in
          (false :: oks, b')
      end
  end.
End VocabGenerate.
Import VocabGenerate.

(** * Properties *)

Section ScannerFacts.
Import Js Scanner.

Lemma pushItems_ok mk items : forall acc,
  Forall (fun item => item <> JNull) items ->
  pushItems mk items acc =
    Ok (acc ++ map (fun item => mk (propV item "remoteKey") (propV item "generator")) items).
Proof.
  induction items as [|item rest IH]; intros acc Hnn; simpl.
  - by rewrite app_nil_r.
  - inversion Hnn as [|? ? Hitem Hrest]; subst.
    destruct item; try congruence; simpl; rewrite IH by assumption;
      by rewrite <- app_assoc.
Qed.

Lemma truthy_true_bool o : o = Some (JBool true) -> truthy o = true.
Proof. by intros ->. Qed.

End ScannerFacts.

(** C4, as stated, fails: a block that matches Shape A with its enable
    flag false yields no descriptor, and a Shape B block with a null
    entry raises a TypeError instead of yielding one descriptor. *)
Lemma shape_claim_counterexample :
  Scanner.isSingleSecretConfig (Some Samples.shapeA_disabled) = true /\
  Scanner.extractSecretsFromChart "db" (Samples.chartWith Samples.shapeA_disabled)
    "values/deployments/acme.yaml" "acme" None = Ok [] /\
  Scanner.isSingleSecretConfig (Some Samples.shapeB_null_entry) = false /\
  Scanner.isArraySecretsConfig (Some Samples.shapeB_null_entry) = true /\
  Scanner.extractSecretsFromChart "db" (Samples.chartWith Samples.shapeB_null_entry)
    "values/deployments/acme.yaml" "acme" None = Throw TypeError.
Proof. repeat split; reflexivity. Qed.

(** C4 (amended): with the enable flag true, a block with a remote-key
    string yields exactly one descriptor, also when it has a [secrets]
    array (Shape A is tried first); a block without one and with a
    non-empty array of N entries, none null, yields exactly N
    descriptors in the order of the array; every descriptor carries the
    block's secret store and refresh interval (or their defaults); a
    block that matches neither shape, or whose enable flag is false,
    yields no descriptor and no error. *)
Theorem shape_disambiguation chartName chartConfig sourceFile deployment environment :
  let block := Js.optProp chartConfig "externalSecrets" in
  let store := Js.orElse (Js.optProp block "secretStore") (Js.JStr "gcp-secretstore") in
  let refresh := Js.orElse (Js.optProp block "refreshInterval") (Js.JStr "1h") in
  let inherits d := Scanner.secretStore d = store /\ Scanner.refreshInterval d = refresh in
  let run := Scanner.extractSecretsFromChart chartName chartConfig sourceFile deployment environment in
  (Js.optProp block "enabled" = Some (Js.JBool true) ->
   Scanner.isSingleSecretConfig block = true ->
   exists d, run = Ok [d] /\ Scanner.remoteKey d = Js.optProp block "remoteKey" /\ inherits d) /\
  (Js.optProp block "enabled" = Some (Js.JBool true) ->
   Scanner.isSingleSecretConfig block = false ->
   Scanner.isArraySecretsConfig block = true ->
   Forall (fun item => item <> Js.JNull) (Scanner.arrayItems (Js.optProp block "secrets")) ->
   exists ds, run = Ok ds /\
     length ds = length (Scanner.arrayItems (Js.optProp block "secrets")) /\
     map Scanner.remoteKey ds =
       map (fun item => Js.propV item "remoteKey") (Scanner.arrayItems (Js.optProp block "secrets")) /\
     Forall inherits ds) /\
  (Scanner.isSingleSecretConfig block = false ->
   Scanner.isArraySecretsConfig block = false ->
   run = Ok []) /\
  (Js.optProp block "enabled" = Some (Js.JBool false) -> run = Ok []).
Proof.
  intros block store refresh inherits run.
  subst run. unfold Scanner.extractSecretsFromChart. fold block. fold store. fold refresh.
  repeat split.
  - intros Hen HA.
    assert (Js.truthy block = true) as Hb.
    { unfold Scanner.isSingleSecretConfig in HA. destruct (Js.truthy block); [done | discriminate]. }
    rewrite Hb, Hen, HA. simpl. eexists. split; [reflexivity |]. simpl. by unfold inherits.
  - intros Hen HA HB Hnn.
    assert (Js.truthy block = true) as Hb.
    { unfold Scanner.isArraySecretsConfig in HB. destruct (Js.truthy block); [done | discriminate]. }
    rewrite Hb, Hen, HA, HB. simpl.
    rewrite pushItems_ok by assumption. simpl.
    eexists. split; [reflexivity |].
    rewrite length_map. split; [done |]. split.
    + rewrite map_map. by simpl.
    + apply Forall_forall. intros d Hd. apply list_elem_of_In in Hd.
      apply in_map_iff in Hd as (item & <- & _). by unfold inherits.
  - intros HA HB. rewrite HA, HB.
    by destruct (negb (Js.truthy block) || negb (Js.truthy (Js.optProp block "enabled"))).
  - intros Hen. rewrite Hen. simpl. by rewrite orb_true_r.
Qed.

Lemma shape_disambiguation_witness :
  exists d,
    Scanner.extractSecretsFromChart "db" (Samples.chartWith Samples.shapeA_block)
      "values/deployments/acme.yaml" "acme" None = Ok [d] /\
    Scanner.remoteKey d = Some (Js.JStr "env-db-password").
Proof.
  destruct (shape_disambiguation "db" (Samples.chartWith Samples.shapeA_block)
              "values/deployments/acme.yaml" "acme" None) as [HA _].
  destruct (HA eq_refl eq_refl) as (d & Hrun & Hkey & _).
  exists d. split; [exact Hrun | exact Hkey].
Defined.

Section ScanFacts.
Import Js Scanner.

Lemma scan_secrets ft opt :
  secrets (scanValuesFiles ft opt) =
    concat (map (parseValuesFile (load ft)) (selected opt (concat (map (glob ft) patterns)))).
Proof. reflexivity. Qed.

Lemma selected_app opt l1 l2 : selected opt (l1 ++ l2) = selected opt l1 ++ selected opt l2.
Proof.
  unfold selected. destruct opt as [d|]; [|done].
  destruct (String.eqb d ""); [done|]. apply filter_app.
Qed.

Lemma selected_without opt bad l :
  selected opt (filter (fun f => f <> bad) l) = filter (fun f => f <> bad) (selected opt l).
Proof.
  unfold selected. destruct opt as [d|]; [|done].
  destruct (String.eqb d ""); [done|].
  induction l as [|f l IH]; [done|].
  rewrite !filter_cons.
  destruct (decide (f <> bad)), (decide (Str.basename f ".yaml" = d));
    rewrite ?filter_cons; repeat case_decide; try done; by rewrite IH.
Qed.

Lemma parse_without_bad load bad l :
  parseValuesFile load bad = [] ->
  concat (map (parseValuesFile load) (filter (fun f => f <> bad) l)) =
    concat (map (parseValuesFile load) l).
Proof.
  intros Hbad. induction l as [|f l IH]; [done|].
  rewrite filter_cons. case_decide as Hf; simpl.
  - by rewrite IH.
  - subst f. by rewrite Hbad, IH.
Qed.

Lemma pushItems_all (P : DiscoveredSecret -> Prop) mk items : forall acc ds,
  (forall rk gen, P (mk rk gen)) ->
  Forall P acc ->
  pushItems mk items acc = Ok ds ->
  Forall P ds.
Proof.
  induction items as [|item rest IH]; intros acc ds Hmk Hacc Hrun; simpl in Hrun.
  - by inversion Hrun; subst.
  - destruct item; simpl in Hrun; try discriminate;
      (eapply IH; [exact Hmk| |exact Hrun]);
      (apply Forall_app; split; [done|]; constructor; [apply Hmk | constructor]).
Qed.

Lemma extract_sourceFile chartName chartConfig sf dep env ds :
  extractSecretsFromChart chartName chartConfig sf dep env = Ok ds ->
  Forall (fun d => sourceFile d = sf) ds.
Proof.
  unfold extractSecretsFromChart.
  destruct (negb _ || negb _); [intros [= <-]; constructor|].
  destruct (isSingleSecretConfig _); [intros [= <-]; by repeat constructor|].
  destruct (isArraySecretsConfig _); [|intros [= <-]; constructor].
  apply pushItems_all; [done | constructor].
Qed.

Lemma chartLoop_sourceFile es fp dep env : forall acc,
  Forall (fun d => sourceFile d = fp) acc ->
  Forall (fun d => sourceFile d = fp) (chartLoop es fp dep env acc).
Proof.
  induction es as [|[chartName chartConfig] rest IH]; intros acc Hacc; simpl; [done|].
  destruct (_ || _); [by apply IH|].
  destruct (extractSecretsFromChart _ _ _ _ _) as [chartSecrets|] eqn:Hx; [|done].
  apply IH, Forall_app. split; [done|]. by eapply extract_sourceFile.
Qed.

Lemma parse_sourceFile load fp :
  Forall (fun d => sourceFile d = fp) (parseValuesFile load fp).
Proof.
  unfold parseValuesFile.
  destruct (load fp) as [values|]; [|constructor].
  destruct (negb (truthyV values) || negb (typeofObject (Some values))); [constructor|].
  match goal with
  | |- context [match ?root with Ok _ => _ | Throw _ => _ end] =>
      destruct root as [rootSecrets|] eqn:Hroot; [|constructor]
  end.
  apply chartLoop_sourceFile.
  match type of Hroot with
  | (if ?c then _ else _) = _ =>
      destruct c; [by eapply extract_sourceFile | by inversion Hroot; constructor]
  end.
Qed.

Lemma sources_in_file_order load files :
  map sourceFile (concat (map (parseValuesFile load) files)) =
    concat (map (fun f => replicate (length (parseValuesFile load f)) f) files).
Proof.
  induction files as [|f files IH]; [done|].
  simpl. rewrite map_app, IH. f_equal.
  pose proof (parse_sourceFile load f) as Hall.
  induction Hall as [|d ds Hd _ IHds]; [done|]. simpl. by rewrite Hd, IHds.
Qed.

Lemma parse_agree load1 load2 files :
  (forall f, f ∈ files -> load1 f = load2 f) ->
  map (parseValuesFile load1) files = map (parseValuesFile load2) files.
Proof.
  intros Hagree. induction files as [|f files IH]; [done|].
  simpl. f_equal.
  - unfold parseValuesFile. rewrite (Hagree f); [done | by left].
  - apply IH. intros g Hg. apply Hagree. by right.
Qed.

Lemma selected_subset opt l f : f ∈ selected opt l -> f ∈ l.
Proof.
  unfold selected. destruct opt as [d|]; [|done].
  destruct (String.eqb d ""); [done|].
  intros Hf. by apply list_elem_of_filter in Hf as [_ ?].
Qed.

End ScanFacts.

(** C8: a document that cannot be read or parsed contributes no
    descriptor, and the descriptors of the scan are those of the scan
    of the same tree without that document. *)
Theorem scan_skips_malformed (ft : Scanner.FileTree) (optDeployment : option string) (bad : string) :
  Scanner.load ft bad = None ->
  Scanner.parseValuesFile (Scanner.load ft) bad = [] /\
  Scanner.secrets (Scanner.scanValuesFiles ft optDeployment) =
    Scanner.secrets (Scanner.scanValuesFiles (without bad ft) optDeployment).
Proof.
  intros Hbad.
  assert (Scanner.parseValuesFile (Scanner.load ft) bad = []) as Hnone.
  { unfold Scanner.parseValuesFile. by rewrite Hbad. }
  split; [exact Hnone|].
  rewrite !scan_secrets. unfold Scanner.patterns. simpl.
  rewrite !app_nil_r, <- filter_app, selected_without.
  symmetry. by apply parse_without_bad.
Qed.

Lemma scan_skips_malformed_witness :
  Scanner.parseValuesFile (Scanner.load Samples.tree) "/repo/values/deployments/broken.yaml" = [] /\
  Scanner.secrets (Scanner.scanValuesFiles Samples.tree None) =
    Scanner.secrets
      (Scanner.scanValuesFiles (without "/repo/values/deployments/broken.yaml" Samples.tree) None).
Proof.
  apply (scan_skips_malformed Samples.tree None "/repo/values/deployments/broken.yaml").
  reflexivity.
Defined.

Section OrderFacts.
Import Js Scanner.

Lemma pushItems_run mk items : forall acc,
  pushItems mk items acc =
    if forallb (fun item => negb (eqb item JNull)) items
    then Ok (acc ++ map (fun item => mk (propV item "remoteKey") (propV item "generator")) items)
    else Throw TypeError.
Proof.
  induction items as [|item rest IH]; intros acc; simpl.
  - by rewrite app_nil_r.
  - destruct item; simpl; try done; rewrite IH;
      destruct (forallb _ rest); try done; by rewrite <- app_assoc.
Qed.

Lemma extract_descriptorsOf filePath block :
  extractSecretsFromChart block.1 (Some block.2) filePath (deploymentOf filePath)
    (environmentOf (Str.basename filePath ".yaml")) =
  match descriptorsOf filePath block with
  | Some ds => Ok ds
  | None => Throw TypeError
  end.
Proof.
  unfold extractSecretsFromChart, descriptorsOf, declaredIn.
  set (externalSecrets := optProp (Some block.2) "externalSecrets").
  destruct (truthy externalSecrets); simpl; [|done].
  destruct (truthy (optProp externalSecrets "enabled")); simpl; [|done].
  destruct (isSingleSecretConfig externalSecrets); [done|].
  destruct (isArraySecretsConfig externalSecrets); [|done].
  rewrite pushItems_run.
  destruct (forallb _ _); simpl; [|done].
  by rewrite map_map.
Qed.

Lemma chartLoop_order filePath es : forall acc,
  chartLoop es filePath (deploymentOf filePath)
    (environmentOf (Str.basename filePath ".yaml")) acc =
  acc ++ upToMalformed
           (map (descriptorsOf filePath)
              (List.filter (fun block => negb (reserved block.1)) es)).
Proof.
  induction es as [|[chartName chartConfig] rest IH]; intros acc; simpl.
  - by rewrite app_nil_r.
  - unfold reserved at 1. simpl.
    destruct (String.eqb chartName "global" || String.eqb chartName "argocd"); simpl;
      [apply IH|].
    pose proof (extract_descriptorsOf filePath (chartName, chartConfig)) as Hx.
    cbn [fst snd] in Hx. rewrite Hx.
    destruct (descriptorsOf filePath (chartName, chartConfig)) as [ds|];
      [|by rewrite app_nil_r].
    by rewrite IH, <- app_assoc.
Qed.

Lemma parse_documentOrder load filePath :
  parseValuesFile load filePath = documentOrder load filePath.
Proof.
  unfold parseValuesFile, documentOrder, blocksOf.
  destruct (load filePath) as [values|]; [|done].
  rewrite <- negb_andb.
  destruct (truthyV values && typeofObject (Some values)); simpl; [|done].
  fold (deploymentOf filePath).
  destruct (Str.includes "/infrastructure/" filePath && truthy (propV values "externalSecrets")).
  - simpl.
    pose proof (extract_descriptorsOf filePath (Str.basename filePath ".yaml", values)) as Hx.
    cbn [fst snd] in Hx. rewrite Hx.
    destruct (descriptorsOf filePath (Str.basename filePath ".yaml", values)) as [ds|]; [|done].
    apply chartLoop_order.
  - apply (chartLoop_order filePath (entries values) []).
Qed.

Lemma scan_order ft optDeployment :
  secrets (scanValuesFiles ft optDeployment) = scanOrder ft optDeployment.
Proof.
  rewrite scan_secrets. unfold scanOrder, patterns. simpl. rewrite app_nil_r.
  generalize (selected optDeployment
                (glob ft "values/deployments/*.yaml" ++ glob ft "values/infrastructure/*.yaml")).
  intros files. induction files as [|f files IH]; [done|].
  simpl. by rewrite IH, parse_documentOrder.
Qed.
Lemma selected_permutation optDeployment l l' :
  l ≡ₚ l' -> selected optDeployment l ≡ₚ selected optDeployment l'.
Proof.
  intros Hp. unfold selected. destruct optDeployment as [d|]; [|done].
  destruct (String.eqb d ""); [done|]. by apply filter_Permutation.
Qed.

Lemma flat_map_agree {A B} (f g : A -> list B) l :
  (forall a, a ∈ l -> f a = g a) -> flat_map f l = flat_map g l.
Proof.
  induction l as [|a l IH]; intros Hfg; [done|]. simpl.
  rewrite (Hfg a) by by left. rewrite IH; [done|]. intros b Hb. apply Hfg. by right.
Qed.

Lemma documentOrder_agree load1 load2 f :
  load1 f = load2 f -> documentOrder load1 f = documentOrder load2 f.
Proof. intros H. unfold documentOrder. by rewrite H. Qed.

Lemma matched_elem_of ft optDeployment f :
  f ∈ selected optDeployment
        (glob ft "values/deployments/*.yaml" ++ glob ft "values/infrastructure/*.yaml") ->
  exists pattern, pattern ∈ patterns /\ f ∈ glob ft pattern.
Proof.
  intros Hf%selected_subset. apply elem_of_app in Hf as [Hf|Hf].
  - exists "values/deployments/*.yaml". split; [|done]. unfold patterns. set_solver.
  - exists "values/infrastructure/*.yaml". split; [|done]. unfold patterns. set_solver.
Qed.
End OrderFacts.

(** C9: the descriptors of a scan are those of the matched documents
    in the order of the matches, the deployments before the
    infrastructure, and those of a document come in document order: the
    root block of an infrastructure document, then the top-level keys
    in their order without the two reserved ones, the entries of an
    array in the order of the array, up to the first malformed block;
    nothing is sorted or reordered.  The result of the scan is
    determined by the matches of the two patterns and the contents of
    the matched files; when the matches come in another order, the
    same descriptors come, in the order of those matches. *)
Theorem scan_deterministic (ft : Scanner.FileTree) (optDeployment : option string) :
  Scanner.secrets (Scanner.scanValuesFiles ft optDeployment) = scanOrder ft optDeployment /\
  map Scanner.sourceFile (Scanner.secrets (Scanner.scanValuesFiles ft optDeployment)) =
    concat (map (fun f => replicate (length (Scanner.parseValuesFile (Scanner.load ft) f)) f)
              (selected optDeployment (concat (map (Scanner.glob ft) Scanner.patterns)))) /\
  (forall ft2,
     (forall pattern, pattern ∈ Scanner.patterns ->
        Scanner.glob ft pattern = Scanner.glob ft2 pattern) ->
     (forall pattern f, pattern ∈ Scanner.patterns -> f ∈ Scanner.glob ft pattern ->
        Scanner.load ft f = Scanner.load ft2 f) ->
     Scanner.scanValuesFiles ft optDeployment = Scanner.scanValuesFiles ft2 optDeployment) /\
  (forall ft2,
     (forall pattern, pattern ∈ Scanner.patterns ->
        Scanner.glob ft2 pattern ≡ₚ Scanner.glob ft pattern) ->
     (forall pattern f, pattern ∈ Scanner.patterns -> f ∈ Scanner.glob ft pattern ->
        Scanner.load ft f = Scanner.load ft2 f) ->
     Scanner.secrets (Scanner.scanValuesFiles ft2 optDeployment) ≡ₚ
       Scanner.secrets (Scanner.scanValuesFiles ft optDeployment)).
Proof.
  split; [apply scan_order|].
  split; [rewrite scan_secrets; apply sources_in_file_order|].
  split.
  - intros ft2 Hglob Hload.
    unfold Scanner.scanValuesFiles.
    assert (map (Scanner.glob ft) Scanner.patterns = map (Scanner.glob ft2) Scanner.patterns)
      as Hg.
    { unfold Scanner.patterns. simpl.
      rewrite !Hglob; [done | | ]; unfold Scanner.patterns; set_solver. }
    rewrite <- Hg.
    fold (selected optDeployment (concat (map (Scanner.glob ft) Scanner.patterns))).
    set (files := selected optDeployment _).
    assert (map (Scanner.parseValuesFile (Scanner.load ft)) files =
            map (Scanner.parseValuesFile (Scanner.load ft2)) files) as Hp.
    { apply parse_agree. intros f Hf. apply selected_subset in Hf.
      unfold Scanner.patterns in Hf. simpl in Hf. rewrite app_nil_r in Hf.
      apply elem_of_app in Hf as [Hf|Hf]; (eapply Hload; [|exact Hf]);
        unfold Scanner.patterns; set_solver. }
    by rewrite Hp.
  - intros ft2 Hglob Hload. rewrite !scan_order. unfold scanOrder.
    assert (selected optDeployment
              (Scanner.glob ft2 "values/deployments/*.yaml" ++
               Scanner.glob ft2 "values/infrastructure/*.yaml") ≡ₚ
            selected optDeployment
              (Scanner.glob ft "values/deployments/*.yaml" ++
               Scanner.glob ft "values/infrastructure/*.yaml")) as Hfiles.
    { apply selected_permutation, Permutation_app; apply Hglob;
        unfold Scanner.patterns; set_solver. }
    rewrite (flat_map_agree (documentOrder (Scanner.load ft2))
               (documentOrder (Scanner.load ft))).
    + by apply Permutation_flat_map.
    + intros f Hf. apply documentOrder_agree. symmetry.
      rewrite Hfiles in Hf. apply matched_elem_of in Hf as (pattern & Hp & Hf).
      by apply (Hload pattern).
Qed.

Lemma scan_deterministic_witness :
  Scanner.scanValuesFiles Samples.tree None = Scanner.scanValuesFiles (without "" Samples.tree) None.
Proof.
  destruct (scan_deterministic Samples.tree None) as (_ & _ & Hsame & _).
  apply Hsame.
  - intros pattern Hp. unfold Scanner.patterns in Hp.
    apply elem_of_cons in Hp as [-> | Hp]; [reflexivity|].
    apply elem_of_cons in Hp as [-> | Hp]; [reflexivity|].
    by apply elem_of_nil in Hp.
  - reflexivity.
Defined.

Section GeneratorFacts.
Import Js Generator.

Lemma chars_app a b :
  list_ascii_of_string (a +:+ b) = list_ascii_of_string a ++ list_ascii_of_string b.
Proof. induction a as [|c a IH]; simpl; [done | by rewrite IH]. Qed.

Lemma charsIn_app charset a b :
  charsIn charset a -> charsIn charset b -> charsIn charset (a +:+ b).
Proof. unfold charsIn. rewrite chars_app. intros. by apply Forall_app. Qed.

Lemma charsIn_weaken charset charset' s :
  (forall c, In c (list_ascii_of_string charset) -> In c (list_ascii_of_string charset')) ->
  charsIn charset s -> charsIn charset' s.
Proof. intros Hsub Hs. unfold charsIn. eapply Forall_impl; [exact Hs | exact Hsub]. Qed.

Lemma length_app_string a b : String.length (a +:+ b) = String.length a + String.length b.
Proof. induction a as [|c a IH]; simpl; [done | by rewrite IH]. Qed.

Lemma get_in_range s : forall i,
  i < String.length s ->
  exists c, String.get i s = Some c /\ In c (list_ascii_of_string s).
Proof.
  induction s as [|a s IH]; intros i Hi; simpl in Hi; [lia|].
  destruct i as [|i]; simpl.
  - exists a. split; [done | by left].
  - destruct (IH i) as (c & Hget & Hin); [lia|].
    exists c. split; [done | by right].
Qed.

Lemma charAt_in_range s i :
  i < String.length s ->
  String.length (charAt s i) = 1 /\ charsIn s (charAt s i).
Proof.
  intros Hi. unfold charAt.
  destruct (get_in_range s i Hi) as (c & -> & Hin).
  split; [done|]. by repeat constructor.
Qed.

Lemma pick_one charset b :
  String.length charset <> 0 ->
  String.length (pick charset b) = 1 /\ charsIn charset (pick charset b).
Proof. intros Hne. apply charAt_in_range. by apply Nat.mod_upper_bound. Qed.

Lemma pickAll_spec charset buf :
  String.length charset <> 0 ->
  String.length (pickAll charset buf) = length buf /\ charsIn charset (pickAll charset buf).
Proof.
  intros Hne. induction buf as [|b buf [IHlen IHin]]; simpl.
  - split; [done | constructor].
  - destruct (pick_one charset b Hne) as [Hlen Hin].
    rewrite length_app_string, Hlen, IHlen. split; [done | by apply charsIn_app].
Qed.

Lemma byte_bound b : N.to_nat (Byte.to_N b) < 256.
Proof. pose proof (Byte.to_N_bounded b). lia. Qed.

Lemma hexByte_spec b :
  String.length (hexByte b) = 2 /\ charsIn hexDigits (hexByte b).
Proof.
  unfold hexByte. pose proof (byte_bound b) as Hb.
  destruct (charAt_in_range hexDigits (N.to_nat (Byte.to_N b) / 16)) as [Hl1 Hi1].
  { change (String.length hexDigits) with 16. apply Nat.Div0.div_lt_upper_bound. lia. }
  destruct (charAt_in_range hexDigits (N.to_nat (Byte.to_N b) mod 16)) as [Hl2 Hi2].
  { change (String.length hexDigits) with 16. by apply Nat.mod_upper_bound. }
  rewrite length_app_string, Hl1, Hl2. split; [done | by apply charsIn_app].
Qed.

Lemma toHex_spec buf :
  String.length (toHex buf) = 2 * length buf /\ charsIn hexDigits (toHex buf).
Proof.
  induction buf as [|b buf [IHlen IHin]]; simpl.
  - split; [done | constructor].
  - destruct (hexByte_spec b) as [Hlen Hin].
    rewrite length_app_string, Hlen, IHlen. split; [lia | by apply charsIn_app].
Qed.

Lemma b64_spec n : String.length (b64 n) = 1 /\ charsIn base64Chars (b64 n).
Proof.
  destruct (charAt_in_range base64Alphabet (n mod 64)) as [Hl Hi].
  { change (String.length base64Alphabet) with 64. by apply Nat.mod_upper_bound. }
  split; [exact Hl|].
  eapply charsIn_weaken; [|exact Hi].
  intros c Hc. unfold base64Chars. rewrite chars_app. apply in_or_app. by left.
Qed.

Lemma pad_spec s : s = "=" \/ s = "==" -> charsIn base64Chars s.
Proof.
  intros [-> | ->]; unfold charsIn; simpl; repeat constructor;
    unfold base64Chars; rewrite chars_app; apply in_or_app; right; by left.
Qed.

Lemma list_ind3 {A} (P : list A -> Prop) :
  P [] -> (forall a, P [a]) -> (forall a b, P [a; b]) ->
  (forall a b c l, P l -> P (a :: b :: c :: l)) ->
  forall l, P l.
Proof.
  intros H0 H1 H2 H3 l.
  assert (P l /\ (forall a, P (a :: l)) /\ (forall a b, P (a :: b :: l))) as [? _]; [|done].
  induction l as [|x l (IH0 & IH1 & IH2)]; [by repeat split|].
  split; [apply IH1|]. split; [intros a; apply IH2|]. intros a b. by apply H3.
Qed.

Lemma toBase64_spec buf :
  String.length (toBase64 buf) = 4 * ((length buf + 2) / 3) /\
  charsIn base64Chars (toBase64 buf).
Proof.
  induction buf as [|a|a b|a b c rest [IHlen IHin]] using list_ind3.
  - split; [done | constructor].
  - cbn [toBase64].
    rewrite !length_app_string.
    rewrite (proj1 (b64_spec _)), (proj1 (b64_spec _)). split; [done|].
    repeat apply charsIn_app; try apply b64_spec. apply pad_spec. by right.
  - cbn [toBase64].
    rewrite !length_app_string.
    rewrite (proj1 (b64_spec _)), (proj1 (b64_spec _)), (proj1 (b64_spec _)). split; [done|].
    repeat apply charsIn_app; try apply b64_spec. apply pad_spec. by left.
  - cbn [toBase64]. fold (toBase64 rest).
    rewrite !length_app_string.
    rewrite (proj1 (b64_spec _)), (proj1 (b64_spec _)), (proj1 (b64_spec _)),
      (proj1 (b64_spec _)), IHlen.
    split.
    + cbn [Datatypes.length]. replace (S (S (S (length rest))) + 2) with (length rest + 2 + 1 * 3) by lia.
      rewrite Nat.div_add by done. lia.
    + repeat apply charsIn_app; try apply b64_spec. exact IHin.
Qed.

Lemma randomBytes_ok src L :
  (0 <= L <= maxRandomBytes)%Z ->
  randomBytes src (JNum L) = Ok (map src (seq 0 (Z.to_nat L))).
Proof.
  intros [Hlo Hhi]. unfold randomBytes.
  apply Z.leb_le in Hlo, Hhi. by rewrite Hlo, Hhi.
Qed.

Lemma length_bytes (src : RandSrc) n : length (map src (seq 0 n)) = n.
Proof. by rewrite length_map, length_seq. Qed.

Lemma generate_unfold src g kind :
  propV g "type" = Some (JStr kind) ->
  generateSecretValue src (Some g) =
    if String.eqb kind "password" then generatePassword src (lengthUsed g) allSets
    else if String.eqb kind "key" then generateKey src (lengthUsed g)
    else if String.eqb kind "token" then generateToken src (lengthUsed g)
    else if String.eqb kind "string" then generateBase64String src (lengthUsed g)
    else Throw (Error ("Unknown generator type: " +:+ kind)).
Proof.
  intros Hty. unfold generateSecretValue, prop, lengthUsed.
  destruct g; try discriminate; simpl in *; by rewrite Hty.
Qed.

End GeneratorFacts.

(** C5, as stated, fails for a requested length of 0, which is taken
    as no length at all (the password has 32 characters), and for a
    negative one, which raises a RangeError. *)
Lemma generator_length_counterexample :
  Generator.generateSecretValue Samples.zeros (Samples.generatorOf "password" 0) =
    Ok "aaaaaaaaaaaaaaaaaaaaaaaaaaaaaaaa" /\
  String.length "aaaaaaaaaaaaaaaaaaaaaaaaaaaaaaaa" = 32 /\
  Generator.generateSecretValue Samples.zeros (Samples.generatorOf "token" (-1)) =
    Throw RangeError.
Proof. repeat split; reflexivity. Qed.

(** C5 (amended): for a requested length L from 1 to 2^31 - 1, or L = 32
    when the generator has no length: [password] yields L characters of
    the four classes, [key] yields L characters of the three classes
    without punctuation, [token] yields the hex encoding of the L random
    bytes (2L hex digits), [string] yields their base64 encoding
    (4 * ceil(L/3) characters of the base64 alphabet and padding). *)
Theorem generator_invariants (src : Generator.RandSrc) (g : Js.JsVal) (kind : string) (L : Z) :
  Js.propV g "type" = Some (Js.JStr kind) ->
  Js.propV g "length" = Some (Js.JNum L) \/ (Js.propV g "length" = None /\ L = 32%Z) ->
  (1 <= L <= Generator.maxRandomBytes)%Z ->
  let bytes := map src (seq 0 (Z.to_nat L)) in
  let run := Generator.generateSecretValue src (Some g) in
  (kind = "password" ->
   exists s, run = Ok s /\ String.length s = Z.to_nat L /\
     charsIn (Generator.CHARSET_LOWERCASE +:+ Generator.CHARSET_UPPERCASE +:+
              Generator.CHARSET_NUMBERS +:+ Generator.CHARSET_SPECIAL) s) /\
  (kind = "key" ->
   exists s, run = Ok s /\ String.length s = Z.to_nat L /\
     charsIn (Generator.CHARSET_LOWERCASE +:+ Generator.CHARSET_UPPERCASE +:+
              Generator.CHARSET_NUMBERS) s) /\
  (kind = "token" ->
   run = Ok (Generator.toHex bytes) /\
   String.length (Generator.toHex bytes) = 2 * Z.to_nat L /\
   charsIn Generator.hexDigits (Generator.toHex bytes)) /\
  (kind = "string" ->
   run = Ok (Generator.toBase64 bytes) /\
   String.length (Generator.toBase64 bytes) = 4 * ((Z.to_nat L + 2) / 3) /\
   charsIn base64Chars (Generator.toBase64 bytes)).
Proof.
  intros Hty Hlen HL bytes run.
  assert (lengthUsed g = Js.JNum L) as Hused.
  { unfold lengthUsed. destruct Hlen as [-> | [-> ->]]; [|done].
    simpl. destruct (Z.eqb_spec L 0); [lia | done]. }
  assert (Generator.randomBytes src (Js.JNum L) = Ok bytes) as Hbytes.
  { apply randomBytes_ok. lia. }
  assert (length bytes = Z.to_nat L) as Hn by apply length_bytes.
  subst run. rewrite (generate_unfold src g kind Hty), Hused.
  split; [|split; [|split]]; intros ->; simpl String.eqb; cbv iota.
  - unfold Generator.generatePassword. rewrite Hbytes.
    eexists. split; [reflexivity|].
    rewrite <- Hn. by apply pickAll_spec.
  - unfold Generator.generateKey, Generator.generatePassword. rewrite Hbytes.
    eexists. split; [reflexivity|].
    rewrite <- Hn. by apply pickAll_spec.
  - unfold Generator.generateToken. rewrite Hbytes.
    split; [done|]. rewrite <- Hn. apply toHex_spec.
  - unfold Generator.generateBase64String. rewrite Hbytes.
    split; [done|]. rewrite <- Hn. apply toBase64_spec.
Qed.

Lemma generator_invariants_witness :
  exists s,
    Generator.generateSecretValue Samples.zeros (Samples.generatorOf "password" 5) = Ok s /\
    String.length s = 5.
Proof.
  destruct (generator_invariants Samples.zeros
              (Js.JObj [("generate", Js.JBool true); ("type", Js.JStr "password");
                        ("length", Js.JNum 5)])
              "password" 5 eq_refl (or_introl eq_refl))
    as [Hpassword _].
  - unfold Generator.maxRandomBytes. lia.
  - destruct (Hpassword eq_refl) as (s & Hrun & Hlen & _).
    exists s. split; [exact Hrun | exact Hlen].
Defined.

Section MonadFacts.
Import World.

Lemma bind_ok {A B} (m : M A) (f : A -> M B) w a w' :
  m w = (Ok a, w') -> (m ≫= f) w = f a w'.
Proof. intros H. unfold mbind, M_bind, bind. by rewrite H. Qed.

Lemma bind_throw {A B} (m : M A) (f : A -> M B) w e w' :
  m w = (Throw e, w') -> (m ≫= f) w = (Throw e, w').
Proof. intros H. unfold mbind, M_bind, bind. by rewrite H. Qed.

Lemma tryCatch_ok {A} (m : M A) h w a w' :
  m w = (Ok a, w') -> tryCatch m h w = (Ok a, w').
Proof. intros H. unfold tryCatch. by rewrite H. Qed.

Lemma tryCatch_grpc {A} (m : M A) h w c w' :
  m w = (Throw (GrpcError c), w') -> tryCatch m h w = h (GrpcError c) w'.
Proof. intros H. unfold tryCatch. by rewrite H. Qed.

Lemma after_after w b cs b' cs' : after (after w b cs) b' cs' = after w b' (cs ++ cs').
Proof. unfold after. simpl. by rewrite app_assoc. Qed.

End MonadFacts.

Section ProviderFacts.
Import Js World Provider.
Variable projectId : string.

Lemma secretIdField_defined k : definedKey k -> secretIdField k = template k.
Proof. intros [Hu Hn]. by destruct k as [[]|]. Qed.

Lemma createdName_defined k : definedKey k -> createdName projectId k = secretName projectId k.
Proof. intros Hk. unfold createdName. by rewrite secretIdField_defined. Qed.

Ltac api_run Hd Hb :=
  unfold Api.getSecret, Api.listSecretVersions, Api.createSecret, Api.addSecretVersion,
    Api.deleteSecret, Api.guard, mbind, M_bind, bind, record, getWorld, setBackend,
    ret, raise, after;
  cbn [backend denied now cluster calls]; rewrite Hd;
  cbn [backend denied now cluster calls]; rewrite Hb; reflexivity.

Lemma getSecret_present w name versions :
  denied w = false -> backend w !! name = Some versions ->
  Api.getSecret name w = (Ok tt, after w (backend w) [ApiGetSecret name]).
Proof.
  intros Hd Hb. api_run Hd Hb.
Qed.

Lemma getSecret_absent w name :
  denied w = false -> backend w !! name = None ->
  Api.getSecret name w = (Throw (GrpcError 5), after w (backend w) [ApiGetSecret name]).
Proof.
  intros Hd Hb. api_run Hd Hb.
Qed.

Lemma listSecretVersions_present w name versions n :
  denied w = false -> backend w !! name = Some versions ->
  Api.listSecretVersions name n w =
    (Ok (take n versions), after w (backend w) [ApiListSecretVersions name n]).
Proof.
  intros Hd Hb. api_run Hd Hb.
Qed.

Lemma apiCreate_absent w parent secretId :
  denied w = false -> backend w !! (parent +:+ "/secrets/" +:+ secretId) = None ->
  Api.createSecret parent secretId w =
    (Ok (parent +:+ "/secrets/" +:+ secretId),
     after w (<[parent +:+ "/secrets/" +:+ secretId := []]> (backend w))
       [ApiCreateSecret parent secretId]).
Proof.
  intros Hd Hb. api_run Hd Hb.
Qed.

Lemma apiCreate_present w parent secretId versions :
  denied w = false -> backend w !! (parent +:+ "/secrets/" +:+ secretId) = Some versions ->
  Api.createSecret parent secretId w =
    (Throw (GrpcError 6), after w (backend w) [ApiCreateSecret parent secretId]).
Proof.
  intros Hd Hb. api_run Hd Hb.
Qed.

Lemma addVersion_present w name value versions :
  denied w = false -> backend w !! name = Some versions ->
  Api.addSecretVersion name value w =
    (Ok tt, after w (<[name := versionOf w value :: versions]> (backend w))
              [ApiAddSecretVersion name value]).
Proof.
  intros Hd Hb. api_run Hd Hb.
Qed.

Lemma secretExists_present w k versions :
  denied w = false -> backend w !! secretName projectId k = Some versions ->
  secretExists projectId k w = (Ok true, after w (backend w) [ApiGetSecret (secretName projectId k)]).
Proof.
  intros Hd Hb. unfold secretExists.
  apply tryCatch_ok. by erewrite bind_ok; [|by eapply getSecret_present].
Qed.

Lemma secretExists_absent w k :
  denied w = false -> backend w !! secretName projectId k = None ->
  secretExists projectId k w = (Ok false, after w (backend w) [ApiGetSecret (secretName projectId k)]).
Proof.
  intros Hd Hb. unfold secretExists.
  rewrite (tryCatch_grpc _ _ w 5 (after w (backend w) [ApiGetSecret (secretName projectId k)]));
    [done|].
  by erewrite bind_throw; [|by eapply getSecret_absent].
Qed.

Lemma createSecret_absent w k value :
  denied w = false -> backend w !! createdName projectId k = None ->
  createSecret projectId k value w =
    (Ok tt, after w (<[createdName projectId k := [versionOf w value]]> (backend w))
              [ApiCreateSecret (parentName projectId) (secretIdField k);
               ApiAddSecretVersion (createdName projectId k) value]).
Proof.
  intros Hd Hb. unfold createSecret.
  erewrite bind_ok; [|by apply apiCreate_absent].
  fold (createdName projectId k).
  erewrite addVersion_present; [|done|simpl; apply lookup_insert_eq].
  rewrite after_after. simpl. by rewrite insert_insert_eq.
Qed.

Lemma createSecret_present w k value versions :
  denied w = false -> backend w !! createdName projectId k = Some versions ->
  createSecret projectId k value w =
    (Throw (GrpcError 6),
     after w (backend w) [ApiCreateSecret (parentName projectId) (secretIdField k)]).
Proof.
  intros Hd Hb. unfold createSecret.
  by erewrite bind_throw; [|by eapply apiCreate_present].
Qed.

Lemma updateSecret_present w k value versions :
  denied w = false -> backend w !! secretName projectId k = Some versions ->
  updateSecret projectId k value w =
    (Ok tt, after w (<[secretName projectId k := versionOf w value :: versions]> (backend w))
              [ApiAddSecretVersion (secretName projectId k) value]).
Proof. intros Hd Hb. unfold updateSecret. by eapply addVersion_present. Qed.

Lemma upsertSecret_absent w k value :
  definedKey k ->
  denied w = false -> backend w !! secretName projectId k = None ->
  upsertSecret projectId k value w =
    (Ok true, after w (<[secretName projectId k := [versionOf w value]]> (backend w))
                [ApiGetSecret (secretName projectId k);
                 ApiCreateSecret (parentName projectId) (template k);
                 ApiAddSecretVersion (secretName projectId k) value]).
Proof.
  intros Hk Hd Hb. unfold upsertSecret.
  erewrite bind_ok; [|by apply secretExists_absent]. cbv beta iota.
  erewrite bind_ok;
    [|apply createSecret_absent; [done | by rewrite createdName_defined]].
  by rewrite after_after, createdName_defined, secretIdField_defined.
Qed.

Lemma upsertSecret_present w k value versions :
  denied w = false -> backend w !! secretName projectId k = Some versions ->
  upsertSecret projectId k value w =
    (Ok false, after w (<[secretName projectId k := versionOf w value :: versions]> (backend w))
                 [ApiGetSecret (secretName projectId k);
                  ApiAddSecretVersion (secretName projectId k) value]).
Proof.
  intros Hd Hb. unfold upsertSecret.
  erewrite bind_ok; [|by eapply secretExists_present]. cbv beta iota.
  erewrite bind_ok; [|by eapply updateSecret_present].
  by rewrite after_after.
Qed.

Lemma getSecretStatus_present w k versions :
  denied w = false -> backend w !! secretName projectId k = Some versions ->
  getSecretStatus projectId k w =
    (Ok {| remoteKey := k; exists_ := true;
           lastUpdated := (fun v => createSeconds v * 1000)%Z <$> head (take 1 versions);
           versionCount := Some (length (take 1 versions)) |},
     after w (backend w)
       [ApiGetSecret (secretName projectId k);
        ApiListSecretVersions (secretName projectId k) 1]).
Proof.
  intros Hd Hb. unfold getSecretStatus.
  apply tryCatch_ok.
  erewrite bind_ok; [|by eapply getSecret_present].
  erewrite bind_ok; [|by eapply listSecretVersions_present].
  rewrite after_after. by destruct (head (take 1 versions)).
Qed.

End ProviderFacts.

(** C1 (the code departs from it): for a key absent from a backend that
    accepts the caller, the two upserts succeed, the first creating and
    the second adding a version, and the backend then holds two versions
    of the secret; the status that follows has [exists] true, but its
    [versionCount] is 1: it is the length of one page of at most one
    version. *)
Theorem upsert_twice_status (projectId : string) (w : World.World)
    (k : option Js.JsVal) (v1 v2 : string) :
  definedKey k ->
  World.denied w = false ->
  World.backend w !! Provider.secretName projectId k = None ->
  exists w1 w2 w3 st,
    Provider.upsertSecret projectId k v1 w = (Ok true, w1) /\
    Provider.upsertSecret projectId k v2 w1 = (Ok false, w2) /\
    Provider.getSecretStatus projectId k w2 = (Ok st, w3) /\
    length <$> (World.backend w3 !! Provider.secretName projectId k) = Some 2 /\
    Provider.exists_ st = true /\
    Provider.versionCount st = Some 1.
Proof.
  intros Hk Hd Hb.
  eexists _, _, _, _.
  split; [by apply upsertSecret_absent|].
  split; [apply upsertSecret_present with (versions := [versionOf w v1]);
          [done | simpl; apply lookup_insert_eq]|].
  split; [eapply getSecretStatus_present; [done | simpl; apply lookup_insert_eq]|].
  simpl. rewrite lookup_insert_eq. done.
Qed.

Lemma upsert_twice_status_witness :
  exists w1 w2 w3 st,
    Provider.upsertSecret "monobase-prod" Samples.dbKey "first" Samples.emptyWorld = (Ok true, w1) /\
    Provider.upsertSecret "monobase-prod" Samples.dbKey "second" w1 = (Ok false, w2) /\
    Provider.getSecretStatus "monobase-prod" Samples.dbKey w2 = (Ok st, w3) /\
    length <$> (World.backend w3 !! Provider.secretName "monobase-prod" Samples.dbKey) = Some 2 /\
    Provider.exists_ st = true /\
    Provider.versionCount st = Some 1.
Proof.
  apply (upsert_twice_status "monobase-prod" Samples.emptyWorld Samples.dbKey "first" "second").
  - split; discriminate.
  - reflexivity.
  - reflexivity.
Defined.

Section CliFacts.
Import Js World Cli.

Lemma discover_frame env w : snd (discoverCommand env w) = w.
Proof. unfold discoverCommand. by destruct (Nat.eqb _ 0). Qed.

Lemma check_dry_frame env w : dryRun env = true -> snd (checkCommand env w) = w.
Proof.
  intros Hdry. unfold checkCommand. rewrite Hdry.
  destruct (negb (storeConfigured env)); [done|].
  by destruct (Nat.eqb _ 0).
Qed.

Lemma generate_dry_frame env w : dryRun env = true -> snd (generateCommand env w) = w.
Proof.
  intros Hdry. unfold generateCommand. rewrite Hdry.
  destruct (negb (storeConfigured env)); [done|].
  destruct (Nat.eqb _ 0); [done|].
  simpl. unfold mbind, M_bind, bind, ret. simpl.
  destruct (Nat.eqb _ 0); [done|].
  by rewrite andb_false_r.
Qed.

Lemma seq_frame {A B} (m : M A) (k : M B) w :
  snd (m w) = w -> (forall w0, snd (k w0) = w0) -> snd ((m;; k) w) = w.
Proof.
  intros Hm Hk. unfold mbind, M_bind, bind.
  destruct (m w) as [[a|e] w1] eqn:Hrun; simpl in Hm; subst w1; [apply Hk | done].
Qed.

End CliFacts.

(** C7: in dry-run mode the whole sync workflow leaves the world as it
    found it: the backend is unchanged and no request at all is made,
    so none that mutates the backend and none that polls the cluster. *)
Theorem dry_run_frame (env : Cli.Env) (w : World.World) :
  Cli.dryRun env = true ->
  World.backend (snd (Cli.syncCommand env w)) = World.backend w /\
  World.calls (snd (Cli.syncCommand env w)) = World.calls w /\
  snd (Cli.syncCommand env w) = w.
Proof.
  intros Hdry.
  assert (snd (Cli.syncCommand env w) = w) as Hw.
  { unfold Cli.syncCommand. rewrite Hdry. simpl negb. cbv iota.
    apply seq_frame; [apply discover_frame|]. intros w1.
    apply seq_frame; [by apply check_dry_frame|]. intros w2.
    apply seq_frame; [by apply generate_dry_frame|]. intros w3. done. }
  by rewrite Hw.
Qed.

Lemma dry_run_frame_witness :
  World.backend (snd (Cli.syncCommand (Samples.env true) Samples.emptyWorld)) = ∅ /\
  World.calls (snd (Cli.syncCommand (Samples.env true) Samples.emptyWorld)) = [] /\
  snd (Cli.syncCommand (Samples.env true) Samples.emptyWorld) = Samples.emptyWorld.
Proof. apply (dry_run_frame (Samples.env true) Samples.emptyWorld). reflexivity. Defined.

Section CallFacts.
Import Js World Provider.

Lemma emits_pure {A} (r : res A) (P : list Call -> Prop) :
  P [] -> emits (fun w => (r, w)) P.
Proof. intros HP w. exists []. by rewrite app_nil_r. Qed.

Lemma emits_bind {A B} (m : M A) (f : A -> M B) (P Q R : list Call -> Prop) :
  emits m P -> (forall a, emits (f a) Q) ->
  (forall x, P x -> R x) -> (forall x y, P x -> Q y -> R (x ++ y)) ->
  emits (m ≫= f) R.
Proof.
  intros Hm Hf Hthrow Happ w. unfold mbind, M_bind, bind.
  destruct (Hm w) as (cs & Hcs & HP).
  destruct (m w) as [[a|e] w1]; simpl in Hcs.
  - destruct (Hf a w1) as (cs' & Hcs' & HQ).
    exists (cs ++ cs'). rewrite Hcs', Hcs, app_assoc. auto.
  - exists cs. auto.
Qed.

Lemma emits_tryCatch {A} (m : M A) (h : Err -> M A) (P Q R : list Call -> Prop) :
  emits m P -> (forall e, emits (h e) Q) ->
  (forall x, P x -> R x) -> (forall x y, P x -> Q y -> R (x ++ y)) ->
  emits (tryCatch m h) R.
Proof.
  intros Hm Hh Hok Happ w. unfold tryCatch.
  destruct (Hm w) as (cs & Hcs & HP).
  destruct (m w) as [[a|e] w1]; simpl in Hcs; [exists cs; auto|].
  destruct e;
    try match goal with
        | |- context [h ?e w1] =>
            destruct (Hh e w1) as (cs' & Hcs' & HQ);
            exists (cs ++ cs'); rewrite Hcs', Hcs, app_assoc; by auto
        end.
  exists cs. auto.
Qed.

Lemma emits_weaken {A} (m : M A) (P Q : list Call -> Prop) :
  emits m P -> (forall x, P x -> Q x) -> emits m Q.
Proof. intros Hm HPQ w. destruct (Hm w) as (cs & ? & ?). exists cs. auto. Qed.

Lemma reads_app x y : reads x -> reads y -> reads (x ++ y).
Proof. apply Forall_app_2. Qed.

Lemma reads_bind {A B} (m : M A) (f : A -> M B) :
  emits m reads -> (forall a, emits (f a) reads) -> emits (m ≫= f) reads.
Proof. intros Hm Hf. eapply emits_bind; eauto using reads_app. Qed.

Lemma reads_tryCatch {A} (m : M A) (h : Err -> M A) :
  emits m reads -> (forall e, emits (h e) reads) -> emits (tryCatch m h) reads.
Proof. intros Hm Hh. eapply emits_tryCatch; eauto using reads_app. Qed.

Lemma reads_ret {A} (a : A) : emits (ret a) reads.
Proof. apply emits_pure. constructor. Qed.

Lemma reads_raise {A} e : emits (@raise A e) reads.
Proof. apply emits_pure. constructor. Qed.

Lemma reads_lift {A} (r : res A) : emits (lift r) reads.
Proof. apply emits_pure. constructor. Qed.

Ltac one_call :=
  intros w;
  unfold Api.listSecrets, Api.getSecret, Api.listSecretVersions, Api.createSecret,
    Api.addSecretVersion, Api.deleteSecret, Api.guard, mbind, M_bind, bind, record,
    getWorld, setBackend, ret, raise;
  cbn [backend denied now cluster calls];
  destruct (denied w); cbn [backend denied now cluster calls fst snd];
  [eexists; split; [reflexivity|]
  |match goal with
   | |- context [backend w !! ?n] => destruct (backend w !! n)
   | _ => idtac
   end; cbn [backend denied now cluster calls fst snd]; eexists; (split; [reflexivity|])].

Lemma listSecrets_reads parent : emits (Api.listSecrets parent) reads.
Proof. one_call; by repeat constructor. Qed.

Lemma getSecret_reads name : emits (Api.getSecret name) reads.
Proof. one_call; by repeat constructor. Qed.

Lemma listSecretVersions_reads name n : emits (Api.listSecretVersions name n) reads.
Proof. one_call; by repeat constructor. Qed.

Variable projectId : string.

Lemma initialize_reads : emits (initialize projectId) reads.
Proof.
  apply reads_tryCatch; [apply listSecrets_reads|].
  intros e. destruct (isCode e 7); apply reads_raise.
Qed.

Lemma getSecretStatus_reads k : emits (getSecretStatus projectId k) reads.
Proof.
  apply reads_tryCatch.
  - apply reads_bind; [apply getSecret_reads|]. intros _.
    apply reads_bind; [apply listSecretVersions_reads|]. intros versions.
    apply reads_ret.
  - intros e. destruct (isCode e 5); [apply reads_ret | apply reads_raise].
Qed.

Lemma reads_attempt {A} (m : M A) : emits m reads -> emits (attempt m) reads.
Proof.
  intros Hm w. destruct (Hm w) as (cs & Hcs & Hr). exists cs. split; [|done].
  unfold attempt. by destruct (m w).
Qed.

Lemma statusAfterGet_reads k answer : emits (statusAfterGet projectId k answer) reads.
Proof.
  apply reads_tryCatch.
  - apply reads_bind; [apply reads_lift|]. intros _.
    apply reads_bind; [apply listSecretVersions_reads|]. intros versions.
    apply reads_ret.
  - intros e. destruct (isCode e 5); [apply reads_ret | apply reads_raise].
Qed.

Lemma startAll_reads batch : emits (startAll projectId batch) reads.
Proof.
  induction batch as [|key rest IH]; simpl; [apply reads_ret|].
  apply reads_bind; [apply reads_attempt, getSecret_reads|]. intros answer.
  apply reads_bind; [apply IH|]. intros answers. apply reads_ret.
Qed.

Lemma settleAll_reads started : emits (settleAll projectId started) reads.
Proof.
  induction started as [|[key answer] rest IH]; simpl; [apply reads_ret|].
  apply reads_bind; [apply reads_attempt, statusAfterGet_reads|]. intros outcome.
  apply reads_bind; [apply IH|]. intros outcomes. apply reads_ret.
Qed.

Lemma statusesOf_reads batch : emits (statusesOf projectId batch) reads.
Proof.
  apply reads_bind; [apply startAll_reads|]. intros started.
  apply reads_bind; [apply settleAll_reads|]. intros outcomes.
  apply reads_lift.
Qed.

Lemma checkLoop_reads fuel : forall remoteKeys results,
  emits (checkLoop projectId fuel remoteKeys results) reads.
Proof.
  induction fuel as [|fuel IH]; intros remoteKeys results.
  - destruct remoteKeys; apply reads_ret.
  - destruct remoteKeys as [|key rest]; [apply reads_ret|].
    cbn [checkLoop].
    apply reads_bind; [apply statusesOf_reads|]. intros statuses. apply IH.
Qed.

Lemma checkSecrets_reads remoteKeys : emits (checkSecrets projectId remoteKeys) reads.
Proof. apply checkLoop_reads. Qed.

Lemma createSecret_block k value w :
  exists created,
    calls (snd (createSecret projectId k value w)) = calls w ++ blockOf projectId (k, value) created /\
    fst (createSecret projectId k value w) =
      (if created then Ok tt
       else Throw (GrpcError (if denied w then 7 else 6))).
Proof.
  destruct (denied w) eqn:Hd.
  - exists false. unfold createSecret, Api.createSecret, Api.guard, mbind, M_bind, bind,
      record, getWorld, raise. cbn [backend denied now cluster calls]. rewrite Hd. done.
  - destruct (backend w !! createdName projectId k) as [versions|] eqn:Hb.
    + exists false. by erewrite createSecret_present.
    + exists true. by erewrite createSecret_absent.
Qed.

End CallFacts.

Section GenerateFacts.
Import Js World Cli.
Variable projectId : string.

Lemma createAll_blocks entries : forall created w,
  exists n oks,
    length oks = length entries /\
    fst (createAll projectId entries created w) = Ok n /\
    created <= n <= created + length entries /\
    calls (snd (createAll projectId entries created w)) =
      calls w ++ concat (zip_with (blockOf projectId) entries oks).
Proof.
  induction entries as [|[k value] rest IH]; intros created w.
  - exists created, []. simpl. rewrite app_nil_r. repeat split; lia.
  - cbn [createAll].
    destruct (createSecret_block projectId k value w) as (ok & Hcalls & Hres).
    unfold mbind, M_bind, bind at 1, tryCatch, bind, ret.
    destruct (Provider.createSecret projectId k value w) as [r w1].
    simpl in Hcalls, Hres. subst r.
    destruct ok.
    + destruct (IH (S created) w1) as (n & oks & Hlen & Hok & Hn & Hcs).
      exists n, (true :: oks). simpl. rewrite Hok, Hcs, Hcalls, <- app_assoc.
      repeat split; [by rewrite Hlen | lia | lia].
    + destruct (IH created w1) as (n & oks & Hlen & Hok & Hn & Hcs).
      exists n, (false :: oks). simpl. rewrite Hok, Hcs, Hcalls, <- app_assoc.
      repeat split; [by rewrite Hlen | lia | lia].
Qed.

Lemma createAll_writes entries created :
  emits (createAll projectId entries created) (writes projectId).
Proof.
  intros w. destruct (createAll_blocks entries created w) as (n & oks & Hlen & _ & _ & Hcs).
  eexists. split; [exact Hcs|]. by exists entries, oks.
Qed.

Lemma writes_nil : writes projectId [].
Proof. by exists [], []. Qed.

Lemma stage_of_reads cs : reads cs -> stage projectId cs.
Proof. intros H. exists cs, []. rewrite app_nil_r. auto using writes_nil. Qed.

Lemma stage_of_writes cs : writes projectId cs -> stage projectId cs.
Proof. intros H. exists [], cs. split; [done|]. split; [constructor | done]. Qed.

Lemma stage_after_reads {A B} (m : M A) (f : A -> M B) :
  emits m reads -> (forall a, emits (f a) (stage projectId)) -> emits (m ≫= f) (stage projectId).
Proof.
  intros Hm Hf. eapply emits_bind; [exact Hm | exact Hf | apply stage_of_reads |].
  intros x y Hx (rs & ws & -> & Hrs & Hws).
  exists (x ++ rs), ws. rewrite app_assoc. auto using reads_app.
Qed.

End GenerateFacts.

(** C2, as stated, fails: the generate stage never calls the upsert of
    the client.  In the sample run the three writes come after the
    batch of status checks, each as a plain create; and the loop that
    writes, run on a backend that already holds the key, fails to
    create and leaves the value unwritten, where the upsert adds a
    version. *)
Lemma generate_upsert_counterexample :
  World.calls (snd (Cli.generateCommand (Samples.env false) Samples.emptyWorld)) =
    [World.ApiListSecrets "projects/monobase-prod";
     World.ApiGetSecret "projects/monobase-prod/secrets/acme-db-password";
     World.ApiGetSecret "projects/monobase-prod/secrets/acme-api-jwt";
     World.ApiGetSecret "projects/monobase-prod/secrets/acme-api-key";
     World.ApiCreateSecret "projects/monobase-prod" "acme-db-password";
     World.ApiAddSecretVersion "projects/monobase-prod/secrets/acme-db-password" "aaaaaaaa";
     World.ApiCreateSecret "projects/monobase-prod" "acme-api-jwt";
     World.ApiAddSecretVersion "projects/monobase-prod/secrets/acme-api-jwt" "typed-by-hand";
     World.ApiCreateSecret "projects/monobase-prod" "acme-api-key";
     World.ApiAddSecretVersion "projects/monobase-prod/secrets/acme-api-key" "typed-by-hand"] /\
  (let run := Cli.createAll "monobase-prod" [(Samples.dbKey, "new")] 0 Samples.worldWithDb in
   fst run = Ok 0 /\
   World.backend (snd run) = World.backend Samples.worldWithDb /\
   World.calls (snd run) = [World.ApiCreateSecret "projects/monobase-prod" "env-db-password"]) /\
  (let run := Provider.upsertSecret "monobase-prod" Samples.dbKey "new" Samples.worldWithDb in
   fst run = Ok false /\
   World.payload <$> default [] (World.backend (snd run) !!
                       "projects/monobase-prod/secrets/env-db-password") = ["new"; "old"]).
Proof. repeat split; vm_compute; reflexivity. Qed.


Section WaitFacts.
Import Js World Validator.
Variables name namespace : string.

Lemma getExternalSecretStatus_run w :
  getExternalSecretStatus name namespace w =
    (Ok (observedAt w (now w) name namespace), polled w name namespace).
Proof. reflexivity. Qed.

Lemma waitLoop_step fuel startTime timeoutMs w :
  waitLoop (S fuel) name namespace startTime timeoutMs w =
    if (now w - startTime <? timeoutMs)%Z then
      match settle (observedAt w (now w) name namespace) with
      | Some r => (Ok (Some r), polled w name namespace)
      | None =>
          waitLoop fuel name namespace startTime timeoutMs
            (slept (polled w name namespace) pollInterval)
      end
    else (Ok (Some timedOut), w).
Proof.
  cbn [waitLoop]. unfold mbind, M_bind, bind at 1, getWorld.
  destruct (now w - startTime <? timeoutMs)%Z; [|done].
  unfold bind at 1. rewrite getExternalSecretStatus_run.
  unfold settle.
  destruct (ready _ && synced _); [done|].
  destruct (truthy _); [done|].
  reflexivity.
Qed.

Lemma waitLoop_total fuel : forall startTime timeoutMs w,
  enough fuel startTime timeoutMs w ->
  exists r w', waitLoop fuel name namespace startTime timeoutMs w = (Ok (Some r), w').
Proof.
  unfold enough, pollInterval.
  induction fuel as [|fuel IH]; intros startTime timeoutMs w [Hfuel Hpos]; [lia|].
  rewrite waitLoop_step.
  destruct (Z.ltb_spec (now w - startTime) timeoutMs) as [Hlt|Hge]; [|by eauto].
  destruct (settle _) as [r|]; [by eauto|].
  apply IH. simpl. unfold pollInterval. lia.
Qed.

Lemma waitLoop_expires fuel : forall startTime timeoutMs w0 w,
  cluster w = cluster w0 ->
  (forall j : nat,
     (now w + pollInterval * Z.of_nat j - startTime < timeoutMs)%Z ->
     settle (observedAt w0 (now w + pollInterval * Z.of_nat j) name namespace) = None) ->
  enough fuel startTime timeoutMs w ->
  exists w',
    waitLoop fuel name namespace startTime timeoutMs w = (Ok (Some timedOut), w') /\
    (timeoutMs <= now w' - startTime)%Z /\
    ((now w - startTime < timeoutMs)%Z ->
     (now w' - startTime < timeoutMs + pollInterval)%Z) /\
    ((timeoutMs <= now w - startTime)%Z -> w' = w).
Proof.
  unfold enough, pollInterval.
  induction fuel as [|fuel IH]; intros startTime timeoutMs w0 w Hcl Hnone [Hfuel Hpos]; [lia|].
  rewrite waitLoop_step.
  destruct (Z.ltb_spec (now w - startTime) timeoutMs) as [Hlt|Hge].
  - unfold observedAt. rewrite Hcl. fold (observedAt w0 (now w) name namespace).
    specialize (Hnone 0%nat) as H0.
    replace (now w + 2000 * Z.of_nat 0)%Z with (now w) in H0 by lia.
    rewrite (H0 Hlt).
    destruct (IH startTime timeoutMs w0 (slept (polled w name namespace) pollInterval))
      as (w' & Hrun & Hge & Hlt' & Hsame).
    + done.
    + intros j Hj. simpl in *. unfold pollInterval in *.
      replace (now w + 2000 + 2000 * Z.of_nat j)%Z
        with (now w + 2000 * Z.of_nat (S j))%Z in * by lia.
      by apply Hnone.
    + simpl. unfold pollInterval. lia.
    + exists w'. split; [exact Hrun|]. split; [exact Hge|]. split; [|lia].
      intros _. simpl in Hlt', Hsame. unfold pollInterval in Hlt', Hsame.
      destruct (Z.lt_ge_cases (now w + 2000 - startTime) timeoutMs) as [Hl|Hg].
      * by apply Hlt'.
      * rewrite (Hsame Hg). simpl. unfold pollInterval. lia.
  - exists w. split; [done|]. split; [lia|]. split; [lia | done].
Qed.

Lemma enough_at_start timeoutMs w : enough (waitFuel timeoutMs) (now w) timeoutMs w.
Proof.
  unfold enough, waitFuel, pollInterval. split; [|lia].
  pose proof (Z.mod_pos_bound timeoutMs 2000 eq_refl) as Hmod.
  pose proof (Z.div_mod timeoutMs 2000 ltac:(lia)) as Hdiv.
  destruct (Z.le_gt_cases 0 timeoutMs) as [Hnn|Hneg].
  - assert (0 <= timeoutMs / 2000)%Z by (apply Z.div_pos; lia). lia.
  - lia.
Qed.

Lemma wait_unfold timeoutMs w :
  waitForExternalSecretSync name namespace timeoutMs w =
    waitLoop (waitFuel (default 60000%Z timeoutMs)) name namespace (now w)
      (default 60000%Z timeoutMs) w.
Proof. reflexivity. Qed.

End WaitFacts.

Section StatusFacts.
Import Js Validator.

(** A status that is ready and synced carries no error message. *)
Lemma converged_no_error name namespace output :
  let st := statusOfOutput name namespace output in
  ready st && synced st = true -> errorMessage st = None.
Proof.
  intros st. subst st. unfold statusOfOutput.
  destruct output as [externalSecret|]; [|done].
  destruct (statusOfObject name namespace externalSecret) as [st|] eqn:Hst; [|done].
  unfold statusOfObject in Hst.
  destruct (prop (Some externalSecret) "status") as [status0|]; [|done].
  simpl in Hst.
  destruct (orElse (propV (orElse status0 (JObj [])) "conditions") (JArr []));
    try discriminate.
  destruct (findType "Ready" items) as [readyCondition|]; [|done]. simpl in Hst.
  destruct (findType "SecretSynced" items) as [syncedCondition|]; [|done]. simpl in Hst.
  destruct (mapConditions items) as [conds|]; [|done]. simpl in Hst.
  injection Hst as <-. simpl.
  intros [-> ->]%andb_true_iff. done.
Qed.

End StatusFacts.

Section WaitOrder.
Import Js World Validator.
Variables name namespace : string.

Lemma waitLoop_first (i : nat) : forall fuel startTime timeoutMs w0 w r,
  cluster w = cluster w0 ->
  enough fuel startTime timeoutMs w ->
  (forall j : nat, j < i ->
     settle (observedAt w0 (now w + pollInterval * Z.of_nat j) name namespace) = None) ->
  (now w + pollInterval * Z.of_nat i - startTime < timeoutMs)%Z ->
  settle (observedAt w0 (now w + pollInterval * Z.of_nat i) name namespace) = Some r ->
  exists w',
    waitLoop fuel name namespace startTime timeoutMs w = (Ok (Some r), w') /\
    now w' = (now w + pollInterval * Z.of_nat i)%Z.
Proof.
  unfold enough, pollInterval.
  induction i as [|i IH]; intros fuel startTime timeoutMs w0 w r Hcl [Hfuel Hpos] Hnone Hin Hr;
    (destruct fuel as [|fuel]; [lia|]); rewrite waitLoop_step;
    (destruct (Z.ltb_spec (now w - startTime) timeoutMs) as [Hlt|Hge]; [|lia]);
    unfold observedAt; rewrite Hcl; fold (observedAt w0 (now w) name namespace).
  - replace (now w + 2000 * Z.of_nat 0)%Z with (now w) in Hr by lia.
    rewrite Hr. eexists. split; [reflexivity|]. simpl. lia.
  - specialize (Hnone 0%nat ltac:(lia)) as H0.
    replace (now w + 2000 * Z.of_nat 0)%Z with (now w) in H0 by lia.
    rewrite H0.
    destruct (IH fuel startTime timeoutMs w0
                (slept (polled w name namespace) pollInterval) r) as (w' & Hrun & Hnow).
    + done.
    + simpl. unfold pollInterval. lia.
    + intros j Hj. simpl. unfold pollInterval.
      specialize (Hnone (S j) ltac:(lia)).
      replace (now w + 2000 + 2000 * Z.of_nat j)%Z
        with (now w + 2000 * Z.of_nat (S j))%Z by lia.
      exact Hnone.
    + simpl. unfold pollInterval. lia.
    + simpl. unfold pollInterval.
      replace (now w + 2000 + 2000 * Z.of_nat i)%Z
        with (now w + 2000 * Z.of_nat (S i))%Z by lia.
      exact Hr.
    + exists w'. split; [exact Hrun|]. rewrite Hnow. simpl. unfold pollInterval. lia.
Qed.

End WaitOrder.

(** C3, as stated, fails: the timeout is the guard of the loop and is
    tested before any poll.  With a timeout of 0 the object with an
    error message and the converged object both give the timeout
    result, and the cluster is not asked. *)
Lemma wait_priority_counterexample :
  Validator.w_error <$>
    settle (observedAt (Samples.worldShowing Samples.failingObject) 0 "db-credentials" "default")
    = Some (Some (Js.JStr "could not get secret data from provider")) /\
  Validator.waitForExternalSecretSync "db-credentials" "default" (Some 0%Z)
    (Samples.worldShowing Samples.failingObject)
    = (Ok (Some Validator.timedOut), Samples.worldShowing Samples.failingObject) /\
  Validator.w_ready <$>
    settle (observedAt (Samples.worldShowing Samples.convergedObject) 0 "db-credentials" "default")
    = Some true /\
  Validator.waitForExternalSecretSync "db-credentials" "default" (Some 0%Z)
    (Samples.worldShowing Samples.convergedObject)
    = (Ok (Some Validator.timedOut), Samples.worldShowing Samples.convergedObject).
Proof. repeat split; reflexivity. Qed.

(** C3 (amended): the wait always returns.  Its exits are tested in the
    order timeout, both conditions true, error message: with a timeout
    that is not positive it gives the timeout result without a poll;
    otherwise it returns at the first poll, taken every 2 seconds while
    the time elapsed is less than the timeout, whose status is ready and
    synced (synced and ready true) or carries an error message (that
    message); when none of those polls settles it gives the timeout
    result, once the timeout has elapsed and less than 2 seconds after,
    whatever the object shows from the deadline on.  A status that is
    ready and synced never carries an error message, so the order of
    those two tests does not show. *)
Theorem wait_exit_order (name namespace : string) (timeoutMs : option Z) (w : World.World) :
  let T := default 60000%Z timeoutMs in
  let run := Validator.waitForExternalSecretSync name namespace timeoutMs w in
  (exists r w', run = (Ok (Some r), w')) /\
  ((T <= 0)%Z -> run = (Ok (Some Validator.timedOut), w)) /\
  (forall (i : nat) r,
     (forall j : nat, j < i ->
        settle (observedAt w (World.now w + Validator.pollInterval * Z.of_nat j) name namespace)
        = None) ->
     (Validator.pollInterval * Z.of_nat i < T)%Z ->
     settle (observedAt w (World.now w + Validator.pollInterval * Z.of_nat i) name namespace)
     = Some r ->
     exists w', run = (Ok (Some r), w') /\
       World.now w' = (World.now w + Validator.pollInterval * Z.of_nat i)%Z) /\
  ((forall j : nat,
      (Validator.pollInterval * Z.of_nat j < T)%Z ->
      settle (observedAt w (World.now w + Validator.pollInterval * Z.of_nat j) name namespace)
      = None) ->
   exists w', run = (Ok (Some Validator.timedOut), w') /\
     (T <= World.now w' - World.now w)%Z /\
     ((0 < T)%Z -> (World.now w' - World.now w < T + Validator.pollInterval)%Z)) /\
  (forall output,
     let st := Validator.statusOfOutput name namespace output in
     Validator.ready st && Validator.synced st = true -> Validator.errorMessage st = None).
Proof.
  intros T run. subst run. rewrite wait_unfold. fold T.
  pose proof (enough_at_start T w) as Hfuel.
  split; [by apply waitLoop_total|].
  split.
  { intros HT. destruct Hfuel as [_ Hpos].
    destruct (Validator.waitFuel T) as [|fuel]; [lia|].
    rewrite waitLoop_step.
    destruct (Z.ltb_spec (World.now w - World.now w) T); [lia | done]. }
  split.
  { intros i r Hnone Hin Hr.
    apply (waitLoop_first name namespace i _ _ _ w w r); try done. lia. }
  split.
  { intros Hnone.
    destruct (waitLoop_expires name namespace (Validator.waitFuel T) (World.now w) T w w)
      as (w' & Hrun & Hge & Hlt & _); [done | | done |].
    - intros j Hj. apply Hnone. lia.
    - exists w'. split; [exact Hrun|]. split; [exact Hge|]. intros HT. apply Hlt. lia. }
  intros output. apply converged_no_error.
Qed.

Lemma wait_exit_order_witness :
  (exists w',
     Validator.waitForExternalSecretSync "db-credentials" "default" None
       (Samples.worldShowing Samples.convergedObject)
     = (Ok (Some {| Validator.w_synced := true; Validator.w_ready := true;
                    Validator.w_error := None |}), w') /\
     World.now w' = 0%Z) /\
  (exists w',
     Validator.waitForExternalSecretSync "db-credentials" "default" (Some 2000%Z)
       (Samples.worldConvergingAt 2000)
     = (Ok (Some Validator.timedOut), w') /\
     (2000 <= World.now w')%Z).
Proof.
  split.
  - destruct (wait_exit_order "db-credentials" "default" None
                (Samples.worldShowing Samples.convergedObject)) as (_ & _ & Hfirst & _).
    destruct (Hfirst 0%nat
                {| Validator.w_synced := true; Validator.w_ready := true;
                   Validator.w_error := None |}) as (w' & Hrun & Hnow).
    + intros j Hj. lia.
    + reflexivity.
    + reflexivity.
    + exists w'. split; [exact Hrun | exact Hnow].
  - destruct (wait_exit_order "db-credentials" "default" (Some 2000%Z)
                (Samples.worldConvergingAt 2000)) as (_ & _ & _ & Hexpires & _).
    destruct Hexpires as (w' & Hrun & Hfrom & _).
    + intros [|j] Hj; [reflexivity|].
      unfold Validator.pollInterval in Hj. simpl default in Hj. lia.
    + exists w'. split; [exact Hrun|].
      simpl in Hfrom. lia.
Defined.

Section OMapFacts.
Context {V : Type}.
Implicit Types (m acc items : list (string * V)) (k : string) (v : V) (kv : string * V).

Local Abbreviation get := (OMap.get String.eqb).
Local Abbreviation set := (OMap.set String.eqb).

Lemma get_set_eq k v m : get k (set k v m) = Some v.
Proof.
  induction m as [|[k' v'] m IH]; simpl.
  - by rewrite String.eqb_refl.
  - destruct (String.eqb k k') eqn:Hk; simpl; by rewrite Hk.
Qed.

Lemma get_set_ne k k' v m : k <> k' -> get k' (set k v m) = get k' m.
Proof.
  intros Hne. induction m as [|[k0 v0] m IH]; simpl.
  - destruct (String.eqb_spec k' k); [congruence | done].
  - destruct (String.eqb_spec k k0) as [->|Hk0]; simpl.
    + destruct (String.eqb_spec k' k0); [congruence | done].
    + destruct (String.eqb k' k0); [done | exact IH].
Qed.



Lemma set_keys_fresh k v m : get k m = None -> map fst (set k v m) = map fst m ++ [k].
Proof.
  induction m as [|[k' v'] m IH]; simpl; [done|].
  destruct (String.eqb k k'); [done|]. intros Hm. simpl. by rewrite IH.
Qed.

Lemma set_keys_present k v m : is_Some (get k m) -> map fst (set k v m) = map fst m.
Proof.
  induction m as [|[k' v'] m IH]; simpl; [by intros [? ?]|].
  destruct (String.eqb k k'); [done|]. intros Hm. simpl. by rewrite IH.
Qed.

Lemma get_none_keys k m : get k m = None -> k ∉ map fst m.
Proof.
  induction m as [|[k' v'] m IH]; simpl; [intros _; apply not_elem_of_nil|].
  destruct (String.eqb_spec k k') as [->|Hne]; [done|].
  intros Hm. apply not_elem_of_cons. auto.
Qed.

Lemma set_keys_nodup k v m : NoDup (map fst m) -> NoDup (map fst (set k v m)).
Proof.
  intros Hnd. destruct (get k m) as [v0|] eqn:Hget.
  - by rewrite set_keys_present.
  - rewrite set_keys_fresh by done. apply NoDup_app. split; [done|].
    split; [|apply NoDup_singleton].
    intros x Hx Hx'. apply list_elem_of_singleton in Hx'. subst x.
    by apply get_none_keys in Hget.
Qed.


Variable wt : V -> nat.

Lemma weigh_set_fresh k v m : get k m = None -> weigh wt (set k v m) = weigh wt m + wt v.
Proof.
  unfold weigh. induction m as [|[k' v'] m IH]; simpl; [lia|].
  destruct (String.eqb k k'); [done|]. intros Hm. simpl. rewrite IH by done. lia.
Qed.

Lemma weigh_set_present k v v0 m :
  get k m = Some v0 -> weigh wt (set k v m) + wt v0 = weigh wt m + wt v.
Proof.
  unfold weigh. induction m as [|[k' v'] m IH]; simpl; [done|].
  destruct (String.eqb k k'); simpl.
  - intros [= ->]. lia.
  - intros Hm. specialize (IH Hm). lia.
Qed.










End OMapFacts.

Section SplitFacts.

Lemma split_nonempty c s : Str.split c s <> [].
Proof.
  destruct s as [|a s]; simpl; [done|].
  destruct (Ascii.eqb a c); [done|]. by destruct (Str.split c s).
Qed.

(** Splitting at a separator that is there: the pieces before it,
    then the pieces after it. *)
Lemma split_app c a b :
  Str.split c (a +:+ String c b) = Str.split c a ++ Str.split c b.
Proof.
  induction a as [|x a IH]; simpl.
  - by rewrite Ascii.eqb_refl.
  - rewrite IH. destruct (Ascii.eqb x c); [done|].
    pose proof (split_nonempty c a). by destruct (Str.split c a).
Qed.


Lemma append_inj_r a b c : a +:+ b = a +:+ c -> b = c.
Proof. induction a as [|x a IH]; simpl; [done|]. intros [= H]. auto. Qed.

End SplitFacts.

Section GroupFacts.
Import Js World Validator.

Local Abbreviation get := (OMap.get String.eqb).

Lemma groupSecrets_snoc secrets secret :
  groupSecrets (secrets ++ [secret]) = addToGroup (groupSecrets secrets) secret.
Proof. unfold groupSecrets. by rewrite fold_left_app. Qed.




Lemma groupSecrets_nodup secrets : NoDup (map fst (groupSecrets secrets)).
Proof.
  induction secrets as [|secret secrets IH] using rev_ind; [constructor|].
  rewrite groupSecrets_snoc. unfold addToGroup. by apply set_keys_nodup.
Qed.









End GroupFacts.

Section OverwriteFacts.
Import Js World Validator.









End OverwriteFacts.


Section FirstsFacts.
  Implicit Types (l : list string) (x k : string).



End FirstsFacts.

Section OverwriteMore.
Context {V : Type}.
Implicit Types (m acc items : list (string * V)) (k : string) (v : V).
Local Abbreviation get := (OMap.get String.eqb).
Local Abbreviation set := (OMap.set String.eqb).






End OverwriteMore.

Section GroupsOfFacts.
Import Js World Validator.
Local Abbreviation get := (OMap.get String.eqb).









End GroupsOfFacts.



Section KeyFacts.
Import Js.

Lemma eqb_sound : forall a b, eqb a b = true -> a = b.
Proof.
  fix IH 1. intros a b. destruct a, b; simpl; try discriminate.
  - done.
  - intros H. apply Bool.eqb_prop in H. by subst.
  - intros H. apply Z.eqb_eq in H. by subst.
  - intros H. apply String.eqb_eq in H. by subst.
  - revert items0. induction items as [|x xs IHxs]; intros [|y ys]; try discriminate.
    + done.
    + intros H. apply andb_true_iff in H as [Hxy Hrest].
      apply IH in Hxy. subst y.
      specialize (IHxs ys Hrest). by injection IHxs as ->.
  - revert fields0. induction fields as [|[k x] xs IHxs]; intros [|[k' y] ys];
      try discriminate.
    + done.
    + intros H. apply andb_true_iff in H as [H Hrest].
      apply andb_true_iff in H as [Hk Hxy].
      apply String.eqb_eq in Hk. apply IH in Hxy. subst k' y.
      specialize (IHxs ys Hrest). by injection IHxs as ->.
Qed.

Lemma eqb_refl : forall a, eqb a a = true.
Proof.
  fix IH 1. intros a. destruct a; simpl.
  - done.
  - by destruct b.
  - apply Z.eqb_refl.
  - apply String.eqb_refl.
  - induction items as [|x xs IHxs]; [done|]. by rewrite IH, IHxs.
  - induction fields as [|[k x] xs IHxs]; [done|].
    by rewrite String.eqb_refl, IH, IHxs.
Qed.

Lemma keyEqb_eq a b : keyEqb a b = true <-> a = b.
Proof.
  split.
  - destruct a, b; simpl; try discriminate; [|done].
    intros H. apply eqb_sound in H. by subst.
  - intros <-. destruct a; [apply eqb_refl | done].
Qed.

Lemma keyEqb_spec a b : reflect (a = b) (keyEqb a b).
Proof. apply iff_reflect. symmetry. apply keyEqb_eq. Qed.

End KeyFacts.

Section KeyedMapFacts.
Context {V : Type}.
Implicit Types (m : list (option Js.JsVal * V)) (k : option Js.JsVal) (v : V).
Local Abbreviation kget := (OMap.get Js.keyEqb).
Local Abbreviation kset := (OMap.set Js.keyEqb).

Lemma kget_set k k' v m :
  kget k (kset k' v m) = if Js.keyEqb k k' then Some v else kget k m.
Proof.
  induction m as [|[k0 v0] m IH]; simpl; [done|].
  destruct (keyEqb_spec k' k0) as [<-|H0]; simpl.
  - by destruct (Js.keyEqb k k').
  - rewrite IH. destruct (keyEqb_spec k k0) as [<-|Hk0]; [|done].
    by destruct (keyEqb_spec k k').
Qed.

Lemma kset_keys k v m :
  map fst (kset k v m) =
    match kget k m with Some _ => map fst m | None => map fst m ++ [k] end.
Proof.
  induction m as [|[k0 v0] m IH]; simpl; [done|].
  destruct (keyEqb_spec k k0) as [<-|H0]; simpl; [done|].
  rewrite IH. by destruct (kget k m).
Qed.

Lemma kget_none k m : kget k m = None <-> k ∉ map fst m.
Proof.
  induction m as [|[k0 v0] m IH]; simpl.
  - split; [intros _; apply not_elem_of_nil | done].
  - rewrite not_elem_of_cons, <- IH.
    destruct (keyEqb_spec k k0); intuition congruence.
Qed.

Lemma kget_some k m : is_Some (kget k m) <-> k ∈ map fst m.
Proof.
  induction m as [|[k0 v0] m IH]; simpl.
  - split; [by intros [? ?] | by intros ?%elem_of_nil].
  - rewrite elem_of_cons, <- IH.
    destruct (keyEqb_spec k k0); [|intuition congruence].
    split; [by left | eauto].
Qed.

Lemma kset_nodup k v m : NoDup (map fst m) -> NoDup (map fst (kset k v m)).
Proof.
  intros Hnd. rewrite kset_keys. destruct (kget k m) eqn:Hget; [done|].
  apply NoDup_app. split; [done|]. split; [|apply NoDup_singleton].
  intros x Hx Hx'%list_elem_of_singleton. subst x. by apply kget_none in Hget.
Qed.

Lemma kset_elem_of k v m x : x ∈ map fst (kset k v m) <-> x ∈ map fst m \/ x = k.
Proof.
  rewrite kset_keys. destruct (kget k m) eqn:Hget.
  - split; [by left|]. intros [Hx| ->]; [done|].
    apply kget_some. rewrite Hget. eauto.
  - rewrite elem_of_app, list_elem_of_singleton. tauto.
Qed.

End KeyedMapFacts.

Section StatusRun.
Import Js World Provider.
Variable projectId : string.

Lemma present_some w k versions :
  backend w !! secretName projectId k = Some versions -> present projectId w k = true.
Proof. intros Hb. unfold present. apply bool_decide_eq_true. eauto. Qed.

Lemma present_none w k :
  backend w !! secretName projectId k = None -> present projectId w k = false.
Proof. intros Hb. unfold present. apply bool_decide_eq_false. rewrite Hb. by intros [? ?]. Qed.

Lemma after_same w : after w (backend w) [] = w.
Proof. unfold after. rewrite app_nil_r. by destruct w. Qed.

Lemma bind_attempt {A B} (m : M A) (f : res A -> M B) w :
  (attempt m ≫= f) w = f (m w).1 (m w).2.
Proof. unfold mbind, M_bind, bind, attempt. by destruct (m w). Qed.

Lemma startAll_run batch : forall w,
  denied w = false ->
  startAll projectId batch w =
    (Ok (map (fun k => (k, answerFor projectId w k)) batch),
     after w (backend w) (map (fun k => ApiGetSecret (secretName projectId k)) batch)).
Proof.
  induction batch as [|key rest IH]; intros w Hd.
  - simpl. by rewrite after_same.
  - cbn [startAll map]. rewrite bind_attempt.
    destruct (backend w !! secretName projectId key) as [versions|] eqn:Hb.
    + erewrite getSecret_present by done. cbn [fst snd].
      erewrite bind_ok; [|by apply IH].
      unfold ret. rewrite after_after.
      assert (answerFor projectId w key = Ok tt) as ->
        by (unfold answerFor; by erewrite present_some).
      reflexivity.
    + erewrite getSecret_absent by done. cbn [fst snd].
      erewrite bind_ok; [|by apply IH].
      unfold ret. rewrite after_after.
      assert (answerFor projectId w key = Throw (GrpcError 5)) as ->
        by (unfold answerFor; by rewrite present_none).
      reflexivity.
Qed.

(** [getSecretStatus] is its lookup followed by what it does with the
    answer. *)
Lemma getSecretStatus_split k w :
  getSecretStatus projectId k w =
    statusAfterGet projectId k (Api.getSecret (secretName projectId k) w).1
      (Api.getSecret (secretName projectId k) w).2.
Proof.
  unfold getSecretStatus, statusAfterGet, tryCatch, mbind, M_bind, bind, lift.
  by destruct (Api.getSecret (secretName projectId k) w) as [[[]|e] w1].
Qed.

Lemma statusAfterGet_run w0 w k :
  denied w = false -> backend w = backend w0 ->
  statusAfterGet projectId k (answerFor projectId w0 k) w =
    (Ok (statusFor projectId w0 k),
     after w (backend w)
       (if present projectId w0 k
        then [ApiListSecretVersions (secretName projectId k) 1] else [])).
Proof.
  intros Hd Hb. unfold statusAfterGet, answerFor, statusFor.
  destruct (backend w0 !! secretName projectId k) as [versions|] eqn:Hk.
  - rewrite (present_some _ _ _ Hk). apply tryCatch_ok.
    erewrite bind_ok; [|reflexivity].
    erewrite bind_ok; [|apply listSecretVersions_present; [done | by rewrite Hb]].
    unfold ret. by destruct (head (take 1 versions)).
  - rewrite (present_none _ _ Hk). by rewrite after_same.
Qed.

Lemma settleAll_run w0 batch : forall w,
  denied w = false -> backend w = backend w0 ->
  settleAll projectId (map (fun k => (k, answerFor projectId w0 k)) batch) w =
    (Ok (map (fun k => Ok (statusFor projectId w0 k)) batch),
     after w (backend w)
       (flat_map (fun k => if present projectId w0 k
                           then [ApiListSecretVersions (secretName projectId k) 1]
                           else []) batch)).
Proof.
  induction batch as [|key rest IH]; intros w Hd Hb.
  - simpl. by rewrite after_same.
  - cbn [map settleAll]. rewrite bind_attempt.
    rewrite (statusAfterGet_run w0) by done. cbn [fst snd].
    erewrite bind_ok; [|by apply IH]. unfold ret. by rewrite after_after.
Qed.

Lemma allOf_ok {A} (l : list A) : allOf (map Ok l) = Ok l.
Proof. induction l as [|a l IH]; simpl; [done|]. by rewrite IH. Qed.

Lemma statusesOf_run batch w :
  denied w = false ->
  statusesOf projectId batch w =
    (Ok (map (statusFor projectId w) batch),
     after w (backend w) (batchCalls projectId w batch)).
Proof.
  intros Hd. unfold statusesOf.
  erewrite bind_ok; [|by apply startAll_run].
  erewrite bind_ok; [|by apply (settleAll_run w)].
  rewrite <- (map_map (statusFor projectId w) Ok), allOf_ok.
  unfold lift. by rewrite after_after.
Qed.

Lemma batchCalls_reads w batch : reads (batchCalls projectId w batch).
Proof.
  unfold batchCalls, reads. apply Forall_app. split.
  - apply Forall_forall. by intros c (k & -> & _)%list_elem_of_fmap.
  - induction batch as [|k rest IH]; simpl; [constructor|].
    apply Forall_app. split; [|done]. destruct (present projectId w k); by repeat constructor.
Qed.

Lemma statuses_setAll_app statuses statuses' results :
  Provider.setAll (statuses ++ statuses') results =
    Provider.setAll statuses' (Provider.setAll statuses results).
Proof. unfold Provider.setAll. apply fold_left_app. Qed.

Lemma batchesCalls_after fuel w cs : forall remoteKeys,
  batchesCalls fuel projectId (after w (backend w) cs) remoteKeys =
    batchesCalls fuel projectId w remoteKeys.
Proof.
  induction fuel as [|fuel IH]; intros remoteKeys; [done|].
  destruct remoteKeys as [|key rest]; [done|].
  cbn [batchesCalls]. by rewrite IH.
Qed.

Lemma checkLoop_run fuel : forall remoteKeys results w,
  denied w = false ->
  length remoteKeys <= fuel ->
  checkLoop projectId fuel remoteKeys results w =
    (Ok (Provider.setAll (map (statusFor projectId w) remoteKeys) results),
     after w (backend w) (batchesCalls fuel projectId w remoteKeys)).
Proof.
  induction fuel as [|fuel IH]; intros remoteKeys results w Hd Hlen.
  - destruct remoteKeys; [|simpl in Hlen; lia]. simpl. by rewrite after_same.
  - destruct remoteKeys as [|key rest]; [simpl; by rewrite after_same|].
    cbn [checkLoop batchesCalls].
    erewrite bind_ok; [|by apply statusesOf_run].
    rewrite IH; [|done|].
    2:{ rewrite length_drop. unfold CONCURRENCY. simpl in *. lia. }
    rewrite after_after, batchesCalls_after.
    change (statusFor projectId (after w (backend w) ?cs)) with (statusFor projectId w).
    rewrite <- statuses_setAll_app, <- map_app, take_drop. reflexivity.
Qed.

Lemma checkSecrets_run remoteKeys w :
  denied w = false ->
  checkSecrets projectId remoteKeys w =
    (Ok (Provider.setAll (map (statusFor projectId w) remoteKeys) []),
     after w (backend w) (checkCalls projectId w remoteKeys)).
Proof. intros Hd. by apply checkLoop_run. Qed.

Lemma statusFor_key w k : remoteKey (statusFor projectId w k) = k.
Proof. unfold statusFor. by destruct (backend w !! secretName projectId k). Qed.

Lemma statusFor_exists w k : exists_ (statusFor projectId w k) = present projectId w k.
Proof.
  unfold statusFor.
  destruct (backend w !! secretName projectId k) eqn:Hb; simpl; symmetry.
  - by eapply present_some.
  - by apply present_none.
Qed.

(** The map that [checkSecrets] builds holds, for every key it was
    given, the status of that key. *)
Lemma setAll_lookup w k keys : forall results,
  OMap.get keyEqb k (Provider.setAll (map (statusFor projectId w) keys) results) =
    if existsb (keyEqb k) keys then Some (statusFor projectId w k)
    else OMap.get keyEqb k results.
Proof.
  induction keys as [|key rest IH] using rev_ind; intros results; [done|].
  rewrite map_app, statuses_setAll_app. simpl. rewrite existsb_app. simpl.
  rewrite statusFor_key, kget_set, IH.
  destruct (keyEqb_spec k key) as [<-|Hk].
  - by rewrite !orb_true_r.
  - by rewrite !orb_false_r.
Qed.

Lemma missingOf_missingAt w secrets :
  Cli.missingOf
    (Provider.setAll (map (statusFor projectId w) (map Scanner.remoteKey secrets)) []) secrets =
  missingAt projectId w secrets.
Proof.
  unfold Cli.missingOf, missingAt.
  set (statuses := Provider.setAll _ []).
  assert (forall s, In s secrets ->
            Cli.statusExists statuses (Scanner.remoteKey s) =
              present projectId w (Scanner.remoteKey s)) as Hall.
  { intros s Hs. unfold Cli.statusExists. subst statuses. rewrite setAll_lookup.
    assert (existsb (keyEqb (Scanner.remoteKey s)) (map Scanner.remoteKey secrets) = true)
      as ->.
    { apply existsb_exists. exists (Scanner.remoteKey s).
      split; [by apply in_map | by apply keyEqb_eq]. }
    apply statusFor_exists. }
  clearbody statuses. induction secrets as [|s secrets IH]; [done|].
  simpl. rewrite Hall by by left. rewrite IH; [done|].
  intros s' Hs'. apply Hall. by right.
Qed.

Lemma initialize_run w :
  denied w = false ->
  Cli.initializeOrExit projectId w =
    (Ok tt, after w (backend w) [ApiListSecrets (parentName projectId)]).
Proof.
  intros Hd. unfold Cli.initializeOrExit, initialize.
  apply tryCatch_ok, tryCatch_ok.
  unfold Api.listSecrets, Api.guard, mbind, M_bind, bind, record, getWorld, ret, after.
  cbn [backend denied now cluster calls]. by rewrite Hd.
Qed.

End StatusRun.

Section CreateRun.
Import Js World Provider Cli.
Variable projectId : string.

Lemma creations_length w entries : forall b,
  length (creations projectId w entries b).1 = length entries.
Proof.
  induction entries as [|entry rest IH]; intros b; [done|]. simpl.
  destruct (b !! createdName projectId entry.1).
  - specialize (IH b). destruct (creations projectId w rest b). simpl in *. by rewrite IH.
  - specialize (IH (<[createdName projectId entry.1 := [versionOf w entry.2]]> b)).
    destruct (creations projectId w rest _). simpl in *. by rewrite IH.
Qed.

Lemma createAll_run entries : forall created w0 w,
  denied w = false -> now w = now w0 ->
  createAll projectId entries created w =
    (Ok (created + length (List.filter id (creations projectId w0 entries (backend w)).1)),
     after w (creations projectId w0 entries (backend w)).2
       (concat (zip_with (blockOf projectId) entries
                  (creations projectId w0 entries (backend w)).1))).
Proof.
  induction entries as [|[k value] rest IH]; intros created w0 w Hd Hnow.
  - simpl. rewrite Nat.add_0_r. unfold ret. by rewrite after_same.
  - cbn [createAll creations fst snd].
    destruct (backend w !! createdName projectId k) as [versions|] eqn:Hb.
    + erewrite bind_ok.
      2:{ unfold tryCatch. erewrite bind_throw; [|by eapply createSecret_present].
          reflexivity. }
      rewrite (IH created w0) by done. cbn [backend after].
      destruct (creations projectId w0 rest (backend w)) as [oks b'].
      cbn [fst snd]. rewrite after_after. reflexivity.
    + erewrite bind_ok.
      2:{ apply tryCatch_ok. erewrite bind_ok; [|by apply createSecret_absent].
          reflexivity. }
      rewrite (IH (S created) w0) by done. cbn [backend after].
      unfold versionOf. rewrite Hnow. fold (versionOf w0 value).
      destruct (creations projectId w0 rest _) as [oks b'].
      cbn [fst snd zip_with concat List.filter id length]. rewrite after_after.
      do 2 f_equal. lia.
Qed.

End CreateRun.

Section ValuesFacts.
Import Js World Provider Cli.
Local Abbreviation kget := (OMap.get keyEqb).

Lemma wantsGenerate_truthy s : Scanner.wantsGenerate s = true -> truthy (Scanner.generator s) = true.
Proof.
  unfold Scanner.wantsGenerate. by destruct (Scanner.generator s) as [[]|].
Qed.

Lemma promptAll_keys env l : forall acc x,
  x ∈ map fst (promptAll env l acc) <-> x ∈ map fst acc \/ x ∈ map Scanner.remoteKey l.
Proof.
  unfold promptAll. induction l as [|s l IH]; intros acc x; simpl.
  - rewrite elem_of_nil. tauto.
  - rewrite IH, kset_elem_of, elem_of_cons. tauto.
Qed.

Lemma promptAll_nodup env l : forall acc,
  NoDup (map fst acc) -> NoDup (map fst (promptAll env l acc)).
Proof.
  unfold promptAll. induction l as [|s l IH]; intros acc Hnd; simpl; [done|].
  by apply IH, kset_nodup.
Qed.

Lemma generateAll_keys env l : forall i acc out x,
  Forall (fun s => Scanner.wantsGenerate s = true) l ->
  generateAll env i l acc = Ok out ->
  x ∈ map fst out <-> x ∈ map fst acc \/ x ∈ map Scanner.remoteKey l.
Proof.
  induction l as [|s l IH]; intros i acc out x Hall Hrun; simpl in *.
  - injection Hrun as <-. rewrite elem_of_nil. tauto.
  - inversion Hall as [|? ? Hs Hl]; subst.
    rewrite (wantsGenerate_truthy s Hs) in Hrun.
    destruct (Generator.generateSecretValue _ _) as [value|]; [|done]. simpl in Hrun.
    rewrite (IH _ _ _ x Hl Hrun), kset_elem_of, elem_of_cons. tauto.
Qed.

Lemma generateAll_nodup env l : forall i acc out,
  generateAll env i l acc = Ok out ->
  NoDup (map fst acc) -> NoDup (map fst out).
Proof.
  induction l as [|s l IH]; intros i acc out Hrun Hnd; simpl in *.
  - by injection Hrun as <-.
  - destruct (truthy (Scanner.generator s)); [|by eapply IH].
    destruct (Generator.generateSecretValue _ _) as [value|]; [|done]. simpl in Hrun.
    eapply IH; [exact Hrun|]. by apply kset_nodup.
Qed.

Lemma filter_all {A} (p : A -> bool) l : Forall (fun x => p x = true) (List.filter p l).
Proof.
  apply Forall_forall. intros x Hx%list_elem_of_In. by apply List.filter_In in Hx as [_ Hx].
Qed.

Lemma filter_keys {A B} (f : A -> B) (p : A -> bool) l x :
  x ∈ map f l <->
  x ∈ map f (List.filter p l) \/ x ∈ map f (List.filter (fun a => negb (p a)) l).
Proof.
  rewrite !list_elem_of_fmap. split.
  - intros (a & -> & Ha%list_elem_of_In). destruct (p a) eqn:Hp.
    + left. exists a. split; [done|]. apply list_elem_of_In, List.filter_In. auto.
    + right. exists a. split; [done|]. apply list_elem_of_In, List.filter_In.
      by rewrite Hp.
  - intros [(a & -> & Ha%list_elem_of_In)|(a & -> & Ha%list_elem_of_In)];
      apply List.filter_In in Ha as [Ha _]; exists a; by rewrite list_elem_of_In.
Qed.

(** The values to store have one entry per key of a missing
    descriptor. *)
Lemma valuesFor_keys env missing entries :
  valuesFor env missing = Ok entries ->
  NoDup (map fst entries) /\
  (forall k, k ∈ map fst entries <-> k ∈ map Scanner.remoteKey missing).
Proof.
  unfold valuesFor.
  destruct (generateAll env 0 _ []) as [generated|] eqn:Hgen; [|done].
  simpl. intros [= <-]. split.
  - apply promptAll_nodup. eapply generateAll_nodup; [exact Hgen | constructor].
  - intros k. rewrite promptAll_keys.
    rewrite (generateAll_keys _ _ _ _ _ k (filter_all _ _) Hgen).
    rewrite (filter_keys Scanner.remoteKey Scanner.wantsGenerate missing k).
    simpl. rewrite elem_of_nil. tauto.
Qed.

End ValuesFacts.

Section HappyPath.
Import Js World Provider Cli.
Variable projectId : string.

Lemma string_key_defined k : typeofString k = true -> definedKey k.
Proof. destruct k as [[]|]; simpl; try done. Qed.

Lemma createdName_inj k k' :
  typeofString k = true -> typeofString k' = true ->
  createdName projectId k = createdName projectId k' -> k = k'.
Proof.
  destruct k as [[]|], k' as [[]|]; simpl; try done. intros _ _ Hname.
  unfold createdName in Hname. apply append_inj_r in Hname.
  apply append_inj_r in Hname. simpl in Hname. by subst.
Qed.

(** Entries with distinct string keys that the backend lacks are all
    created. *)
Lemma creations_all w entries : forall b,
  NoDup (map fst entries) ->
  Forall (fun entry => typeofString entry.1 = true) entries ->
  Forall (fun entry => b !! createdName projectId entry.1 = None) entries ->
  creations projectId w entries b =
    (repeat true (length entries),
     fold_left (fun b entry => <[createdName projectId entry.1 := [versionOf w entry.2]]> b)
       entries b).
Proof.
  induction entries as [|[k value] rest IH]; intros b Hnd Hstr Hnone; [done|].
  inversion Hnd as [|? ? Hk Hrest]; subst.
  inversion Hstr as [|? ? Hsk Hsrest]; subst.
  inversion Hnone as [|? ? Hbk Hbrest]; subst.
  cbn [creations fst snd] in *. rewrite Hbk. rewrite IH; [done|done|done|].
  rewrite Forall_forall in Hbrest, Hsrest |- *. intros [k' value'] Hin.
  rewrite lookup_insert_ne; [by apply (Hbrest (k', value'))|].
  intros Hname.
  assert (k = k') as <-.
  { apply createdName_inj; [done | by apply (Hsrest (k', value')) | done]. }
  apply Hk. simpl. apply list_elem_of_fmap. by exists (k, value').
Qed.

End HappyPath.

Section GenerateRun.
Import Js World Provider Cli.

Lemma missingAt_absent projectId w found s :
  s ∈ missingAt projectId w found ->
  backend w !! secretName projectId (Scanner.remoteKey s) = None.
Proof.
  intros Hs%list_elem_of_In. apply List.filter_In in Hs as [_ Hs].
  apply negb_true_iff in Hs. unfold present in Hs.
  apply bool_decide_eq_false in Hs.
  destruct (backend w !! _); [|done]. exfalso. apply Hs. eauto.
Qed.

Lemma missingAt_found projectId w found s :
  s ∈ missingAt projectId w found -> s ∈ found.
Proof. intros Hs%list_elem_of_In. apply List.filter_In in Hs as [Hs _]. by apply list_elem_of_In. Qed.

Lemma generate_run env w entries :
  let projectId := resolveProject env in
  let found := Scanner.secrets (Scanner.scanValuesFiles (files env) (optDeployment env)) in
  let outcome := creations projectId w entries (backend w) in
  storeConfigured env = true ->
  dryRun env = false ->
  yes env = true \/ confirmed env = true ->
  denied w = false ->
  missingAt projectId w found <> [] ->
  valuesFor env (missingAt projectId w found) = Ok entries ->
  generateCommand env w =
    (Ok tt,
     after w outcome.2
       (ApiListSecrets (parentName projectId) ::
        checkCalls projectId w (map Scanner.remoteKey found) ++
        concat (zip_with (blockOf projectId) entries outcome.1))).
Proof.
  intros projectId found outcome Hstore Hdry Hyes Hd Hmissing Hvalues.
  unfold generateCommand. rewrite Hstore, Hdry. cbn [negb].
  fold projectId.
  change (Scanner.totalSecrets (Scanner.scanValuesFiles (files env) (optDeployment env)))
    with (length found).
  fold found.
  destruct (Nat.eqb_spec (length found) 0) as [Hnil|_].
  { exfalso. apply Hmissing. destruct found; [done | discriminate]. }
  erewrite bind_ok; [|by apply initialize_run].
  erewrite bind_ok; [|by apply checkSecrets_run].
  change (statusFor projectId (after w (backend w) ?cs)) with (statusFor projectId w).
  rewrite missingOf_missingAt.
  destruct (Nat.eqb_spec (length (missingAt projectId w found)) 0) as [Hnil|_].
  { exfalso. apply Hmissing. destruct (missingAt projectId w found); [done | discriminate]. }
  assert (negb (yes env) && true && negb (confirmed env) = false) as ->.
  { destruct Hyes as [-> | ->]; [done|]. by rewrite andb_false_r. }
  unfold valuesFor in Hvalues.
  destruct (generateAll env 0 _ []) as [generated|] eqn:Hgen; [|done].
  simpl in Hvalues. injection Hvalues as Hentries.
  erewrite bind_ok; [|reflexivity]. rewrite Hentries.
  erewrite bind_ok; [|by apply (createAll_run projectId entries 0 w)].
  unfold ret. rewrite !after_after. cbn [backend after].
  unfold checkCalls. rewrite batchesCalls_after. reflexivity.
Qed.

End GenerateRun.

(** C2 (amended): in a run of the generate command that is not a dry
    run, is confirmed, and finds the backend open and some descriptor
    missing (the keys being scalars, which a map compares by value),
    the requests are, in this order: the check of the project, the
    status checks of all the keys found (batch after batch of ten), and
    then, for every value to store, one create, followed by the first
    version when the create went through and by nothing when it failed.
    No existence check separates two writes and nothing is sent after
    the last one.  The values to store have one entry per key of a
    missing descriptor.  When the keys are strings every create goes
    through and the backend ends with one version per value to store.
    In every run of the command the requests are reads followed by such
    writes, and the loop that writes never raises. *)
Theorem generate_stage_creates (env : Cli.Env) (w : World.World) :
  (forall entries,
     let projectId := Cli.resolveProject env in
     let found :=
       Scanner.secrets (Scanner.scanValuesFiles (Cli.files env) (Cli.optDeployment env)) in
     let missing := missingAt projectId w found in
     let outcome := creations projectId w entries (World.backend w) in
     Cli.storeConfigured env = true ->
     Cli.dryRun env = false ->
     Cli.yes env = true \/ Cli.confirmed env = true ->
     World.denied w = false ->
     Forall scalarKey found ->
     missing <> [] ->
     valuesFor env missing = Ok entries ->
     Cli.generateCommand env w =
       (Ok tt,
        after w outcome.2
          (World.ApiListSecrets (Provider.parentName projectId) ::
           checkCalls projectId w (map Scanner.remoteKey found) ++
           concat (zip_with (blockOf projectId) entries outcome.1))) /\
     length outcome.1 = length entries /\
     NoDup (map fst entries) /\
     (forall k, k ∈ map fst entries <-> k ∈ map Scanner.remoteKey missing) /\
     (Forall stringKey found ->
      outcome.1 = repeat true (length entries) /\
      outcome.2 = storedIn projectId w entries)) /\
  (exists reads_ entries oks,
     length oks = length entries /\
     World.calls (snd (Cli.generateCommand env w)) =
       World.calls w ++ reads_ ++
       concat (zip_with (blockOf (Cli.resolveProject env)) entries oks) /\
     Forall (fun c => World.mutating c = false) reads_) /\
  (forall entries created w0,
     exists n, fst (Cli.createAll (Cli.resolveProject env) entries created w0) = Ok n).
Proof.
  split; [|split].
  - intros entries projectId found missing outcome Hstore Hdry Hyes Hd _ Hmissing Hvalues.
    destruct (valuesFor_keys env missing entries Hvalues) as [Hnd Hkeys].
    split; [by apply generate_run|].
    split; [apply creations_length|].
    split; [exact Hnd|]. split; [exact Hkeys|].
    intros Hstr.
    assert (forall entry, entry ∈ entries ->
              exists s, s ∈ missing /\ Scanner.remoteKey s = entry.1) as Hfrom.
    { intros entry Hentry.
      assert (entry.1 ∈ map Scanner.remoteKey missing) as Hk.
      { apply Hkeys, list_elem_of_fmap. by exists entry. }
      apply list_elem_of_fmap in Hk as (s & Hs & Hin). by exists s. }
    assert (Forall (fun entry => Js.typeofString entry.1 = true) entries) as Hstrings.
    { apply Forall_forall. intros entry Hentry.
      destruct (Hfrom entry Hentry) as (s & Hs & <-).
      rewrite Forall_forall in Hstr. by apply Hstr, (missingAt_found projectId w). }
    unfold outcome, storedIn. rewrite (creations_all projectId); [done|done|done|].
    apply Forall_forall. intros entry Hentry.
    destruct (Hfrom entry Hentry) as (s & Hs & Hkey).
    rewrite createdName_defined.
    + rewrite <- Hkey. by apply (missingAt_absent projectId w found).
    + apply string_key_defined. rewrite Forall_forall in Hstrings. by apply Hstrings.
  - assert (emits (Cli.generateCommand env) (stage (Cli.resolveProject env))) as Hstage.
    { unfold Cli.generateCommand.
      destruct (negb (Cli.storeConfigured env));
        [apply emits_pure, stage_of_reads; constructor|].
      destruct (Nat.eqb _ 0); [apply emits_pure, stage_of_reads; constructor|].
      apply stage_after_reads.
      { destruct (negb (Cli.dryRun env)); [|apply reads_ret].
        apply reads_tryCatch; [apply initialize_reads | intros; apply reads_raise]. }
      intros _. apply stage_after_reads.
      { destruct (Cli.dryRun env); [apply reads_ret | apply checkSecrets_reads]. }
      intros statuses.
      destruct (Nat.eqb _ 0); [apply emits_pure, stage_of_reads; constructor|].
      destruct (_ && _); [apply emits_pure, stage_of_reads; constructor|].
      destruct (Cli.dryRun env); [apply emits_pure, stage_of_reads; constructor|].
      apply stage_after_reads; [apply reads_lift|]. intros secretValues.
      eapply (emits_bind _ _ _ (fun cs => cs = []));
        [apply createAll_writes | intros; by apply emits_pure | apply stage_of_writes |].
      intros x y Hx ->. rewrite app_nil_r. by apply stage_of_writes. }
    destruct (Hstage w) as (cs & Hcs & rs & ws & -> & Hrs & entries & oks & Hlen & ->).
    by exists rs, entries, oks.
  - intros entries created w0.
    destruct (createAll_blocks (Cli.resolveProject env) entries created w0)
      as (n & _ & _ & Hok & _).
    by exists n.
Qed.

Lemma generate_stage_creates_witness :
  fst (Cli.generateCommand (Samples.env false) Samples.emptyWorld) = Ok tt /\
  World.backend (snd (Cli.generateCommand (Samples.env false) Samples.emptyWorld)) =
    storedIn "monobase-prod" Samples.emptyWorld Samples.storedValues.
Proof.
  destruct (generate_stage_creates (Samples.env false) Samples.emptyWorld) as [Hrun _].
  destruct (Hrun Samples.storedValues) as (Hcmd & _ & _ & _ & Hall).
  - reflexivity.
  - reflexivity.
  - by left.
  - reflexivity.
  - vm_compute. repeat constructor.
  - vm_compute. discriminate.
  - vm_compute. reflexivity.
  - destruct Hall as [_ Hstored].
    + vm_compute. repeat constructor.
    + rewrite Hcmd. split; [reflexivity | exact Hstored].
Defined.

(** * Further properties of the code around the claims *)

Section GroupByFacts.
Import Js Scanner ScannerUtil.
Variable key : DiscoveredSecret -> string.

Local Abbreviation get := (OMap.get String.eqb).

Lemma get_addTo grouped secret d :
  get d (addTo key grouped secret) =
    if String.eqb (key secret) d
    then Some (default [] (get d grouped) ++ [secret])
    else get d grouped.
Proof.
  unfold addTo. destruct (String.eqb_spec (key secret) d) as [<-|Hne].
  - apply get_set_eq.
  - by apply get_set_ne.
Qed.

Lemma group_lookup secrets d :
  get d (fold_left (addTo key) secrets []) = groupOf key d secrets.
Proof.
  induction secrets as [|secret secrets IH] using rev_ind; [done|].
  rewrite fold_left_app. simpl. rewrite get_addTo, IH.
  unfold groupOf, membersOf. rewrite List.filter_app. simpl.
  destruct (String.eqb (key secret) d).
  - destruct (List.filter _ secrets); done.
  - by rewrite app_nil_r.
Qed.

Lemma group_keys_nodup secrets : NoDup (map fst (fold_left (addTo key) secrets [])).
Proof.
  induction secrets as [|secret secrets IH] using rev_ind; [constructor|].
  rewrite fold_left_app. simpl. unfold addTo. by apply set_keys_nodup.
Qed.

Lemma addTo_weigh grouped secret :
  weigh length (addTo key grouped secret) = S (weigh length grouped).
Proof.
  unfold addTo.
  destruct (get (key secret) grouped) as [existing|] eqn:Hget; simpl.
  - pose proof (weigh_set_present length (key secret) (existing ++ [secret]) existing
                  grouped Hget) as H.
    rewrite length_app in H. simpl in H. lia.
  - rewrite weigh_set_fresh by done. simpl. lia.
Qed.

Lemma group_sizes secrets :
  weigh length (fold_left (addTo key) secrets []) = length secrets.
Proof.
  induction secrets as [|secret secrets IH] using rev_ind; [done|].
  rewrite fold_left_app, length_app. simpl. rewrite addTo_weigh, IH. lia.
Qed.

End GroupByFacts.

(** X1: [groupByDeployment] and [groupByChart] partition their input:
    the group stored under a name is the list of the descriptors with
    that deployment (chart), in input order, and a name without one has
    no group; no name has two groups, and the sizes of the groups add
    up to the size of the input. *)
Theorem group_by_partition (secrets : list Scanner.DiscoveredSecret) (d : string) :
  OMap.get String.eqb d (ScannerUtil.groupByDeployment secrets)
    = groupOf Scanner.deployment d secrets /\
  OMap.get String.eqb d (ScannerUtil.groupByChart secrets)
    = groupOf Scanner.chart d secrets /\
  NoDup (map fst (ScannerUtil.groupByDeployment secrets)) /\
  NoDup (map fst (ScannerUtil.groupByChart secrets)) /\
  weigh length (ScannerUtil.groupByDeployment secrets) = length secrets /\
  weigh length (ScannerUtil.groupByChart secrets) = length secrets.
Proof.
  unfold ScannerUtil.groupByDeployment, ScannerUtil.groupByChart.
  repeat split;
    auto using group_lookup, group_keys_nodup, group_sizes.
Qed.

Section FilterFacts.
Import Js Scanner ScannerUtil.

Lemma isTrue_truthy o : isTrue o = true -> truthy o = true.
Proof. by destruct o as [[| [] | | | |]|]. Qed.

Lemma filter_sublist {A} (p q : A -> bool) l :
  (forall x, p x = true -> q x = true) ->
  sublist (List.filter p l) (List.filter q l).
Proof.
  intros Hpq. induction l as [|x l IH]; simpl; [constructor|].
  destruct (p x) eqn:Hp.
  - rewrite (Hpq x Hp). by constructor.
  - destruct (q x); [by constructor | done].
Qed.

End FilterFacts.

(** X2: [filterGeneratable] tests [generate === true] where the scan
    and the generate command test truthiness: what it selects is a
    sublist, in order, of what they take as generatable, so never more
    than the scan's [secretsWithGenerator]. *)
Theorem filterGeneratable_sublist (ft : Scanner.FileTree) (optDeployment : option string)
    (secrets : list Scanner.DiscoveredSecret) :
  sublist (ScannerUtil.filterGeneratable secrets) (List.filter Scanner.wantsGenerate secrets) /\
  length (ScannerUtil.filterGeneratable
            (Scanner.secrets (Scanner.scanValuesFiles ft optDeployment)))
    <= Scanner.secretsWithGenerator (Scanner.scanValuesFiles ft optDeployment).
Proof.
  assert (forall l, sublist (ScannerUtil.filterGeneratable l)
                      (List.filter Scanner.wantsGenerate l)) as Hsub.
  { intros l. apply filter_sublist. intros s. apply isTrue_truthy. }
  split; [apply Hsub|].
  etransitivity; [apply sublist_length, Hsub|].
  unfold Scanner.scanValuesFiles. simpl.
  match goal with
  | |- length (List.filter _ ?l) <= length (filter _ ?l) => generalize l
  end.
  intros l. induction l as [|s l IH]; [done|].
  simpl. rewrite filter_cons.
  destruct (Scanner.wantsGenerate s) eqn:Hs; case_decide; simpl; try done; lia.
Qed.

Section ProvenanceFacts.
Import Js Scanner.

Lemma extract_fields chartName chartConfig sf dep env ds :
  extractSecretsFromChart chartName chartConfig sf dep env = Ok ds ->
  Forall (fun d => sourceFile d = sf /\ deployment d = dep /\ chart d = chartName /\
                   environment d = env) ds.
Proof.
  unfold extractSecretsFromChart.
  destruct (negb _ || negb _); [intros [= <-]; constructor|].
  destruct (isSingleSecretConfig _); [intros [= <-]; by repeat constructor|].
  destruct (isArraySecretsConfig _); [|intros [= <-]; constructor].
  apply pushItems_all; [done | constructor].
Qed.

(** What the loop over the top-level keys adds to the descriptors it
    starts with. *)
Lemma chartLoop_adds es fp dep env : forall acc,
  exists added,
    chartLoop es fp dep env acc = acc ++ added /\
    Forall (fun d => sourceFile d = fp /\ deployment d = dep /\ environment d = env /\
                     reserved (chart d) = false /\ chart d ∈ map fst es) added.
Proof.
  induction es as [|[chartName chartConfig] rest IH]; intros acc; simpl.
  - exists []. by rewrite app_nil_r.
  - fold (reserved chartName). destruct (reserved chartName) eqn:Hres.
    + destruct (IH acc) as (added & -> & Hadded). exists added. split; [done|].
      eapply Forall_impl; [exact Hadded|]. intros d (? & ? & ? & ? & ?).
      repeat split; try done. by right.
    + destruct (extractSecretsFromChart _ _ _ _ _) as [chartSecrets|] eqn:Hx.
      * destruct (IH (acc ++ chartSecrets)) as (added & -> & Hadded).
        exists (chartSecrets ++ added). rewrite app_assoc. split; [done|].
        apply Forall_app. split.
        -- apply extract_fields in Hx. eapply Forall_impl; [exact Hx|].
           intros d (? & ? & Hc & ?). rewrite Hc. repeat split; try done. by left.
        -- eapply Forall_impl; [exact Hadded|]. intros d (? & ? & ? & ? & ?).
           repeat split; try done. by right.
      * exists []. rewrite app_nil_r. split; [done | constructor].
Qed.

Lemma join_split c s : joinWith (String c "") (Str.split c s) = s.
Proof.
  induction s as [|a s IH]; [done|]. simpl.
  pose proof (split_nonempty c s) as Hne.
  destruct (Ascii.eqb_spec a c) as [->|Hac].
  - destruct (Str.split c s) as [|w ws]; [done|]. simpl in *. by rewrite IH.
  - destruct (Str.split c s) as [|w ws]; [done|].
    destruct ws; simpl in *; by rewrite <- IH.
Qed.

Lemma string_app_assoc a b c : (a +:+ b) +:+ c = a +:+ b +:+ c.
Proof.
  induction a as [|x a IH]; [done|].
  change ((String x a +:+ b) +:+ c) with (String x ((a +:+ b) +:+ c)).
  by rewrite IH.
Qed.

Lemma join_snoc sep init e :
  init <> [] -> joinWith sep (init ++ [e]) = joinWith sep init +:+ sep +:+ e.
Proof.
  induction init as [|x init IH]; [done|]. intros _.
  destruct init as [|y init]; [done|].
  change (joinWith sep ((x :: y :: init) ++ [e]))
    with (x +:+ sep +:+ joinWith sep ((y :: init) ++ [e])).
  rewrite IH by done.
  change (joinWith sep (x :: y :: init)) with (x +:+ sep +:+ joinWith sep (y :: init)).
  by rewrite !string_app_assoc.
Qed.

Lemma last_snoc {A} (l : list A) d : l <> [] -> exists init, l = init ++ [List.last l d].
Proof.
  induction l as [|x l IH]; [done|]. intros _.
  destruct l as [|y l]; [by exists []|].
  destruct IH as (init & Hinit); [done|].
  exists (x :: init). simpl in *. by rewrite <- Hinit.
Qed.

End ProvenanceFacts.

(** X3: every descriptor that [parseValuesFile] finds in a file carries
    that file as its source, the deployment name of the file
    ([infrastructure] under an infrastructure directory, the base name
    otherwise) and the environment of the base name; outside an
    infrastructure directory its chart is a top-level key of the
    document, and never [global] or [argocd]. *)
Theorem parse_provenance (load : string -> option Js.JsVal) (filePath : string)
    (d : Scanner.DiscoveredSecret) :
  d ∈ Scanner.parseValuesFile load filePath ->
  Scanner.sourceFile d = filePath /\
  Scanner.deployment d = deploymentOf filePath /\
  Scanner.environment d = Scanner.environmentOf (Str.basename filePath ".yaml") /\
  (Str.includes "/infrastructure/" filePath = false ->
   reserved (Scanner.chart d) = false /\
   exists values, load filePath = Some values /\
                  Scanner.chart d ∈ map fst (Js.entries values)).
Proof.
  unfold Scanner.parseValuesFile, deploymentOf.
  destruct (load filePath) as [values|]; [|by intros ?%elem_of_nil].
  destruct (negb (Js.truthyV values) || negb (Js.typeofObject (Some values)));
    [by intros ?%elem_of_nil|].
  destruct (Str.includes "/infrastructure/" filePath) eqn:Hinfra.
  - match goal with
    | |- context [match ?root with Ok _ => _ | Throw _ => _ end] =>
        destruct root as [rootSecrets|] eqn:Hroot; [|by intros ?%elem_of_nil]
    end.
    destruct (chartLoop_adds (Js.entries values) filePath "infrastructure"
                (Scanner.environmentOf (Str.basename filePath ".yaml")) rootSecrets)
      as (added & -> & Hadded).
    intros [Hd|Hd]%elem_of_app.
    + assert (Forall (fun d => Scanner.sourceFile d = filePath /\
                Scanner.deployment d = "infrastructure" /\
                Scanner.chart d = Str.basename filePath ".yaml" /\
                Scanner.environment d = Scanner.environmentOf (Str.basename filePath ".yaml"))
                rootSecrets) as Hall.
      { simpl in Hroot. destruct (Js.truthy _).
        - by apply extract_fields in Hroot.
        - injection Hroot as <-. constructor. }
      rewrite Forall_forall in Hall. destruct (Hall d Hd) as (? & ? & ? & ?). done.
    + rewrite Forall_forall in Hadded. destruct (Hadded d Hd) as (? & ? & ? & ? & ?). done.
  - simpl.
    destruct (chartLoop_adds (Js.entries values) filePath (Str.basename filePath ".yaml")
                (Scanner.environmentOf (Str.basename filePath ".yaml")) [])
      as (added & -> & Hadded).
    simpl. intros Hd.
    rewrite Forall_forall in Hadded. destruct (Hadded d Hd) as (? & ? & ? & ? & ?).
    split; [done|]. split; [done|]. split; [done|].
    intros _. split; [done|]. by exists values.
Qed.

Lemma parse_provenance_witness :
  Scanner.deployment (Samples.acmeSecret "api" "acme-api-jwt" (Some (Js.JStr "acme")))
    = "acme-staging" /\
  Scanner.environment (Samples.acmeSecret "api" "acme-api-jwt" (Some (Js.JStr "acme")))
    = Some "staging".
Proof.
  destruct (parse_provenance (Scanner.load Samples.tree)
              "/repo/values/deployments/acme-staging.yaml"
              {| Scanner.sourceFile := "/repo/values/deployments/acme-staging.yaml";
                 Scanner.deployment := "acme-staging"; Scanner.chart := "api";
                 Scanner.environment := Some "staging";
                 Scanner.remoteKey := Some (Js.JStr "acme-api-jwt");
                 Scanner.generator := None; Scanner.secretStore := Js.JStr "aws-store";
                 Scanner.refreshInterval := Js.JStr "1h";
                 Scanner.namespace := Some (Js.JStr "acme") |})
    as (_ & Hdep & Henv & _).
  - apply list_elem_of_In. vm_compute. right. left. reflexivity.
  - split; [exact Hdep | exact Henv].
Defined.

(** X4: with a deployment filter, the scan parses only the files whose
    base name is the filter: every descriptor it returns comes from
    such a file. *)
Theorem scan_filter_sources (ft : Scanner.FileTree) (deployment : string)
    (d : Scanner.DiscoveredSecret) :
  deployment <> "" ->
  d ∈ Scanner.secrets (Scanner.scanValuesFiles ft (Some deployment)) ->
  Str.basename (Scanner.sourceFile d) ".yaml" = deployment.
Proof.
  intros Hne Hd. rewrite scan_secrets in Hd.
  unfold selected in Hd.
  destruct (String.eqb_spec deployment ""); [done|].
  induction (concat (map (Scanner.glob ft) Scanner.patterns)) as [|f files IH];
    [by apply elem_of_nil in Hd|].
  rewrite filter_cons in Hd. case_decide as Hf; [|by apply IH].
  simpl in Hd. apply elem_of_app in Hd as [Hd|Hd]; [|by apply IH].
  pose proof (parse_sourceFile (Scanner.load ft) f) as Hall.
  rewrite Forall_forall in Hall. by rewrite (Hall d Hd).
Qed.

Lemma scan_filter_sources_witness :
  Str.basename
    (Scanner.sourceFile
       (Samples.acmeSecret "api" "acme-api-jwt" (Some (Js.JStr "acme")))) ".yaml"
  = "acme-staging".
Proof.
  apply (scan_filter_sources Samples.tree "acme-staging"
           {| Scanner.sourceFile := "/repo/values/deployments/acme-staging.yaml";
              Scanner.deployment := "acme-staging"; Scanner.chart := "api";
              Scanner.environment := Some "staging";
              Scanner.remoteKey := Some (Js.JStr "acme-api-jwt");
              Scanner.generator := None; Scanner.secretStore := Js.JStr "aws-store";
              Scanner.refreshInterval := Js.JStr "1h";
              Scanner.namespace := Some (Js.JStr "acme") |}).
  - discriminate.
  - apply list_elem_of_In. vm_compute. right. left. reflexivity.
Defined.

(** X5: the environment of a file name is its last hyphen-separated
    token when the name has a hyphen and the token is one of the six
    recognized ones, and nothing otherwise: a name is given the
    environment [e] exactly when [e] is recognized and the name is some
    stem, a hyphen, and [e]. *)
Theorem environment_of_name (fileName e : string) :
  Scanner.environmentOf fileName = Some e <->
  In e Scanner.envTokens /\ exists stem, fileName = stem +:+ "-" +:+ e.
Proof.
  unfold Scanner.environmentOf. split.
  - destruct (Nat.ltb_spec 1 (length (Str.split "-" fileName))) as [Hlen|]; [|done].
    destruct (existsb _ _) eqn:Hex; [|done]. intros [= <-].
    apply existsb_exists in Hex as (tok & Hin & Heq).
    apply String.eqb_eq in Heq. rewrite Heq. split; [done|].
    destruct (last_snoc (Str.split "-" fileName) "" (split_nonempty _ _)) as (init & Hinit).
    exists (Js.joinWith "-" init).
    rewrite <- (join_split "-" fileName) at 1. rewrite Hinit at 1.
    rewrite <- Heq. apply join_snoc.
    intros ->. rewrite Hinit in Hlen. simpl in Hlen. lia.
  - intros (Hin & stem & ->).
    change (stem +:+ "-" +:+ e) with (stem +:+ String "-" e).
    rewrite split_app.
    assert (Str.split "-" e = [e]) as ->.
    { unfold Scanner.envTokens in Hin. simpl in Hin.
      repeat (destruct Hin as [<-|Hin]; [reflexivity|]). done. }
    pose proof (split_nonempty "-" stem) as Hne.
    rewrite length_app. simpl.
    destruct (Nat.ltb_spec 1 (length (Str.split "-" stem) + 1)) as [_|Hlen].
    + rewrite last_last.
      assert (existsb (String.eqb e) Scanner.envTokens = true) as Hex.
      { apply existsb_exists. exists e. split; [done | apply String.eqb_refl]. }
      unfold Scanner.envTokens in Hex. simpl in Hex. by rewrite Hex.
    + destruct (Str.split "-" stem); [done | simpl in Hlen; lia].
Qed.

Section UrlSafeFacts.
Import Js Generator GeneratorUtil.

Lemma replaceAll_app x y a b :
  replaceAll x y (a +:+ b) = replaceAll x y a +:+ replaceAll x y b.
Proof.
  induction a as [|c a IH]; [done|].
  change (String c a +:+ b) with (String c (a +:+ b)). cbn [replaceAll].
  rewrite IH. destruct (Ascii.eqb c x); [by rewrite string_app_assoc | done].
Qed.

Lemma urlSafe_app a b : urlSafe (a +:+ b) = urlSafe a +:+ urlSafe b.
Proof. unfold urlSafe. by rewrite !replaceAll_app. Qed.

Lemma alphabet_urlSafe :
  forallb urlSafeChar (list_ascii_of_string base64Alphabet) = true.
Proof. vm_compute. reflexivity. Qed.

Lemma urlSafe_b64 n :
  String.length (urlSafe (b64 n)) = 1 /\ charsIn urlSafeAlphabet (urlSafe (b64 n)).
Proof.
  unfold b64, charAt.
  destruct (get_in_range base64Alphabet (n mod 64)) as (c & -> & Hin).
  { change (String.length base64Alphabet) with 64. by apply Nat.mod_upper_bound. }
  pose proof alphabet_urlSafe as Hall. rewrite forallb_forall in Hall.
  specialize (Hall c Hin). unfold urlSafeChar in Hall.
  apply andb_true_iff in Hall as [Hlen Hchars]. apply Nat.eqb_eq in Hlen.
  split; [exact Hlen|].
  unfold charsIn. apply Forall_forall. intros c' Hc'. apply list_elem_of_In in Hc'.
  rewrite forallb_forall in Hchars. specialize (Hchars c' Hc').
  apply existsb_exists in Hchars as (c'' & Hin' & Heq).
  apply Ascii.eqb_eq in Heq. by subst.
Qed.

Lemma urlSafe_base64 buf :
  String.length (urlSafe (toBase64 buf)) = (4 * length buf + 2) / 3 /\
  charsIn urlSafeAlphabet (urlSafe (toBase64 buf)).
Proof.
  induction buf as [|a|a b|a b c rest [IHlen IHin]] using list_ind3.
  - split; [done | constructor].
  - cbn [toBase64]. rewrite !urlSafe_app, !length_app_string.
    rewrite (proj1 (urlSafe_b64 _)), (proj1 (urlSafe_b64 _)). split; [done|].
    repeat apply charsIn_app; try apply urlSafe_b64; constructor.
  - cbn [toBase64]. rewrite !urlSafe_app, !length_app_string.
    rewrite (proj1 (urlSafe_b64 _)), (proj1 (urlSafe_b64 _)), (proj1 (urlSafe_b64 _)).
    split; [done|].
    repeat apply charsIn_app; try apply urlSafe_b64; constructor.
  - cbn [toBase64]. fold (toBase64 rest). rewrite !urlSafe_app, !length_app_string.
    rewrite (proj1 (urlSafe_b64 _)), (proj1 (urlSafe_b64 _)), (proj1 (urlSafe_b64 _)),
      (proj1 (urlSafe_b64 _)), IHlen.
    split.
    + cbn [Datatypes.length].
      replace (4 * S (S (S (length rest))) + 2) with (4 * length rest + 2 + 4 * 3) by lia.
      rewrite Nat.div_add by done. lia.
    + repeat apply charsIn_app; try apply urlSafe_b64. exact IHin.
Qed.

End UrlSafeFacts.

(** X6: for a length L from 0 to 2^31 - 1, [generateUrlSafeString]
    yields ceil(4L/3) characters, all letters, digits, [-] or [_]: no
    [+], [/] or padding is left. *)
Theorem url_safe_string (src : Generator.RandSrc) (L : Z) :
  (0 <= L <= Generator.maxRandomBytes)%Z ->
  exists s,
    GeneratorUtil.generateUrlSafeString src (Js.JNum L) = Ok s /\
    String.length s = (4 * Z.to_nat L + 2) / 3 /\
    charsIn urlSafeAlphabet s.
Proof.
  intros HL. unfold GeneratorUtil.generateUrlSafeString.
  rewrite randomBytes_ok by done.
  exists (urlSafe (Generator.toBase64 (map src (seq 0 (Z.to_nat L))))).
  split; [reflexivity|].
  destruct (urlSafe_base64 (map src (seq 0 (Z.to_nat L)))) as [Hlen Hin].
  rewrite length_bytes in Hlen. done.
Qed.

Lemma url_safe_string_witness :
  exists s,
    GeneratorUtil.generateUrlSafeString Samples.zeros (Js.JNum 4) = Ok s /\
    String.length s = 6 /\
    charsIn urlSafeAlphabet s.
Proof.
  apply (url_safe_string Samples.zeros 4). unfold Generator.maxRandomBytes. lia.
Defined.

Section StrengthFacts.
Import GeneratorUtil.

Lemma normalized n :
  n <= 7 ->
  Nat.min (n / 2) 4 <= 3 /\ (Nat.leb 3 (Nat.min (n / 2) 4) = true <-> 6 <= n).
Proof.
  intros Hn.
  do 8 (destruct n as [|n]; [vm_compute; split; [lia | split; [discriminate || lia | lia || done]]|]).
  lia.
Qed.

(** The points for the length, and the points for the classes. *)
Lemma rawScore_parts password :
  exists lengths classes,
    rawScore password = classes + lengths /\
    classes <= 4 /\ lengths <= 3 /\
    (2 <= lengths -> 24 <= String.length password) /\
    (16 <= String.length password < 24 -> lengths = 1) /\
    (allClasses password = true -> classes = 4).
Proof.
  unfold rawScore, allClasses, bump.
  exists ((if Nat.leb 32 (String.length password) then 1 else 0) +
          (if Nat.leb 24 (String.length password) then 1 else 0) +
          (if Nat.leb 16 (String.length password) then 1 else 0)),
         ((if hasSpecial password then 1 else 0) + (if hasDigit password then 1 else 0) +
          (if hasUpper password then 1 else 0) + (if hasLower password then 1 else 0)).
  destruct (hasLower password), (hasUpper password), (hasDigit password),
    (hasSpecial password);
    destruct (Nat.leb_spec 16 (String.length password)),
      (Nat.leb_spec 24 (String.length password)),
      (Nat.leb_spec 32 (String.length password));
    simpl; repeat split; try lia; try discriminate.
Qed.

End StrengthFacts.

(** X7: the strength score is at most 3 (never 4); a password is valid
    exactly when it meets six of the seven criteria, which takes at
    least 24 characters; and a password of 16 to 23 characters with all
    four classes is not valid although it gets no feedback. *)
Theorem strength_score (password : string) :
  let r := GeneratorUtil.validatePasswordStrength password in
  GeneratorUtil.score r <= 3 /\
  (GeneratorUtil.valid r = true <-> 6 <= GeneratorUtil.rawScore password) /\
  (GeneratorUtil.valid r = true -> 24 <= String.length password) /\
  (16 <= String.length password < 24 -> allClasses password = true ->
   GeneratorUtil.valid r = false /\ GeneratorUtil.feedback r = []).
Proof.
  destruct (rawScore_parts password)
    as (lengths & classes & Hraw & Hc & Hl & Hlong & Hmid & Hall).
  destruct (normalized (GeneratorUtil.rawScore password) ltac:(lia)) as [Hle Hvalid].
  cbn zeta. unfold GeneratorUtil.validatePasswordStrength.
  cbn [GeneratorUtil.score GeneratorUtil.valid GeneratorUtil.feedback].
  split; [exact Hle|]. split; [exact Hvalid|]. split.
  - intros Hv. apply Hvalid in Hv. apply Hlong. lia.
  - intros Hlen Hclasses. split.
    + apply not_true_is_false. intros Hv.
      apply Hvalid in Hv. specialize (Hmid Hlen). specialize (Hall Hclasses). lia.
    + unfold allClasses in Hclasses.
      apply andb_true_iff in Hclasses as [Hclasses Hs].
      apply andb_true_iff in Hclasses as [Hclasses Hd].
      apply andb_true_iff in Hclasses as [Hlo Hu].
      rewrite Hlo, Hu, Hd, Hs.
      destruct (Nat.ltb_spec (String.length password) 16); [lia | done].
Qed.

Lemma strength_score_witness :
  GeneratorUtil.valid (GeneratorUtil.validatePasswordStrength "Abcdefgh1234!@#$") = false /\
  GeneratorUtil.feedback (GeneratorUtil.validatePasswordStrength "Abcdefgh1234!@#$") = [].
Proof.
  apply (strength_score "Abcdefgh1234!@#$"); [simpl; lia | reflexivity].
Defined.

(** X8: for a generator without a length, the description names the
    recommended length where the generator uses 32 bytes: a [string]
    secret is described as 24 chars and has 44 characters, and a
    [token] secret is described as 32 chars and has 64. *)
Theorem description_mismatch (src : Generator.RandSrc) (g : Js.JsVal) :
  Js.propV g "length" = None ->
  (Js.propV g "type" = Some (Js.JStr "string") ->
   exists d s,
     GeneratorUtil.formatSecretDescription (Some g)
       = Ok (d +:+ " (string, 24 chars, base64 encoded)") /\
     Generator.generateSecretValue src (Some g) = Ok s /\ String.length s = 44) /\
  (Js.propV g "type" = Some (Js.JStr "token") ->
   exists d s,
     GeneratorUtil.formatSecretDescription (Some g)
       = Ok (d +:+ " (token, 32 chars, hex encoded)") /\
     Generator.generateSecretValue src (Some g) = Ok s /\ String.length s = 64).
Proof.
  intros Hlen.
  assert (lengthUsed g = Js.JNum 32) as Hused by (unfold lengthUsed; by rewrite Hlen).
  split; intros Hty.
  - exists (Js.toStr (Js.orElse (Js.propV g "description") (Js.JStr "string secret"))),
           (Generator.toBase64 (map src (seq 0 32))).
    split; [|split].
    + unfold GeneratorUtil.formatSecretDescription, Js.prop.
      destruct g; try discriminate; simpl in *; rewrite Hty, Hlen; reflexivity.
    + rewrite (generate_unfold src g "string" Hty), Hused. reflexivity.
    + destruct (toBase64_spec (map src (seq 0 32))) as [-> _].
      by rewrite length_bytes.
  - exists (Js.toStr (Js.orElse (Js.propV g "description") (Js.JStr "token secret"))),
           (Generator.toHex (map src (seq 0 32))).
    split; [|split].
    + unfold GeneratorUtil.formatSecretDescription, Js.prop.
      destruct g; try discriminate; simpl in *; rewrite Hty, Hlen; reflexivity.
    + rewrite (generate_unfold src g "token" Hty), Hused. reflexivity.
    + destruct (toHex_spec (map src (seq 0 32))) as [-> _].
      by rewrite length_bytes.
Qed.

Lemma description_mismatch_witness :
  exists d s,
    GeneratorUtil.formatSecretDescription
      (Some (Js.JObj [("generate", Js.JBool true); ("type", Js.JStr "string")]))
      = Ok (d +:+ " (string, 24 chars, base64 encoded)") /\
    Generator.generateSecretValue Samples.zeros
      (Some (Js.JObj [("generate", Js.JBool true); ("type", Js.JStr "string")])) = Ok s /\
    String.length s = 44.
Proof.
  destruct (description_mismatch Samples.zeros
              (Js.JObj [("generate", Js.JBool true); ("type", Js.JStr "string")]) eq_refl)
    as [Hstring _].
  exact (Hstring eq_refl).
Defined.

Section StatusRun.
Import Js World Provider.
Variable projectId : string.

Lemma getSecretStatus_absent w k :
  denied w = false -> backend w !! secretName projectId k = None ->
  getSecretStatus projectId k w =
    (Ok {| remoteKey := k; exists_ := false; lastUpdated := None; versionCount := None |},
     after w (backend w) [ApiGetSecret (secretName projectId k)]).
Proof.
  intros Hd Hb. unfold getSecretStatus.
  rewrite (tryCatch_grpc _ _ w 5 (after w (backend w) [ApiGetSecret (secretName projectId k)]));
    [done|].
  by erewrite bind_throw; [|by eapply getSecret_absent].
Qed.

Lemma getSecretStatus_run w k :
  denied w = false ->
  getSecretStatus projectId k w =
    (Ok (statusFor projectId w k), after w (backend w) (statusCalls projectId w k)).
Proof.
  intros Hd. unfold statusFor, statusCalls.
  destruct (backend w !! secretName projectId k) as [versions|] eqn:Hb.
  - by erewrite getSecretStatus_present.
  - by apply getSecretStatus_absent.
Qed.

Lemma statusCalls_reads w k : reads (statusCalls projectId w k).
Proof.
  unfold statusCalls, reads.
  destruct (backend w !! secretName projectId k); by repeat constructor.
Qed.

End StatusRun.

(** X9: on a backend that accepts the caller, [checkSecrets] never
    raises and leaves the backend as it is; the map it returns holds,
    for each key it was given, one status, whose [exists] tells whether
    the backend holds the key, however often the key occurs in the
    list, and holds nothing for any other key. *)
Theorem check_secrets_statuses (projectId : string) (remoteKeys : list (option Js.JsVal))
    (w : World.World) :
  World.denied w = false ->
  exists statuses w',
    Provider.checkSecrets projectId remoteKeys w = (Ok statuses, w') /\
    World.backend w' = World.backend w /\
    (forall k, In k remoteKeys ->
       exists status,
         OMap.get Js.keyEqb k statuses = Some status /\
         Provider.remoteKey status = k /\
         Provider.exists_ status = present projectId w k) /\
    (forall k, ~ In k remoteKeys -> OMap.get Js.keyEqb k statuses = None).
Proof.
  intros Hd. pose proof (checkSecrets_run projectId remoteKeys w Hd) as Hrun.
  eexists _, _. split; [exact Hrun|]. split; [done|]. split.
  - intros k Hin. exists (statusFor projectId w k).
    rewrite setAll_lookup.
    assert (existsb (Js.keyEqb k) remoteKeys = true) as ->.
    { apply existsb_exists. exists k. split; [done | by apply keyEqb_eq]. }
    split; [done|]. unfold statusFor, present.
    destruct (World.backend w !! Provider.secretName projectId k) eqn:Hb; simpl.
    + split; [done|]. first [done | symmetry; apply bool_decide_eq_true; eauto].
    + split; [done|]. first [done | symmetry; apply bool_decide_eq_false; by intros [? ?]].
  - intros k Hnin. rewrite setAll_lookup.
    destruct (existsb (Js.keyEqb k) remoteKeys) eqn:Hex; [|done].
    apply existsb_exists in Hex as (k' & Hin & Heq). apply keyEqb_eq in Heq. by subst.
Qed.

Lemma check_secrets_statuses_witness :
  exists statuses w',
    Provider.checkSecrets "monobase-prod" [Samples.dbKey; None; Samples.dbKey]
      Samples.worldWithDb = (Ok statuses, w') /\
    World.backend w' = World.backend Samples.worldWithDb.
Proof.
  destruct (check_secrets_statuses "monobase-prod" [Samples.dbKey; None; Samples.dbKey]
              Samples.worldWithDb eq_refl) as (statuses & w' & Hrun & Hb & _).
  exists statuses, w'. split; [exact Hrun | exact Hb].
Defined.

Section DeniedFacts.
Import Js World Provider.
Variable projectId : string.

Lemma getSecret_denied w name :
  denied w = true ->
  Api.getSecret name w = (Throw (GrpcError 7), after w (backend w) [ApiGetSecret name]).
Proof.
  intros Hd. unfold Api.getSecret, Api.guard, mbind, M_bind, bind, record, getWorld, raise,
    after. cbn [backend denied now cluster calls]. by rewrite Hd.
Qed.

Lemma deleteSecret_present w k versions :
  denied w = false -> backend w !! secretName projectId k = Some versions ->
  deleteSecret projectId k w =
    (Ok tt, after w (delete (secretName projectId k) (backend w))
              [ApiDeleteSecret (secretName projectId k)]).
Proof.
  intros Hd Hb. unfold deleteSecret, Api.deleteSecret, Api.guard, mbind, M_bind, bind,
    record, getWorld, setBackend, ret, raise, after.
  cbn [backend denied now cluster calls]. rewrite Hd.
  cbn [backend denied now cluster calls]. by rewrite Hb.
Qed.

Lemma deleteSecret_absent w k :
  denied w = false -> backend w !! secretName projectId k = None ->
  deleteSecret projectId k w =
    (Throw (GrpcError 5), after w (backend w) [ApiDeleteSecret (secretName projectId k)]).
Proof.
  intros Hd Hb. unfold deleteSecret, Api.deleteSecret, Api.guard, mbind, M_bind, bind,
    record, getWorld, setBackend, ret, raise, after.
  cbn [backend denied now cluster calls]. rewrite Hd.
  cbn [backend denied now cluster calls]. by rewrite Hb.
Qed.

End DeniedFacts.

(** X10: existence and status agree.  On a backend that accepts the
    caller, [secretExists] and [getSecretStatus] return, report the
    same existence, which is whether the backend holds the key (an
    absent key is a result, not an error), and leave the backend as it
    is; on one that rejects the caller both raise the error of code 7. *)
Theorem exists_agrees_with_status (projectId : string) (k : option Js.JsVal) (w : World.World) :
  (World.denied w = false ->
   exists st w1 w2,
     Provider.secretExists projectId k w = (Ok (present projectId w k), w1) /\
     Provider.getSecretStatus projectId k w = (Ok st, w2) /\
     Provider.exists_ st = present projectId w k /\
     World.backend w1 = World.backend w /\ World.backend w2 = World.backend w) /\
  (World.denied w = true ->
   fst (Provider.secretExists projectId k w) = Throw (GrpcError 7) /\
   fst (Provider.getSecretStatus projectId k w) = Throw (GrpcError 7)).
Proof.
  split; intros Hd.
  - unfold present.
    destruct (World.backend w !! Provider.secretName projectId k) as [versions|] eqn:Hb.
    + eexists _, _, _.
      split; [by erewrite secretExists_present|].
      split; [by erewrite getSecretStatus_present|]. done.
    + eexists _, _, _.
      split; [by erewrite secretExists_absent|].
      split; [by erewrite getSecretStatus_absent|]. done.
  - unfold Provider.secretExists, Provider.getSecretStatus, World.tryCatch.
    erewrite !bind_throw by (by apply getSecret_denied). done.
Qed.

(** X11: creating and deleting a key that is neither undefined nor
    null.  On a backend that accepts the caller:
    creating a key that is absent and then deleting it gives back the
    backend as it was; creating a key that is present raises the error
    of code 6 and deleting one that is absent the error of code 5, both
    without a change. *)
Theorem create_delete (projectId : string) (k : option Js.JsVal) (value : string)
    (w : World.World) :
  definedKey k ->
  World.denied w = false ->
  (World.backend w !! Provider.secretName projectId k = None ->
   (exists w',
      (Provider.createSecret projectId k value;; Provider.deleteSecret projectId k) w
        = (Ok tt, w') /\
      World.backend w' = World.backend w) /\
   (exists w', Provider.deleteSecret projectId k w = (Throw (GrpcError 5), w') /\
               World.backend w' = World.backend w)) /\
  (is_Some (World.backend w !! Provider.secretName projectId k) ->
   exists w', Provider.createSecret projectId k value w = (Throw (GrpcError 6), w') /\
              World.backend w' = World.backend w).
Proof.
  intros Hk Hd. pose proof (createdName_defined projectId k Hk) as Hname. split.
  - intros Hb. split.
    + eexists. split.
      * erewrite bind_ok; [|apply createSecret_absent; [done | by rewrite Hname]].
        rewrite Hname.
        eapply deleteSecret_present; [done | simpl; apply lookup_insert_eq].
      * simpl. rewrite delete_insert_eq. by apply delete_id.
    + eexists. split; [by apply deleteSecret_absent | done].
  - intros [versions Hb]. eexists.
    split; [eapply createSecret_present; [done | by rewrite Hname] | done].
Qed.

Lemma create_delete_witness :
  exists w',
    (Provider.createSecret "monobase-prod" Samples.dbKey "value";;
     Provider.deleteSecret "monobase-prod" Samples.dbKey) Samples.emptyWorld = (Ok tt, w') /\
    World.backend w' = ∅.
Proof.
  destruct (create_delete "monobase-prod" Samples.dbKey "value" Samples.emptyWorld)
    as [Habsent _]; [split; discriminate | reflexivity |].
  destruct (Habsent eq_refl) as [Hround _]. exact Hround.
Defined.

(** X12: [upsertSecret] of a key that is neither undefined nor null,
    on a backend that accepts the caller, never raises: it reports [created] exactly when the key was absent, puts
    the value as the newest version before the versions the key had,
    and leaves every other secret as it was. *)
Theorem upsert_effect (projectId : string) (k : option Js.JsVal) (value : string)
    (w : World.World) :
  definedKey k ->
  World.denied w = false ->
  exists w',
    Provider.upsertSecret projectId k value w = (Ok (negb (present projectId w k)), w') /\
    World.backend w' !! Provider.secretName projectId k =
      Some (versionOf w value ::
            default [] (World.backend w !! Provider.secretName projectId k)) /\
    (forall other, other <> Provider.secretName projectId k ->
       World.backend w' !! other = World.backend w !! other).
Proof.
  intros Hk Hd. unfold present.
  destruct (World.backend w !! Provider.secretName projectId k) as [versions|] eqn:Hb.
  - eexists. split; [by erewrite upsertSecret_present|].
    simpl. split; [apply lookup_insert_eq|].
    intros other Hne. by apply lookup_insert_ne.
  - eexists. split; [by erewrite upsertSecret_absent|].
    simpl. split; [apply lookup_insert_eq|].
    intros other Hne. by apply lookup_insert_ne.
Qed.

Lemma upsert_effect_witness :
  exists w',
    Provider.upsertSecret "monobase-prod" Samples.dbKey "new" Samples.worldWithDb
      = (Ok false, w') /\
    World.payload <$> default [] (World.backend w' !!
        Provider.secretName "monobase-prod" Samples.dbKey) = ["new"; "old"].
Proof.
  destruct (upsert_effect "monobase-prod" Samples.dbKey "new" Samples.worldWithDb)
    as (w' & Hrun & Hnew & _); [split; discriminate | reflexivity |].
  exists w'. split; [exact Hrun|]. by rewrite Hnew.
Defined.

Lemma exists_agrees_with_status_witness :
  exists st w1 w2,
    Provider.secretExists "monobase-prod" Samples.dbKey Samples.worldWithDb = (Ok true, w1) /\
    Provider.getSecretStatus "monobase-prod" Samples.dbKey Samples.worldWithDb = (Ok st, w2) /\
    Provider.exists_ st = true.
Proof.
  destruct (exists_agrees_with_status "monobase-prod" Samples.dbKey Samples.worldWithDb)
    as [Haccepted _].
  destruct (Haccepted eq_refl) as (st & w1 & w2 & Hex & Hst & Hagree & _).
  exists st, w1, w2. split; [exact Hex|]. split; [exact Hst | exact Hagree].
Defined.

Section BatchFacts.
Import Js World Provider.
Variable projectId : string.

Lemma startAll_denied batch : forall w,
  denied w = true ->
  startAll projectId batch w =
    (Ok (map (fun k => (k, Throw (GrpcError 7))) batch),
     after w (backend w) (map (fun k => ApiGetSecret (secretName projectId k)) batch)).
Proof.
  induction batch as [|key rest IH]; intros w Hd.
  - simpl. by rewrite after_same.
  - cbn [startAll map]. rewrite bind_attempt.
    rewrite getSecret_denied by done. cbn [fst snd].
    erewrite bind_ok; [|by apply IH]. unfold ret. by rewrite after_after.
Qed.

Lemma settleAll_denied batch : forall w,
  settleAll projectId (map (fun k => (k, Throw (GrpcError 7))) batch) w =
    (Ok (map (fun _ => Throw (GrpcError 7)) batch), w).
Proof.
  induction batch as [|key rest IH]; intros w; [done|].
  cbn [map settleAll]. rewrite bind_attempt.
  change (statusAfterGet projectId key (Throw (GrpcError 7)) w)
    with (Throw (GrpcError 7) : res SecretStatus, w).
  cbn [fst snd]. erewrite bind_ok; [|by apply IH]. done.
Qed.

Lemma statusesOf_denied key rest w :
  denied w = true ->
  statusesOf projectId (key :: rest) w =
    (Throw (GrpcError 7),
     after w (backend w)
       (map (fun k => ApiGetSecret (secretName projectId k)) (key :: rest))).
Proof.
  intros Hd. unfold statusesOf.
  erewrite bind_ok; [|by apply startAll_denied].
  erewrite bind_ok; [|by apply settleAll_denied].
  done.
Qed.

Lemma batchesCalls_one fuel w remoteKeys :
  length remoteKeys <= fuel -> length remoteKeys <= CONCURRENCY ->
  batchesCalls fuel projectId w remoteKeys = batchCalls projectId w remoteKeys.
Proof.
  intros Hfuel Hlen. destruct remoteKeys as [|key rest]; [by destruct fuel|].
  destruct fuel as [|fuel]; [simpl in Hfuel; lia|].
  cbn [batchesCalls]. rewrite firstn_all2 by done.
  rewrite drop_ge by done. destruct fuel; simpl; by rewrite app_nil_r.
Qed.

Lemma lookups_count w batch :
  length (List.filter (fun c => match c with ApiGetSecret _ => true | _ => false end)
            (batchCalls projectId w batch)) = length batch.
Proof.
  unfold batchCalls. rewrite List.filter_app, length_app.
  assert (forall l : list (option JsVal),
            List.filter (fun c => match c with ApiGetSecret _ => true | _ => false end)
              (map (fun k => ApiGetSecret (secretName projectId k)) l) =
            map (fun k => ApiGetSecret (secretName projectId k)) l) as ->.
  { intros l. induction l as [|k l IH]; simpl; [done|]. by rewrite IH. }
  rewrite length_map.
  assert (List.filter (fun c => match c with ApiGetSecret _ => true | _ => false end)
            (flat_map (fun k => if present projectId w k
                                then [ApiListSecretVersions (secretName projectId k) 1]
                                else []) batch) = []) as ->.
  { induction batch as [|k l IH]; simpl; [done|].
    rewrite List.filter_app, IH. by destruct (present projectId w k). }
  simpl. lia.
Qed.

End BatchFacts.

(** X13: the requests of [checkSecrets] on a backend that accepts the
    caller are reads only: batch after batch of ten keys, the lookups
    of a batch first, in the order of the keys, then one list of
    versions per key that the backend holds; for at most ten keys there
    is one batch, with one lookup per key. *)
Theorem check_secrets_requests (projectId : string) (remoteKeys : list (option Js.JsVal))
    (w : World.World) :
  World.denied w = false ->
  snd (Provider.checkSecrets projectId remoteKeys w) =
    after w (World.backend w) (checkCalls projectId w remoteKeys) /\
  reads (checkCalls projectId w remoteKeys) /\
  (length remoteKeys <= Provider.CONCURRENCY ->
   checkCalls projectId w remoteKeys = batchCalls projectId w remoteKeys /\
   length (List.filter (fun c => match c with World.ApiGetSecret _ => true | _ => false end)
             (checkCalls projectId w remoteKeys)) = length remoteKeys).
Proof.
  intros Hd. split; [by rewrite checkSecrets_run|]. split.
  - destruct (checkSecrets_reads projectId remoteKeys w) as (cs & Hcs & Hreads).
    rewrite checkSecrets_run in Hcs by done. simpl in Hcs.
    apply app_inv_head in Hcs. by subst cs.
  - intros Hlen.
    assert (checkCalls projectId w remoteKeys = batchCalls projectId w remoteKeys) as Hone.
    { by apply batchesCalls_one. }
    split; [exact Hone|]. rewrite Hone. apply lookups_count.
Qed.

Lemma check_secrets_requests_witness :
  snd (Provider.checkSecrets "monobase-prod" [Samples.dbKey; None] Samples.worldWithDb) =
    after Samples.worldWithDb (World.backend Samples.worldWithDb)
      [World.ApiGetSecret "projects/monobase-prod/secrets/env-db-password";
       World.ApiGetSecret "projects/monobase-prod/secrets/undefined";
       World.ApiListSecretVersions "projects/monobase-prod/secrets/env-db-password" 1].
Proof.
  destruct (check_secrets_requests "monobase-prod" [Samples.dbKey; None] Samples.worldWithDb)
    as (Hrun & _); [reflexivity|].
  exact Hrun.
Defined.

(** X14: on a backend that rejects the caller, [checkSecrets] raises
    the error of code 7 once the first batch is answered: the lookups
    of the first ten keys have all been sent, and no later batch is
    started. *)
Theorem check_secrets_denied (projectId : string) (remoteKeys : list (option Js.JsVal))
    (w : World.World) :
  World.denied w = true ->
  remoteKeys <> [] ->
  Provider.checkSecrets projectId remoteKeys w =
    (Throw (GrpcError 7),
     after w (World.backend w)
       (map (fun k => World.ApiGetSecret (Provider.secretName projectId k))
          (take Provider.CONCURRENCY remoteKeys))).
Proof.
  intros Hd Hne. destruct remoteKeys as [|key rest]; [done|].
  unfold Provider.checkSecrets. cbn [length Provider.checkLoop].
  erewrite bind_throw; [reflexivity|].
  change (take Provider.CONCURRENCY (key :: rest)) with (key :: take 9 rest).
  by apply statusesOf_denied.
Qed.

Lemma check_secrets_denied_witness :
  fst (Provider.checkSecrets "monobase-prod" [Samples.dbKey; None]
         Samples.deniedWorld) = Throw (GrpcError 7).
Proof.
  rewrite (check_secrets_denied "monobase-prod" [Samples.dbKey; None] Samples.deniedWorld).
  - reflexivity.
  - reflexivity.
  - discriminate.
Defined.


Section StatusShape.
Import Js Validator.

Lemma statusOfObject_exists name namespace externalSecret st :
  statusOfObject name namespace externalSecret = Ok st ->
  exists_ st = true /\ Validator.name st = name /\ Validator.namespace st = namespace /\
  (errorMessage st = None \/ truthy (errorMessage st) = true) /\
  (ready st = true -> truthy (errorMessage st) = true -> synced st = false).
Proof.
  unfold statusOfObject.
  destruct (prop (Some externalSecret) "status") as [status0|]; [|done]. simpl.
  destruct (orElse (propV (orElse status0 (JObj [])) "conditions") (JArr []));
    try discriminate.
  destruct (findType "Ready" items) as [readyCondition|]; [|done]. simpl.
  destruct (findType "SecretSynced" items) as [syncedCondition|]; [|done]. simpl.
  destruct (mapConditions items) as [conds|]; [|done]. simpl.
  intros [= <-]. simpl. repeat split.
  - destruct (negb _ && truthy (optProp readyCondition "message")) eqn:H1.
    + right. by apply andb_true_iff in H1 as [_ ?].
    + destruct (negb _ && truthy (optProp syncedCondition "message")) eqn:H2.
      * right. by apply andb_true_iff in H2 as [_ ?].
      * by left.
  - intros ->. simpl.
    destruct (isStr (optProp syncedCondition "status") "True"); [done|]. done.
Qed.

End StatusShape.

(** X15: [getExternalSecretStatus] always returns, and what it returns
    for an object is either the not-found status (nothing exists, is
    synced, ready or created, and the message is ExternalSecret not
    found), also for an output it cannot read, or a status that exists;
    so a status that is ready or synced exists, and every status
    carries the name and namespace that were asked for. *)
Theorem status_shape (name namespace : string) (output : option Js.JsVal) :
  let st := Validator.statusOfOutput name namespace output in
  (st = Validator.notFound name namespace \/ Validator.exists_ st = true) /\
  (Validator.ready st = true \/ Validator.synced st = true -> Validator.exists_ st = true) /\
  (output = None -> st = Validator.notFound name namespace) /\
  Validator.name st = name /\ Validator.namespace st = namespace /\
  (forall w, Validator.getExternalSecretStatus name namespace w =
     (Ok (observedAt w (World.now w) name namespace), polled w name namespace)).
Proof.
  intros st. subst st. unfold Validator.statusOfOutput.
  destruct output as [externalSecret|].
  - destruct (Validator.statusOfObject name namespace externalSecret) as [st|] eqn:Hst.
    + apply statusOfObject_exists in Hst as (Hex & Hname & Hns & _).
      repeat split; auto. discriminate.
    + repeat split; auto. by intros [|].
  - repeat split; auto. by intros [|].
Qed.

Section EnvironmentFacts.
Import Js Scanner ScannerUtil.






End EnvironmentFacts.


